(** * videos.py: instance parsing, model building and solution extraction

    A shallow embedding of [src/videos.py] (Hash Code 2017 video streaming,
    solved as a 0/1 program through gurobipy) and the properties of its
    specification.

    Conventions of the embedding.
    - Python integers are [Z]; Python floats are binary64 primitive floats.
    - A Python [dict] whose iteration order is observed is an association
      list in insertion order ([dict_set] updates a present key in place and
      appends a new one).  The dictionary [capacity], which is only ever
      read through its keys, is a [gmap].
    - An input file is the list of its lines, each line given as the list of
      tokens [f.readline().split()] returns; reading past the last line
      yields the empty token list, as [''.split()] does.
    - Exceptions are values of [exn]; a computation that may raise returns
      a [res].  The orchestration layer additionally threads the list of
      effects performed on the outside world (solver resources, files), so
      that what has happened before an exception stays observable.
    - Console output ([print]) is not part of the model. *)

From Stdlib Require Import ZArith List String Ascii Lia.
From Stdlib Require Import Floats.PrimFloat.
From stdpp Require Import base option list gmap sorting strings pretty.

Local Open Scope string_scope.
Local Open Scope list_scope.
Local Open Scope Z_scope.

(** ** Exceptions and results *)

Inductive exn : Type :=
| ValueError (msg : string)
| KeyError
| IndexError
| OSError
| GurobiError.

Inductive res (A : Type) : Type :=
| Ok (a : A)
| Raise (e : exn).
Arguments Ok {A} a.
Arguments Raise {A} e.

#[global] Instance res_ret : MRet res := fun _ a => Ok a.
#[global] Instance res_bind : MBind res := fun _ _ f m =>
  match m with
  | Ok a => f a
  | Raise e => Raise e
  end.

Definition is_ok {A} (r : res A) : bool :=
  match r with Ok _ => true | Raise _ => false end.

Definition is_value_error {A} (r : res A) : bool :=
  match r with Raise (ValueError _) => true | _ => false end.

(** Left-to-right monadic fold: the body of a [for] loop that may raise. *)
Fixpoint foldM {A B} (f : A -> B -> res A) (a : A) (l : list B) : res A :=
  match l with
  | [] => Ok a
  | b :: l' => a' ← f a b; foldM f a' l'
  end.

(** ** Python built-ins used by the program *)

(** [str(n)] for an integer. *)
Definition str (n : Z) : string := pretty n.

(** [int(s)] on an ASCII token: an optional sign, then decimal digits, with
    single underscores allowed between digits.  Any other token raises
    [ValueError].  So does, with a message of its own, a token whose run of
    digits is longer than [sys.int_info.default_max_str_digits]: CPython
    counts the digits of the run, leading zeros included, before it converts
    them and before it looks at what follows the run. *)
Definition digit_of (c : ascii) : option Z :=
  let n := nat_of_ascii c in
  if ((48 <=? n) && (n <=? 57))%nat then Some (Z.of_nat (n - 48)) else None.

(** The run of digits and single underscores a literal starts with: its
    value, its number of digits and the text that follows it.  [None] when
    the run holds no digit or when an underscore is not between two digits. *)
Fixpoint int_digits (s : string) (acc : Z) (n : Z) (after_digit : bool)
  : option (Z * Z * string) :=
  match s with
  | EmptyString => if after_digit then Some (acc, n, s) else None
  | String c s' =>
      if Ascii.eqb c "_"%char
      then (if after_digit then int_digits s' acc n false else None)
      else match digit_of c with
           | Some d => int_digits s' (10 * acc + d) (n + 1) true
           | None => if after_digit then Some (acc, n, s) else None
           end
  end.

Definition max_str_digits : Z := 4300.

(** The conversion of what follows the sign. *)
Definition int_unsigned (negative : bool) (body : string) : res Z :=
  let invalid := ValueError "invalid literal for int() with base 10" in
  match int_digits body 0 0 false with
  | None => Raise invalid
  | Some (z, n, rest) =>
      if max_str_digits <? n
      then Raise (ValueError "Exceeds the limit (4300 digits) for integer string conversion")
      else match rest with
           | EmptyString => Ok (if negative then - z else z)
           | String _ _ => Raise invalid
           end
  end.

Definition py_int (s : string) : res Z :=
  match s with
  | String c s' =>
      if Ascii.eqb c "+"%char then int_unsigned false s'
      else if Ascii.eqb c "-"%char then int_unsigned true s'
      else int_unsigned false s
  | EmptyString => int_unsigned false s
  end.

(** [list(map(int, toks))]: conversion left to right, stopping at the first
    token that is not an integer. *)
Fixpoint map_int (toks : list string) : res (list Z) :=
  match toks with
  | [] => Ok []
  | t :: ts => z ← py_int t; zs ← map_int ts; Ok (z :: zs)
  end.

(** [l[i]] on a Python list: a negative index counts from the end, and an
    index outside [-len(l), len(l))] raises [IndexError]. *)
Definition py_index {A} (l : list A) (i : Z) : res A :=
  let n := Z.of_nat (length l) in
  let j := if i <? 0 then i + n else i in
  if (j <? 0) || (n <=? j) then Raise IndexError
  else match l !! Z.to_nat j with
       | Some a => Ok a
       | None => Raise IndexError
       end.

(** [range(n)] as a list of integers; empty when [n <= 0]. *)
Definition range (n : Z) : list Z := Z.of_nat <$> seq 0 (Z.to_nat n).

(** ** Insertion-ordered dictionaries *)

Abbreviation dict K V := (list (K * V)) (only parsing).

Section dict.
Context {K V : Type} `{EqDecision K}.

Fixpoint dict_get (d : dict K V) (k : K) : option V :=
  match d with
  | [] => None
  | (k', v) :: d' => if decide (k = k') then Some v else dict_get d' k
  end.

Definition dict_mem (d : dict K V) (k : K) : bool :=
  match dict_get d k with Some _ => true | None => false end.

(** [d[k] = v] *)
Fixpoint dict_set (d : dict K V) (k : K) (v : V) : dict K V :=
  match d with
  | [] => [(k, v)]
  | (k', v') :: d' =>
      if decide (k = k') then (k', v) :: d' else (k', v') :: dict_set d' k v
  end.

Definition keys (d : dict K V) : list K := fst <$> d.
End dict.

(** ** The instance and its parser ([lire_instance]) *)

Record Endpoint : Type := mkEndpoint {
  ld : Z;                 (* "ld"     *)
  caches : dict Z Z       (* "caches": cache id -> latency *)
}.

Record Request : Type := mkRequest {
  req_id : Z;             (* "id"       *)
  req_video : Z;          (* "video"    *)
  req_endpoint : Z;       (* "endpoint" *)
  req_count : Z           (* "count"    *)
}.

(** The tuple [V, E, R, C, X, video_sizes, endpoints, requests]. *)
Record Instance : Type := mkInstance {
  inst_V : Z;
  inst_E : Z;
  inst_R : Z;
  inst_C : Z;
  inst_X : Z;
  video_sizes : list Z;
  endpoints : list Endpoint;
  requests : list Request
}.

Abbreviation line := (list string) (only parsing).

(** [f.readline().split()] on the remaining lines of the file. *)
Definition readline (f : list line) : line * list line :=
  match f with
  | [] => ([], [])
  | l :: f' => (l, f')
  end.

(** [c_id, latency = map(int, toks)]: the iterator is consumed one element
    beyond the two targets, so a third token is converted before the arity
    error is raised. *)
Definition unpack2 (toks : line) : res (Z * Z) :=
  match toks with
  | [] => Raise (ValueError "not enough values to unpack (expected 2, got 0)")
  | [a] =>
      _ ← py_int a;
      Raise (ValueError "not enough values to unpack (expected 2, got 1)")
  | [a; b] => c_id ← py_int a; latency ← py_int b; Ok (c_id, latency)
  | a :: b :: c :: _ =>
      _ ← py_int a; _ ← py_int b; _ ← py_int c;
      Raise (ValueError "too many values to unpack (expected 2)")
  end.

(** [for _ in range(k)]: one cache connection per line. *)
Fixpoint read_connections (k : nat) (f : list line) (cache_connections : dict Z Z)
  : res (dict Z Z * list line) :=
  match k with
  | O => Ok (cache_connections, f)
  | S k' =>
      let '(toks, f') := readline f in
      '(c_id, latency) ← unpack2 toks;
      read_connections k' f' (dict_set cache_connections c_id latency)
  end.

(** [for e in range(E)]: one endpoint block per iteration. *)
Fixpoint read_endpoints (n : nat) (f : list line) (endpoints : list Endpoint)
  : res (list Endpoint * list line) :=
  match n with
  | O => Ok (endpoints, f)
  | S n' =>
      let '(ep_header, f1) := readline f in
      if negb (length ep_header =? 2)%nat
      then Raise (ValueError "Endpoint header must contain 2 integers")
      else
        ld ← py_int (nth 0 ep_header "");
        k ← py_int (nth 1 ep_header "");
        '(cache_connections, f2) ← read_connections (Z.to_nat k) f1 [];
        read_endpoints n' f2 (endpoints ++ [mkEndpoint ld cache_connections])
  end.

(** [for r in range(R)]: [r] is the request identifier. *)
Fixpoint read_requests (n : nat) (r : Z) (f : list line) (requests : list Request)
  : res (list Request * list line) :=
  match n with
  | O => Ok (requests, f)
  | S n' =>
      let '(toks, f') := readline f in
      if negb (length toks =? 3)%nat
      then Raise (ValueError "Request line must contain 3 integers")
      else
        ints ← map_int toks;
        match ints with
        | [rv; re; rn] =>
            read_requests n' (r + 1) f' (requests ++ [mkRequest r rv re rn])
        | _ => Raise (ValueError "unpack")
        end
  end.

Definition lire_instance (f : list line) : res Instance :=
  let '(header, f1) := readline f in
  match header with
  | [] => Raise (ValueError "Empty input file")
  | _ =>
      if negb (length header =? 5)%nat
      then Raise (ValueError "First line must contain 5 integers: V E R C X")
      else
        ints ← map_int header;
        match ints with
        | [V; E; R; C; X] =>
            let '(sizes_line, f2) := readline f1 in
            if negb (Z.of_nat (length sizes_line) =? V)
            then Raise (ValueError "Second line must contain V video sizes")
            else
              video_sizes ← map_int sizes_line;
              '(endpoints, f3) ← read_endpoints (Z.to_nat E) f2 [];
              '(requests, _) ← read_requests (Z.to_nat R) 0 f3 [];
              Ok (mkInstance V E R C X video_sizes endpoints requests)
        | _ => Raise (ValueError "unpack")
        end
  end.

(** ** The solver model, as the program drives it

    Only what the program asks of gurobipy is recorded: the variables and
    constraints it registers, in order, and the objective sense.  A variable
    handle ([gp.Var]) is the rank at which the variable was added.  Names are
    kept in symbolic form; [name_str] renders the f-string of the source.
    Coefficients and right-hand sides are kept as the integers the program
    passes: their conversion to doubles by gurobipy, which raises on an
    integer beyond the range of a double, is not part of the record, and
    [solver_range] below delimits the instances on which it cannot raise. *)

Inductive name : Type :=
| x_ (vid cid : Z)
| y_ (rid cid : Z)
| link_ (rid cid : Z)
| assign_ (rid : Z)
| cap_cache_ (c : Z).

Definition name_str (n : name) : string :=
  match n with
  | x_ vid cid => "x_" +:+ str vid +:+ "_" +:+ str cid
  | y_ rid cid => "y_" +:+ str rid +:+ "_" +:+ str cid
  | link_ rid cid => "link_" +:+ str rid +:+ "_" +:+ str cid
  | assign_ rid => "assign_" +:+ str rid
  | cap_cache_ c => "cap_cache_" +:+ str c
  end.

Inductive vtype : Type := BINARY.
Inductive sense : Type := MINIMIZE | MAXIMIZE.

Abbreviation Var := nat (only parsing).

Record VarDecl : Type := mkVar {
  var_vtype : vtype;
  var_obj : Z;
  var_name : name
}.

(** [gp.LinExpr]: the list of its terms, coefficient first. *)
Abbreviation LinExpr := (list (Z * Var)) (only parsing).

Definition LinExpr_add (e : LinExpr) (v : Var) (mult : Z) : LinExpr :=
  e ++ [(mult, v)].

Definition LinExpr_size (e : LinExpr) : Z := Z.of_nat (length e).

Definition quicksum (vs : list Var) : LinExpr := (fun v => (1, v)) <$> vs.

(** The two shapes of [TempConstr] the program builds with [<=]. *)
Inductive TempConstr : Type :=
| VarLeVar (lhs rhs : Var)
| ExprLeConst (lhs : LinExpr) (rhs : Z).

Record Constr : Type := mkConstr {
  constr_expr : TempConstr;
  constr_name : name
}.

Record Model : Type := mkModel {
  vars : list VarDecl;
  constrs : list Constr;
  ModelSense : sense;
  LogToConsole : Z;
  MIPGap : float
}.

(** [gp.Model("VideoStreaming", env=env)] with gurobi's defaults. *)
Definition gp_Model : Model :=
  {| vars := []; constrs := []; ModelSense := MINIMIZE;
     LogToConsole := 1; MIPGap := 0x1.a36e2eb1c432dp-14%float |}.

Definition addVar (m : Model) (vt : vtype) (obj : Z) (n : name) : Var * Model :=
  (length (vars m),
   {| vars := vars m ++ [mkVar vt obj n]; constrs := constrs m;
      ModelSense := ModelSense m; LogToConsole := LogToConsole m;
      MIPGap := MIPGap m |}).

Definition addConstr (m : Model) (e : TempConstr) (n : name) : Model :=
  {| vars := vars m; constrs := constrs m ++ [mkConstr e n];
     ModelSense := ModelSense m; LogToConsole := LogToConsole m;
     MIPGap := MIPGap m |}.

Definition set_ModelSense (m : Model) (s : sense) : Model :=
  {| vars := vars m; constrs := constrs m; ModelSense := s;
     LogToConsole := LogToConsole m; MIPGap := MIPGap m |}.

Definition set_Params (m : Model) (log : Z) (gap : float) : Model :=
  {| vars := vars m; constrs := constrs m; ModelSense := ModelSense m;
     LogToConsole := log; MIPGap := gap |}.

(** ** Model building ([build_model]) *)

(** The mutable objects of the construction loops: the model, the dictionary
    [x] of placement variables and the dictionary [capacity] of per-cache
    linear expressions. *)
Record BuildState : Type := mkBuildState {
  bs_model : Model;
  bs_x : dict (Z * Z) Var;
  bs_capacity : gmap Z LinExpr
}.

(** [x[vid, cid]] *)
Definition x_lookup (x : dict (Z * Z) Var) (vid cid : Z) : res Var :=
  match dict_get x (vid, cid) with
  | Some v => Ok v
  | None => Raise KeyError
  end.

(** Body of [for cid, lc in endpoints[eid]["caches"].items()]. *)
Definition cache_iter (video_sizes : list Z) (request : Request) (ld : Z)
    (st : BuildState * list Var) (item : Z * Z) : res (BuildState * list Var) :=
  let '(mkBuildState model x capacity, y_vars_for_request) := st in
  let '(cid, lc) := item in
  let vid := req_video request in
  let num := req_count request in
  if lc >=? ld then Ok st
  else
    let saving := (ld - lc) * num in
    '(model, x, capacity) ←
      (if dict_mem x (vid, cid) then Ok (model, x, capacity)
       else
         let '(v, model) := addVar model BINARY 0 (x_ vid cid) in
         let x := dict_set x (vid, cid) v in
         match capacity !! cid with
         | None => Raise KeyError
         | Some expr =>
             xv ← x_lookup x vid cid;
             size ← py_index video_sizes vid;
             Ok (model, x, <[cid := LinExpr_add expr xv size]> capacity)
         end);
    let '(y_rc, model) := addVar model BINARY saving (y_ (req_id request) cid) in
    let y_vars_for_request := y_vars_for_request ++ [y_rc] in
    xv ← x_lookup x vid cid;
    let model := addConstr model (VarLeVar y_rc xv) (link_ (req_id request) cid) in
    Ok (mkBuildState model x capacity, y_vars_for_request).

(** Body of [for request in requests]. *)
Definition request_iter (video_sizes : list Z) (endpoints : list Endpoint)
    (st : BuildState) (request : Request) : res BuildState :=
  let eid := req_endpoint request in
  ep ← py_index endpoints eid;
  let ld := ld ep in
  '(st, y_vars_for_request) ←
    foldM (cache_iter video_sizes request ld) (st, []) (caches ep);
  match y_vars_for_request with
  | [] => Ok st
  | _ =>
      Ok (mkBuildState
            (addConstr (bs_model st) (ExprLeConst (quicksum y_vars_for_request) 1)
                       (assign_ (req_id request)))
            (bs_x st) (bs_capacity st))
  end.

(** Body of [for c in range(C)]. *)
Definition capacity_iter (X : Z) (capacity : gmap Z LinExpr) (model : Model) (c : Z)
  : res Model :=
  match capacity !! c with
  | None => Raise KeyError
  | Some expr =>
      if 0 <? LinExpr_size expr
      then Ok (addConstr model (ExprLeConst expr X) (cap_cache_ c))
      else Ok model
  end.

(** [{c: gp.LinExpr() for c in range(C)}] *)
Definition init_capacity (C : Z) : gmap Z LinExpr :=
  list_to_map ((fun c => (c, [])) <$> range C).

Definition init_state (C : Z) : BuildState :=
  mkBuildState (set_Params gp_Model 1 0x1.47ae147ae147bp-8%float) [] (init_capacity C).

(** The state reached when the request loop ends. *)
Definition process_requests (inst : Instance) : res BuildState :=
  foldM (request_iter (video_sizes inst) (endpoints inst))
        (init_state (inst_C inst)) (requests inst).

(** The model and the dictionary [x] that [build_model] returns, before any
    effect on the outside world is accounted for. *)
Definition build (inst : Instance) : res (Model * dict (Z * Z) Var) :=
  st ← process_requests inst;
  model ← foldM (capacity_iter (inst_X inst) (bs_capacity st)) (bs_model st)
                (range (inst_C inst));
  Ok (set_ModelSense model MAXIMIZE, bs_x st).

Definition example_instance (lc : Z) : Instance :=
  mkInstance 1 1 1 1 10 [5] [mkEndpoint 100 [(0, lc)]] [mkRequest 0 0 0 3].

(** ** Effects on the outside world *)

Inductive Env : Type := gp_Env.

Inductive event : Type :=
| EnvCreate                                   (* gp.Env() *)
| ModelCreate                                 (* gp.Model(..., env=env) *)
| ModelWrite (path : string)                  (* model.write(path) *)
| Optimize                                    (* model.optimize() *)
| ModelDispose                                (* model.dispose() *)
| EnvDispose                                  (* env.dispose() *)
| FileWrite (path : string) (content : string).  (* open(path, "w") and its writes *)

(** A computation with effects: the effects performed, in order, and the
    value returned or the exception raised after them. *)
Record io (A : Type) : Type := IO { run_io : list event * res A }.
Arguments IO {A} run_io.
Arguments run_io {A} i.

Definition trace {A} (c : io A) : list event := (run_io c).1.
Definition result {A} (c : io A) : res A := (run_io c).2.

#[global] Instance io_ret : MRet io := fun _ a => IO ([], Ok a).
#[global] Instance io_bind : MBind io := fun _ _ f c =>
  match run_io c with
  | (tr, Ok a) => IO (tr ++ trace (f a), result (f a))
  | (tr, Raise e) => IO (tr, Raise e)
  end.

Definition emit (ev : event) : io unit := IO ([ev], Ok tt).
Definition lift {A} (r : res A) : io A := IO ([], r).
Definition raise {A} (e : exn) : io A := IO ([], Raise e).

(** What the program observes of the outside world: the content of a file it
    opens for reading ([None] when it cannot be opened), and what
    [model.optimize()] leaves behind: an exception, or the attribute
    [SolCount] and the attribute [X] of every variable.  The files the
    program writes are taken to be writable: a failure to create the
    environment, to write [videos.mps] or to open the output file is not
    among the outcomes. *)
Inductive outcome : Type :=
| OptimizeRaises
| Optimized (SolCount : Z) (X : Var -> float).

Record World : Type := mkWorld {
  file_lines : string -> option (list line);
  optimize : Model -> outcome
}.

Definition build_model (inst : Instance) : io (Model * Env * dict (Z * Z) Var) :=
  emit EnvCreate;;
  emit ModelCreate;;
  '(model, x) ← lift (build inst);
  emit (ModelWrite "videos.mps");;
  mret (model, gp_Env, x).

(** ** Solution extraction ([resol_restit]) *)

(** [sorted(l)] on integers. *)
Definition sorted (l : list Z) : list Z := merge_sort Z.le l.

(** The line terminator written by the program. *)
Definition newline : string := String "010"%char "".

(** [sep.join(l)] *)
Fixpoint join (sep : string) (l : list string) : string :=
  match l with
  | [] => ""
  | [s] => s
  | s :: l' => s +:+ sep +:+ join sep l'
  end.

(** [{c: [] for c in range(C)}] *)
Definition init_cache_content (C : Z) : dict Z (list Z) :=
  (fun c => (c, [])) <$> range C.

(** Body of [for (vid, cid), var in x.items()]. *)
Definition content_iter (X : Var -> float) (cache_content : dict Z (list Z))
    (item : Z * Z * Var) : res (dict Z (list Z)) :=
  let '((vid, cid), var) := item in
  if (0.5 <? X var)%float
  then match dict_get cache_content cid with
       | None => Raise KeyError
       | Some vlist => Ok (dict_set cache_content cid (vlist ++ [vid]))
       end
  else Ok cache_content.

(** [{c: sorted(vlist) for c, vlist in cache_content.items() if vlist}] *)
Definition used_caches_of (cache_content : dict Z (list Z)) : dict Z (list Z) :=
  (fun p => (p.1, sorted p.2)) <$> filter (fun p => p.2 ≠ []) cache_content.

(** The dictionary [used_caches] computed from the solved values. *)
Definition extract (X : Var -> float) (x : dict (Z * Z) Var) (C : Z)
  : res (dict Z (list Z)) :=
  cache_content ← foldM (content_iter X) (init_cache_content C) x;
  Ok (used_caches_of cache_content).

(** One line of the output file. *)
Definition cache_line (used_caches : dict Z (list Z)) (cid : Z) : res string :=
  match dict_get used_caches cid with
  | None => Raise KeyError
  | Some vlist => Ok (str cid +:+ " " +:+ join " " (str <$> vlist) +:+ newline)
  end.

(** Everything written between [open] and the end of the [with] block. *)
Definition output_text (used_caches : dict Z (list Z)) : res string :=
  lines ← mapM (cache_line used_caches) (sorted (keys used_caches));
  Ok (str (Z.of_nat (length used_caches)) +:+ newline +:+ String.concat "" lines).

Definition resol_restit (w : World) (model : Model) (env : Env)
    (x : dict (Z * Z) Var) (C : Z) (output_path : string) : io unit :=
  emit Optimize;;
  match optimize w model with
  | OptimizeRaises => raise GurobiError
  | Optimized SolCount X =>
      if SolCount =? 0
      then emit ModelDispose;; emit EnvDispose;; mret tt
      else
        used_caches ← lift (extract X x C);
        text ← lift (output_text used_caches);
        emit (FileWrite output_path text);;
        emit ModelDispose;;
        emit EnvDispose;;
        mret tt
  end.

(** ** Orchestration ([main]) *)

Definition main (w : World) (argv : list string) : io Z :=
  if negb (length argv =? 2)%nat then mret 1
  else
    let input_path := nth 1 argv "" in
    inst ← lift (match file_lines w input_path with
                 | None => Raise OSError
                 | Some f => lire_instance f
                 end);
    '(model, env, x) ← build_model inst;
    resol_restit w model env x (inst_C inst) "videos.out";;
    mret 0.

(** The two worked examples of the specification, run end to end against a
    solver that stores everything. *)
Definition example_file (lc : string) : list line :=
  [["1"; "1"; "1"; "1"; "10"]; ["5"]; ["100"; "1"]; ["0"; lc]; ["0"; "0"; "3"]].

Definition example_world (lc : string) : World :=
  mkWorld (fun _ => Some (example_file lc)) (fun _ => Optimized 1 (fun _ => 1%float)).

(** The model, dictionary and loop state built for [example_instance 10]. *)
Definition example_model : Model :=
  {| vars := [mkVar BINARY 0 (x_ 0 0); mkVar BINARY 270 (y_ 0 0)];
     constrs := [mkConstr (VarLeVar 1%nat 0%nat) (link_ 0 0);
                 mkConstr (ExprLeConst [(1, 1%nat)] 1) (assign_ 0);
                 mkConstr (ExprLeConst [(5, 0%nat)] 10) (cap_cache_ 0)];
     ModelSense := MAXIMIZE; LogToConsole := 1;
     MIPGap := 0x1.47ae147ae147bp-8%float |}.

Definition example_x : dict (Z * Z) Var := [((0, 0), 0%nat)].

Definition example_state : BuildState :=
  mkBuildState
    {| vars := [mkVar BINARY 0 (x_ 0 0); mkVar BINARY 270 (y_ 0 0)];
       constrs := [mkConstr (VarLeVar 1%nat 0%nat) (link_ 0 0);
                   mkConstr (ExprLeConst [(1, 1%nat)] 1) (assign_ 0)];
       ModelSense := MINIMIZE; LogToConsole := 1;
       MIPGap := 0x1.47ae147ae147bp-8%float |}
    example_x
    (<[0 := [(5, 0%nat)]]> (init_capacity 1)).

(** ** Well-formed input text *)

(** A line of exactly [n] tokens that are all integers. *)
Definition int_line (n : nat) (l : line) : Prop :=
  length l = n /\ Forall (fun t => is_ok (py_int t) = true) l.

(** An endpoint block of the text: its header line and its connection
    lines. *)
Definition block_lines (b : line * list line) : list line := b.1 :: b.2.

(** The header of a block announces [k] connection lines; a negative [k]
    announces none, [range(k)] being empty. *)
Definition well_formed_block (b : line * list line) : Prop :=
  exists ld k,
    map_int b.1 = Ok [ld; k] /\ length b.2 = Z.to_nat k /\ Forall (int_line 2) b.2.

(** The text [f] starts with a header of the five integers [V E R C X], a
    line of [V] sizes, [E] endpoint blocks and [R] request lines, possibly
    followed by further lines [rest].  A negative [E] or [R] stands for no
    block or no request line, [range(E)] and [range(R)] being empty, whereas
    [V] is compared with a length and cannot be negative.  (When nothing
    follows the header, the size line may be missing altogether: reading it
    yields no token, which is what [V = 0] asks for.) *)
Definition well_formed (f : list line) (V E R C X : Z) : Prop :=
  exists header sizes blocks reqs rest,
    map_int header = Ok [V; E; R; C; X] /\
    0 <= V /\ int_line (Z.to_nat V) sizes /\
    length blocks = Z.to_nat E /\ Forall well_formed_block blocks /\
    length reqs = Z.to_nat R /\ Forall (int_line 3) reqs /\
    (f = header :: sizes :: flat_map block_lines blocks ++ reqs ++ rest \/
     (f = [header] /\ sizes = [] /\ blocks = [] /\ reqs = [])).

(** The scope of the statements about rejected texts.  The file is opened
    as UTF-8 text, and [int] also converts decimal digits outside ASCII; a
    token is modelled as the string of its bytes, which is what it is in a
    file of ASCII characters only: the characters of a token are then the
    printable ones other than the space. *)
Definition ascii_token (t : string) : bool :=
  forallb (fun c => (32 <? nat_of_ascii c)%nat && (nat_of_ascii c <? 127)%nat)
          (list_ascii_of_string t).

Definition ascii_text (f : list line) : bool := forallb (forallb ascii_token) f.

(** A text whose header declares -2 requests and whose endpoint declares -2
    connections. *)
Definition negative_counts_file : list line :=
  [["1"; "1"; "-2"; "1"; "10"]; ["5"]; ["100"; "-2"]].

Definition negative_counts_instance : Instance :=
  mkInstance 1 1 (-2) 1 10 [5] [mkEndpoint 100 []] [].

(** The text of an instance, every integer written by [str]. *)
Definition render_ints (zs : list Z) : line := str <$> zs.

Definition render_endpoint (ep : Endpoint) : list line :=
  render_ints [ld ep; Z.of_nat (length (caches ep))] ::
  ((fun p => render_ints [p.1; p.2]) <$> caches ep).

Definition render_request (r : Request) : line :=
  render_ints [req_video r; req_endpoint r; req_count r].

Definition render (inst : Instance) : list line :=
  render_ints [inst_V inst; inst_E inst; inst_R inst; inst_C inst; inst_X inst] ::
  render_ints (video_sizes inst) ::
  flat_map render_endpoint (endpoints inst) ++ (render_request <$> requests inst).

(** The block and the request triple that the text of an instance holds. *)
Definition block_of (ep : Endpoint) : line * list line :=
  (render_ints [ld ep; Z.of_nat (length (caches ep))],
   (fun p => render_ints [p.1; p.2]) <$> caches ep).

Definition triple_of (q : Request) : Z * Z * Z :=
  (req_video q, req_endpoint q, req_count q).

(** The integers that the text of an instance holds, and those of them that
    [int] reads and [str] writes: the ones of at most 4300 digits. *)
Definition endpoint_integers (ep : Endpoint) : list Z :=
  ld ep :: Z.of_nat (length (caches ep)) :: flat_map (fun p => [p.1; p.2]) (caches ep).

Definition request_integers (r : Request) : list Z :=
  [req_video r; req_endpoint r; req_count r].

Definition integers (inst : Instance) : list Z :=
  [inst_V inst; inst_E inst; inst_R inst; inst_C inst; inst_X inst] ++
  video_sizes inst ++ flat_map endpoint_integers (endpoints inst) ++
  flat_map request_integers (requests inst).

Definition int_readable (z : Z) : bool := Z.abs z <? 10 ^ max_str_digits.

(** What the parser can return: the counts are the lengths, requests are
    numbered from 0 in order, and the cache dictionary of an endpoint has
    distinct keys.  Nothing bounds an identifier. *)
Definition shaped (inst : Instance) : Prop :=
  inst_V inst = Z.of_nat (length (video_sizes inst)) /\
  inst_E inst = Z.of_nat (length (endpoints inst)) /\
  inst_R inst = Z.of_nat (length (requests inst)) /\
  Forall (fun ep => NoDup (keys (caches ep))) (endpoints inst) /\
  req_id <$> requests inst = range (inst_R inst).

(** What each parsing loop makes of the lines it reads. *)
Definition connections_of (cc : dict Z Z) (pairs : list (Z * Z)) : dict Z Z :=
  foldl (fun d p => dict_set d p.1 p.2) cc pairs.

Definition block_parses (b : line * list line) (ep : Endpoint) : Prop :=
  exists ldv k pairs,
    map_int b.1 = Ok [ldv; k] /\ length b.2 = Z.to_nat k /\
    Forall2 (fun l p => unpack2 l = Ok p) b.2 pairs /\
    ep = mkEndpoint ldv (connections_of [] pairs).

Fixpoint number_requests (r : Z) (triples : list (Z * Z * Z)) : list Request :=
  match triples with
  | [] => []
  | (rv, re, rn) :: ts => mkRequest r rv re rn :: number_requests (r + 1) ts
  end.

Definition request_parses (l : line) (t : Z * Z * Z) : Prop :=
  map_int l = Ok [t.1.1; t.1.2; t.2].

(** The distinct cache identifiers of a list of connection lines, each at
    its first occurrence. *)
Fixpoint first_ids (l : list Z) : list Z :=
  match l with
  | [] => []
  | c :: l' => c :: filter (fun c' => c' <> c) (first_ids l')
  end.

(** The messages of the [ValueError]s that [lire_instance] raises itself. *)
Definition diagnostics : list string :=
  ["Empty input file";
   "First line must contain 5 integers: V E R C X";
   "Second line must contain V video sizes";
   "Endpoint header must contain 2 integers";
   "Request line must contain 3 integers"].

(** ** Vocabulary of the specification *)

Definition is_x (d : VarDecl) : bool :=
  match var_name d with x_ _ _ => true | _ => false end.
Definition is_y (d : VarDecl) : bool :=
  match var_name d with y_ _ _ => true | _ => false end.
Definition is_link (c : Constr) : bool :=
  match constr_name c with link_ _ _ => true | _ => false end.
Definition is_assign (c : Constr) : bool :=
  match constr_name c with assign_ _ => true | _ => false end.
Definition is_cap (c : Constr) : bool :=
  match constr_name c with cap_cache_ _ => true | _ => false end.

(** PlacementVariables and ServingVariables of a model, in creation order. *)
Definition placement_vars (m : Model) : list VarDecl := filter is_x (vars m).
Definition serving_vars (m : Model) : list VarDecl := filter is_y (vars m).

(** The reachable caches of an endpoint that are eligible: strictly faster
    than the origin. *)
Definition eligible_caches (ep : Endpoint) : list (Z * Z) :=
  filter (fun it => it.2 < ld ep) (caches ep).

Definition endpoint_of (endpoints : list Endpoint) (r : Request) : option Endpoint :=
  match py_index endpoints (req_endpoint r) with
  | Ok ep => Some ep
  | Raise _ => None
  end.

Definition ld_of (endpoints : list Endpoint) (r : Request) : Z :=
  from_option ld 0 (endpoint_of endpoints r).

(** The eligible (cache, latency) pairs of a request. *)
Definition eligible_of (endpoints : list Endpoint) (r : Request) : list (Z * Z) :=
  from_option eligible_caches [] (endpoint_of endpoints r).

(** The ServingVariable of request [r] through the cache of [it]. *)
Definition serving_decl (endpoints : list Endpoint) (r : Request) (it : Z * Z) : VarDecl :=
  mkVar BINARY ((ld_of endpoints r - it.2) * req_count r) (y_ (req_id r) it.1).

(** The PlacementVariable of a (video, cache) pair. *)
Definition placement_decl (p : Z * Z) : VarDecl := mkVar BINARY 0 (x_ p.1 p.2).

(** The (video, cache) pairs a request needs. *)
Definition pairs_of (endpoints : list Endpoint) (r : Request) : list (Z * Z) :=
  (fun it => (req_video r, it.1)) <$> eligible_of endpoints r.

(** A list without its repetitions, each element kept where it first
    occurs. *)
Fixpoint first_occurrences (l : list (Z * Z)) : list (Z * Z) :=
  match l with
  | [] => []
  | p :: l' => p :: filter (fun q => q <> p) (first_occurrences l')
  end.

(** All (request, eligible cache) pairs, in processing order. *)
Definition eligible_pairs (endpoints : list Endpoint) (requests : list Request)
  : list (Request * (Z * Z)) :=
  flat_map (fun r => (fun it => (r, it)) <$> eligible_of endpoints r) requests.

Definition size_of (video_sizes : list Z) (vid : Z) : Z :=
  match py_index video_sizes vid with Ok s => s | Raise _ => 0 end.

(** The weighted sum of the PlacementVariables of cache [c]. *)
Definition cap_terms (video_sizes : list Z) (x : dict (Z * Z) Var) (c : Z) : LinExpr :=
  (fun e => (size_of video_sizes e.1.1, e.2)) <$> filter (fun e => e.1.2 = c) x.

(** A PlacementVariable counts as stored when its solved value exceeds 0.5. *)
Definition stored (X : Var -> float) (var : Var) : bool := (0.5 <? X var)%float.

(** The videos stored on cache [c], in the order of the dictionary [x]. *)
Definition stored_videos (X : Var -> float) (x : dict (Z * Z) Var) (c : Z) : list Z :=
  (fun e => e.1.1) <$> filter (fun e => e.1.2 = c /\ stored X e.2) x.

(** The PlacementSolution of the specification: the caches of [range(C)]
    that store at least one video, in ascending order, each with its videos
    in ascending order. *)
Definition placement_solution (X : Var -> float) (x : dict (Z * Z) Var) (C : Z)
  : list (Z * list Z) :=
  (fun c => (c, sorted (stored_videos X x c))) <$>
  filter (fun c => stored_videos X x c <> []) (range C).

(** The output file of the specification for a PlacementSolution: the
    number of caches used, then one line per cache with its identifier and
    its video identifiers. *)
Definition solution_line (entry : Z * list Z) : string :=
  str entry.1 +:+ " " +:+ join " " (str <$> entry.2) +:+ newline.

Definition solution_text (sol : list (Z * list Z)) : string :=
  str (Z.of_nat (length sol)) +:+ newline +:+ String.concat "" (solution_line <$> sol).

(** The capacity invariant of the specification on a PlacementSolution:
    the videos listed for a cache fit in [X]. *)
Definition entry_size (video_sizes : list Z) (vs : list Z) : Z :=
  foldr Z.add 0 (size_of video_sizes <$> vs).

Definition capacity_respected (video_sizes : list Z) (X : Z) (sol : list (Z * list Z))
  : bool :=
  forallb (fun entry => entry_size video_sizes entry.2 <=? X) sol.

(** An instance whose only video (size 5) exceeds the capacity (1), with a
    solver that nevertheless reports the video as stored. *)
Definition overfull_file : list line :=
  [["1"; "1"; "1"; "1"; "1"]; ["5"]; ["100"; "1"]; ["0"; "10"]; ["0"; "0"; "3"]].

Definition overfull_world : World :=
  mkWorld (fun _ => Some overfull_file) (fun _ => Optimized 1 (fun _ => 1%float)).

Definition overfull_instance : Instance :=
  mkInstance 1 1 1 1 1 [5] [mkEndpoint 100 [(0, 10)]] [mkRequest 0 0 0 3].

Definition overfull_model : Model :=
  {| vars := [mkVar BINARY 0 (x_ 0 0); mkVar BINARY 270 (y_ 0 0)];
     constrs := [mkConstr (VarLeVar 1%nat 0%nat) (link_ 0 0);
                 mkConstr (ExprLeConst [(1, 1%nat)] 1) (assign_ 0);
                 mkConstr (ExprLeConst [(5, 0%nat)] 1) (cap_cache_ 0)];
     ModelSense := MAXIMIZE; LogToConsole := 1;
     MIPGap := 0x1.47ae147ae147bp-8%float |}.

(** An instance whose endpoint is connected to cache 5 although C = 1. *)
Definition stray_cache_file : list line :=
  [["1"; "1"; "1"; "1"; "10"]; ["5"]; ["100"; "1"]; ["5"; "10"]; ["0"; "0"; "3"]].

Definition stray_cache_instance : Instance :=
  mkInstance 1 1 1 1 10 [5] [mkEndpoint 100 [(5, 10)]] [mkRequest 0 0 0 3].

Definition stray_cache_world : World :=
  mkWorld (fun _ => Some stray_cache_file) (fun _ => Optimized 1 (fun _ => 1%float)).

(** The first worked example with a solver that raises, and with a solver
    that finds no solution. *)
Definition failing_solver_world : World :=
  mkWorld (fun _ => Some (example_file "10")) (fun _ => OptimizeRaises).

Definition no_solution_world : World :=
  mkWorld (fun _ => Some (example_file "10")) (fun _ => Optimized 0 (fun _ => 0%float)).

(** The scope of the statements about what the construction raises.
    gurobipy converts the numbers it is given to C doubles and raises
    exceptions of its own on those it cannot convert; the model records the
    calls and not this conversion.  The numbers the construction hands over
    are the objective coefficients [(ld - lc) * num] of the eligible
    pairs, the video sizes and [X]; the identifiers go into the names.  An
    instance is within range when all of its integers and all of these
    coefficients are integers that a double holds exactly. *)
Definition savings (inst : Instance) : list Z :=
  (fun e : Request * (Z * Z) =>
     (ld_of (endpoints inst) e.1 - e.2.2) * req_count e.1) <$>
  eligible_pairs (endpoints inst) (requests inst).

Definition solver_range (inst : Instance) : bool :=
  forallb (fun z => Z.abs z <=? 2 ^ 53)
          (integers inst ++ (req_id <$> requests inst) ++ savings inst).

(** What a request needs for the model to be built: its endpoint identifier
    is a valid Python index of [endpoints] and, for each of its eligible
    caches, the cache identifier is a key of [capacity] and the video
    identifier is a valid Python index of [video_sizes]. *)
Definition usable (inst : Instance) (r : Request) : Prop :=
  - Z.of_nat (length (endpoints inst)) <= req_endpoint r
      < Z.of_nat (length (endpoints inst)) /\
  forall ep c lc,
    py_index (endpoints inst) (req_endpoint r) = Ok ep ->
    (c, lc) ∈ caches ep -> lc < ld ep ->
    0 <= c < inst_C inst /\
    - Z.of_nat (length (video_sizes inst)) <= req_video r
        < Z.of_nat (length (video_sizes inst)).

(** An instance whose request names video -1 and endpoint -1, and the text
    it is parsed from. *)
Definition negative_ids_instance : Instance :=
  mkInstance 1 1 1 1 10 [5] [mkEndpoint 100 [(0, 10)]] [mkRequest 0 (-1) (-1) 3].

Definition negative_ids_file : list line :=
  [["1"; "1"; "1"; "1"; "10"]; ["5"]; ["100"; "1"]; ["0"; "10"]; ["-1"; "-1"; "3"]].

Definition negative_ids_model : Model :=
  {| vars := [mkVar BINARY 0 (x_ (-1) 0); mkVar BINARY 270 (y_ 0 0)];
     constrs := [mkConstr (VarLeVar 1%nat 0%nat) (link_ 0 0);
                 mkConstr (ExprLeConst [(1, 1%nat)] 1) (assign_ 0);
                 mkConstr (ExprLeConst [(5, 0%nat)] 10) (cap_cache_ 0)];
     ModelSense := MAXIMIZE; LogToConsole := 1;
     MIPGap := 0x1.47ae147ae147bp-8%float |}.

(** The link constraint of a (request, eligible cache) pair: it bounds the
    pair's ServingVariable by the PlacementVariable that the dictionary [x]
    holds for the request's video and that cache. *)
Definition link_for (endpoints : list Endpoint) (m : Model) (x : dict (Z * Z) Var)
    (c : Constr) (e : Request * (Z * Z)) : Prop :=
  exists y xv,
    c = mkConstr (VarLeVar y xv) (link_ (req_id e.1) e.2.1) /\
    vars m !! y = Some (serving_decl endpoints e.1 e.2) /\
    dict_get x (req_video e.1, e.2.1) = Some xv.

(** The assignment constraint of a request: the sum of exactly its
    ServingVariables, one per eligible cache, is at most 1. *)
Definition assign_for (endpoints : list Endpoint) (m : Model) (c : Constr) (r : Request)
  : Prop :=
  exists ys,
    c = mkConstr (ExprLeConst (quicksum ys) 1) (assign_ (req_id r)) /\
    Forall2 (fun y it => vars m !! y = Some (serving_decl endpoints r it))
            ys (eligible_of endpoints r).

(** The names of the variables of a model in creation order: going through
    the (request, eligible cache) pairs, the name of a PlacementVariable
    where the (video, cache) pair is met for the first time, then the name
    of the ServingVariable. *)
Fixpoint var_names (seen : list (Z * Z)) (E : list (Request * (Z * Z))) : list name :=
  match E with
  | [] => []
  | e :: E' =>
      let p := (req_video e.1, e.2.1) in
      (if decide (p ∈ seen) then [] else [x_ p.1 p.2]) ++
      y_ (req_id e.1) e.2.1 :: var_names (p :: seen) E'
  end.

(** The names of the constraints of the request loop in creation order: for
    each request its link constraints, then its assignment constraint if it
    has a link constraint. *)
Definition constr_names (endpoints : list Endpoint) (requests : list Request)
  : list name :=
  flat_map (fun r =>
              (link_ (req_id r) <$> keys (eligible_of endpoints r)) ++
              (if decide (eligible_of endpoints r = []) then []
               else [assign_ (req_id r)]))
           requests.

(** ** Invariants of the construction loops *)

(** Later states only add variables and dictionary entries. *)
Definition ext (st st' : BuildState) : Prop :=
  (exists delta, vars (bs_model st') = vars (bs_model st) ++ delta) /\
  (forall p i, dict_get (bs_x st) p = Some i -> dict_get (bs_x st') p = Some i).

(** What holds of the three mutable objects between iterations. *)
Record build_inv (video_sizes : list Z) (C : Z) (st : BuildState) : Prop := {
  inv_nodup : NoDup (keys (bs_x st));
  inv_x_var : forall p i, dict_get (bs_x st) p = Some i ->
                vars (bs_model st) !! i = Some (placement_decl p);
  inv_pvars : placement_vars (bs_model st) = placement_decl <$> keys (bs_x st);
  inv_keys : forall p, p ∈ keys (bs_x st) ->
               0 <= p.2 < C /\ is_ok (py_index video_sizes p.1) = true;
  inv_cap : forall c, bs_capacity st !! c =
              if decide (0 <= c < C) then Some (cap_terms video_sizes (bs_x st) c)
              else None
}.

(** What processing the (request, eligible cache) pairs [E], and closing the
    requests [A] that have at least one of them, adds to the state. *)
Record delta (endpoints : list Endpoint) (st st' : BuildState)
    (E : list (Request * (Z * Z))) (A : list Request) : Prop := {
  d_ext : ext st st';
  d_serving :
    serving_vars (bs_model st') =
    serving_vars (bs_model st) ++ ((fun e => serving_decl endpoints e.1 e.2) <$> E);
  d_links : exists added,
    filter is_link (constrs (bs_model st')) =
      filter is_link (constrs (bs_model st)) ++ added /\
    Forall2 (link_for endpoints (bs_model st') (bs_x st')) added E;
  d_assigns : exists added,
    filter is_assign (constrs (bs_model st')) =
      filter is_assign (constrs (bs_model st)) ++ added /\
    Forall2 (assign_for endpoints (bs_model st')) added A;
  d_caps :
    filter is_cap (constrs (bs_model st')) = filter is_cap (constrs (bs_model st));
  d_keys : forall p, p ∈ keys (bs_x st') ->
    p ∈ keys (bs_x st) \/ p ∈ ((fun e => (req_video e.1, e.2.1)) <$> E);
  d_order :
    keys (bs_x st') =
    keys (bs_x st) ++
    filter (fun p => p ∉ keys (bs_x st))
           (first_occurrences ((fun e => (req_video e.1, e.2.1)) <$> E))
}.

(** * Properties *)

(** ** Worked examples *)

Example lire_instance_example :
  lire_instance [["1"; "1"; "1"; "1"; "10"]; ["5"]; ["100"; "1"]; ["0"; "10"];
                 ["0"; "0"; "3"]]
  = Ok (mkInstance 1 1 1 1 10 [5] [mkEndpoint 100 [(0, 10)]] [mkRequest 0 0 0 3]).
Proof. reflexivity. Qed.

Example str_example : str 42 = "42" /\ str (-7) = "-7" /\ str 0 = "0".
Proof. repeat split; reflexivity. Qed.

Example py_int_example :
  py_int "-12" = Ok (-12) /\ py_int "1_000" = Ok 1000 /\ py_int "+7" = Ok 7
  /\ is_value_error (py_int "1__0") = true /\ is_value_error (py_int "x") = true
  /\ is_value_error (py_int "") = true /\ is_value_error (py_int "3_") = true.
Proof. repeat split; reflexivity. Qed.

Example py_int_limit_example :
  is_ok (py_int (string_of_list_ascii (repeat "1"%char 4300))) = true /\
  py_int (string_of_list_ascii (repeat "1"%char 4301)) =
    Raise (ValueError "Exceeds the limit (4300 digits) for integer string conversion") /\
  py_int (string_of_list_ascii (repeat "0"%char 4301)) =
    Raise (ValueError "Exceeds the limit (4300 digits) for integer string conversion") /\
  py_int (string_of_list_ascii (repeat "1"%char 4301 ++ ["x"%char])) =
    Raise (ValueError "Exceeds the limit (4300 digits) for integer string conversion") /\
  py_int (string_of_list_ascii (repeat "1"%char 4301 ++ ["_"%char])) =
    Raise (ValueError "invalid literal for int() with base 10") /\
  py_int "12x" = Raise (ValueError "invalid literal for int() with base 10").
Proof. repeat split; vm_compute; reflexivity. Qed.

Example py_index_example :
  py_index [10; 20; 30] (-1) = Ok 30 /\ py_index [10; 20; 30] 3 = Raise IndexError
  /\ py_index [10; 20; 30] (-4) = Raise IndexError /\ py_index [10; 20; 30] 0 = Ok 10.
Proof. repeat split; reflexivity. Qed.

Example build_example_eligible :
  build (example_instance 10)
  = Ok ({| vars := [mkVar BINARY 0 (x_ 0 0); mkVar BINARY 270 (y_ 0 0)];
           constrs := [mkConstr (VarLeVar 1%nat 0%nat) (link_ 0 0);
                       mkConstr (ExprLeConst [(1, 1%nat)] 1) (assign_ 0);
                       mkConstr (ExprLeConst [(5, 0%nat)] 10) (cap_cache_ 0)];
           ModelSense := MAXIMIZE; LogToConsole := 1;
           MIPGap := 0x1.47ae147ae147bp-8%float |},
        [((0, 0), 0%nat)]).
Proof. vm_compute. reflexivity. Qed.

Example build_example_pruned :
  build (example_instance 150)
  = Ok ({| vars := []; constrs := []; ModelSense := MAXIMIZE; LogToConsole := 1;
           MIPGap := 0x1.47ae147ae147bp-8%float |}, []).
Proof. vm_compute. reflexivity. Qed.

Example main_example_eligible :
  run_io (main (example_world "10") ["videos.py"; "me.in"])
  = ([EnvCreate; ModelCreate; ModelWrite "videos.mps"; Optimize;
      FileWrite "videos.out" "1
0 0
"; ModelDispose; EnvDispose], Ok 0).
Proof. vm_compute. reflexivity. Qed.

Example main_example_pruned :
  run_io (main (example_world "150") ["videos.py"; "me.in"])
  = ([EnvCreate; ModelCreate; ModelWrite "videos.mps"; Optimize;
      FileWrite "videos.out" "0
"; ModelDispose; EnvDispose], Ok 0).
Proof. vm_compute. reflexivity. Qed.


(** ** Loops that may raise *)

Section foldM_lemmas.
Context {A B : Type} (f : A -> B -> res A).

Lemma foldM_app l1 l2 a :
  foldM f a (l1 ++ l2) = a' ← foldM f a l1; foldM f a' l2.
Proof.
  revert a. induction l1 as [|b l1 IH]; intros a; simpl; [done|].
  destruct (f a b) as [a1|e]; simpl; [apply IH | done].
Qed.

(** An invariant of the loop body is an invariant of the loop. *)
Lemma foldM_inv (I : A -> Prop) l :
  (forall a b a', b ∈ l -> I a -> f a b = Ok a' -> I a') ->
  forall a a', I a -> foldM f a l = Ok a' -> I a'.
Proof.
  induction l as [|b l IH]; intros Hstep a a' Ha Hf; simpl in Hf.
  - by simplify_eq.
  - destruct (f a b) as [a1|e] eqn:Hb; simpl in Hf; [|done].
    apply (IH (fun a0 b0 a0' Hin => Hstep a0 b0 a0' (list_elem_of_further _ _ _ Hin))
             a1 a'); [|exact Hf].
    apply (Hstep a b a1); [by left|exact Ha|exact Hb].
Qed.

(** A loop raises only what its body raises. *)
Lemma foldM_raise (P : exn -> Prop) l :
  (forall a b e, b ∈ l -> f a b = Raise e -> P e) ->
  forall a e, foldM f a l = Raise e -> P e.
Proof.
  induction l as [|b l IH]; intros Hstep a e Hf; simpl in Hf; [done|].
  destruct (f a b) as [a1|e1] eqn:Hb; simpl in Hf.
  - apply (IH (fun a0 b0 e0 Hin => Hstep a0 b0 e0 (list_elem_of_further _ _ _ Hin))
             a1 e Hf).
  - simplify_eq. apply (Hstep a b e); [by left|exact Hb].
Qed.

(** A loop whose body cannot raise under the invariant does not raise. *)
Lemma foldM_total (I : A -> Prop) l :
  (forall a b, b ∈ l -> I a -> exists a', f a b = Ok a' /\ I a') ->
  forall a, I a -> exists a', foldM f a l = Ok a' /\ I a'.
Proof.
  induction l as [|b l IH]; intros Hstep a Ha; simpl.
  - by exists a.
  - destruct (Hstep a b) as (a1 & Hb & Ha1); [by left|done|].
    rewrite Hb. simpl.
    apply (IH (fun a0 b0 Hin => Hstep a0 b0 (list_elem_of_further _ _ _ Hin)) a1 Ha1).
Qed.

(** What the loop appends to an observed list, when each iteration
    appends entries related to the item it handles, and the relation
    survives later iterations. *)
Lemma foldM_rel {C D} (I : A -> Prop) (g : A -> list C) (h : B -> list D)
    (R : A -> C -> D -> Prop) l :
  (forall a b a', b ∈ l -> I a -> f a b = Ok a' ->
     I a' /\ (forall c d, R a c d -> R a' c d) /\
     exists delta, g a' = g a ++ delta /\ Forall2 (R a') delta (h b)) ->
  forall a a', I a -> foldM f a l = Ok a' ->
     I a' /\ (forall c d, R a c d -> R a' c d) /\
     exists delta, g a' = g a ++ delta /\ Forall2 (R a') delta (flat_map h l).
Proof.
  induction l as [|b l IH]; intros Hstep a a' Ha Hf; simpl in Hf.
  - simplify_eq. split; [done|]. split; [done|].
    exists []. split; [by rewrite app_nil_r|constructor].
  - destruct (f a b) as [a1|e] eqn:Hb; simpl in Hf; [|done].
    destruct (Hstep a b a1) as (Ha1 & Hm1 & d1 & Hg1 & HR1); [by left|done..|].
    destruct (IH (fun a0 b0 a0' Hin => Hstep a0 b0 a0' (list_elem_of_further _ _ _ Hin))
                a1 a' Ha1 Hf) as (Ha' & Hm2 & d2 & Hg2 & HR2).
    split; [done|]. split; [by auto|].
    exists (d1 ++ d2). split.
    + by rewrite Hg2, Hg1, app_assoc.
    + simpl. apply Forall2_app; [|done].
      eapply Forall2_impl; [exact HR1|]. by auto.
Qed.

(** The same with entries that are a function of the item alone. *)
Lemma foldM_proj {C} (I : A -> Prop) (g : A -> list C) (h : B -> list C) l :
  (forall a b a', b ∈ l -> I a -> f a b = Ok a' -> I a' /\ g a' = g a ++ h b) ->
  forall a a', I a -> foldM f a l = Ok a' -> I a' /\ g a' = g a ++ flat_map h l.
Proof.
  induction l as [|b l IH]; intros Hstep a a' Ha Hf; simpl in Hf.
  - simplify_eq. by rewrite app_nil_r.
  - destruct (f a b) as [a1|e] eqn:Hb; simpl in Hf; [|done].
    destruct (Hstep a b a1) as (Ha1 & Hg1); [by left|done..|].
    destruct (IH (fun a0 b0 a0' Hin => Hstep a0 b0 a0' (list_elem_of_further _ _ _ Hin))
                a1 a' Ha1 Hf) as (Ha' & Hg2).
    split; [done|]. simpl. by rewrite Hg2, Hg1, app_assoc.
Qed.
End foldM_lemmas.

(** ** Dictionaries *)

Section dict_lemmas.
Context {K V : Type} `{EqDecision K}.
Implicit Types (d : dict K V) (k : K) (v : V).

Lemma dict_get_None d k : dict_get d k = None <-> k ∉ keys d.
Proof.
  induction d as [|[k' v'] d IH]; simpl.
  - split; [intros _; apply not_elem_of_nil | done].
  - rewrite not_elem_of_cons. destruct (decide (k = k')) as [->|Hne].
    + split; [done | by intros [? _]].
    + rewrite IH. split; [by intros ?; split | by intros [_ ?]].
Qed.

Lemma dict_get_Some_elem d k v : dict_get d k = Some v -> (k, v) ∈ d.
Proof.
  induction d as [|[k' v'] d IH]; simpl; [done|].
  destruct (decide (k = k')) as [->|Hne]; intros H.
  - simplify_eq. by left.
  - right. by apply IH.
Qed.

Lemma dict_get_Some_key d k v : dict_get d k = Some v -> k ∈ keys d.
Proof.
  intros H. apply dict_get_Some_elem in H.
  unfold keys. apply list_elem_of_fmap. by exists (k, v).
Qed.

Lemma dict_get_elem d k v : NoDup (keys d) -> (k, v) ∈ d -> dict_get d k = Some v.
Proof.
  induction d as [|[k' v'] d IH]; simpl; intros Hnd Hin.
  - by apply elem_of_nil in Hin.
  - apply NoDup_cons in Hnd as [Hk' Hnd].
    apply elem_of_cons in Hin as [Heq|Hin].
    + simplify_eq. by rewrite decide_True.
    + destruct (decide (k = k')) as [->|Hne]; [|by apply IH].
      exfalso. apply Hk'. apply list_elem_of_fmap. by exists (k', v).
Qed.

Lemma dict_get_app_l d d' k v :
  dict_get d k = Some v -> dict_get (d ++ d') k = Some v.
Proof.
  induction d as [|[k' v'] d IH]; simpl; [done|].
  destruct (decide (k = k')); [done | apply IH].
Qed.

Lemma dict_get_app_r d d' k :
  dict_get d k = None -> dict_get (d ++ d') k = dict_get d' k.
Proof.
  induction d as [|[k' v'] d IH]; simpl; [done|].
  destruct (decide (k = k')); [done | apply IH].
Qed.

Lemma dict_set_fresh d k v : dict_get d k = None -> dict_set d k v = d ++ [(k, v)].
Proof.
  induction d as [|[k' v'] d IH]; simpl; [done|].
  destruct (decide (k = k')); [done|]. intros H. by rewrite IH.
Qed.

Lemma dict_get_set d k v k' :
  dict_get (dict_set d k v) k' = if decide (k' = k) then Some v else dict_get d k'.
Proof.
  induction d as [|[k0 v0] d IH]; simpl.
  - by destruct (decide (k' = k)).
  - destruct (decide (k = k0)) as [->|Hne]; simpl.
    + by destruct (decide (k' = k0)).
    + destruct (decide (k' = k0)) as [->|Hne'].
      * by rewrite decide_False.
      * apply IH.
Qed.

Lemma keys_dict_set_present d k v : k ∈ keys d -> keys (dict_set d k v) = keys d.
Proof.
  induction d as [|[k0 v0] d IH]; simpl; intros Hin.
  - by apply elem_of_nil in Hin.
  - destruct (decide (k = k0)) as [->|Hne]; simpl; [done|].
    apply elem_of_cons in Hin as [?|Hin]; [done|].
    unfold keys in *. simpl. f_equal. by apply IH.
Qed.

Lemma keys_app d d' : keys (d ++ d') = keys d ++ keys d'.
Proof. unfold keys. apply fmap_app. Qed.
End dict_lemmas.

(** ** Model building: what each loop adds *)

Lemma foldM_cons {A B} (f : A -> B -> res A) a b l :
  foldM f a (b :: l) = a' ← f a b; foldM f a' l.
Proof. done. Qed.

Lemma bind_Ok_inv {A B} (m : res A) (k : A -> res B) b :
  m ≫= k = Ok b -> exists a, m = Ok a /\ k a = Ok b.
Proof. destruct m as [a|e]; simpl; [by exists a | done]. Qed.
Lemma cache_iter_skip sizes r ldv st ys cid lc :
  ldv <= lc -> cache_iter sizes r ldv (st, ys) (cid, lc) = Ok (st, ys).
Proof.
  intros H. destruct st as [m x cap]. unfold cache_iter.
  rewrite Z.geb_leb. by rewrite (proj2 (Z.leb_le _ _) H).
Qed.

Lemma cache_iter_inv sizes r ldv m x cap ys cid lc st' ys' :
  lc < ldv ->
  cache_iter sizes r ldv (mkBuildState m x cap, ys) (cid, lc) = Ok (st', ys') ->
  exists m1 x1 cap1 xv,
    ((dict_get x (req_video r, cid) = Some xv /\ m1 = m /\ x1 = x /\ cap1 = cap) \/
     (dict_get x (req_video r, cid) = None /\ xv = length (vars m) /\
      m1 = (addVar m BINARY 0 (x_ (req_video r) cid)).2 /\
      x1 = x ++ [((req_video r, cid), xv)] /\
      exists expr size, cap !! cid = Some expr /\
        py_index sizes (req_video r) = Ok size /\
        cap1 = <[cid := expr ++ [(size, xv)]]> cap)) /\
    dict_get x1 (req_video r, cid) = Some xv /\
    st' = mkBuildState
            (addConstr (addVar m1 BINARY ((ldv - lc) * req_count r) (y_ (req_id r) cid)).2
                       (VarLeVar (length (vars m1)) xv) (link_ (req_id r) cid))
            x1 cap1 /\
    ys' = ys ++ [length (vars m1)].
Proof.
  intros Hlt. unfold cache_iter.
  rewrite Z.geb_leb. rewrite (proj2 (Z.leb_gt _ _) Hlt).
  unfold dict_mem, x_lookup.
  destruct (dict_get x (req_video r, cid)) as [xv|] eqn:Hx; simpl.
  - rewrite Hx. simpl. intros H. simplify_eq.
    exists m, x, cap, xv. split; [by left|]. done.
  - rewrite (dict_set_fresh _ _ _ Hx).
    destruct (cap !! cid) as [expr|] eqn:Hc; simpl; [|done].
    rewrite (dict_get_app_r _ _ _ Hx). simpl. rewrite decide_True by done. simpl.
    destruct (py_index sizes (req_video r)) as [size|] eqn:Hs; simpl; [|done].
    rewrite (dict_get_app_r _ _ _ Hx). simpl. rewrite decide_True by done. simpl.
    intros H. simplify_eq.
    eexists _, _, _, _. split; [right; repeat split; eauto|].
    split; [|done].
    rewrite (dict_get_app_r _ _ _ Hx). simpl. by rewrite decide_True.
Qed.
Lemma ext_refl st : ext st st.
Proof. split; [exists []; by rewrite app_nil_r | done]. Qed.

Lemma ext_trans a b c : ext a b -> ext b c -> ext a c.
Proof.
  intros [[d1 H1] K1] [[d2 H2] K2]. split.
  - exists (d1 ++ d2). by rewrite H2, H1, app_assoc.
  - by auto.
Qed.

Lemma ext_var a b i d :
  ext a b -> vars (bs_model a) !! i = Some d -> vars (bs_model b) !! i = Some d.
Proof. intros [[dl H] _] Hi. rewrite H. by apply lookup_app_l_Some. Qed.

Lemma link_for_ext eps a b c e :
  ext a b -> link_for eps (bs_model a) (bs_x a) c e ->
  link_for eps (bs_model b) (bs_x b) c e.
Proof.
  intros Hext (y & xv & -> & Hy & Hx). exists y, xv.
  split; [done|]. split; [by eapply ext_var | by apply Hext].
Qed.

Lemma assign_for_ext eps a b c r :
  ext a b -> assign_for eps (bs_model a) c r -> assign_for eps (bs_model b) c r.
Proof.
  intros Hext (ys & -> & Hys). exists ys. split; [done|].
  eapply Forall2_impl; [exact Hys|]. intros y it Hy. by eapply ext_var.
Qed.

Lemma elem_of_first_occurrences l p : p ∈ first_occurrences l <-> p ∈ l.
Proof.
  induction l as [|q l IH]; simpl; [done|].
  rewrite !elem_of_cons, list_elem_of_filter, IH.
  destruct (decide (p = q)) as [->|Hne]; [by split; left|].
  split; [intros [?|[_ ?]]; by auto | intros [?|?]; by auto].
Qed.

Lemma filter_all_prop {A} (P : A -> Prop) `{forall a, Decision (P a)} (l : list A) :
  (forall a, a ∈ l -> P a) -> filter P l = l.
Proof.
  induction l as [|a l IH]; intros Hl; [done|].
  rewrite filter_cons_True by (apply Hl; by left).
  f_equal. apply IH. intros ??. apply Hl. by right.
Qed.

Lemma first_occurrences_app l1 l2 :
  first_occurrences (l1 ++ l2) =
  first_occurrences l1 ++ filter (fun q => q ∉ l1) (first_occurrences l2).
Proof.
  induction l1 as [|p l1 IH]; simpl.
  - symmetry. apply filter_all_prop. intros q _. apply not_elem_of_nil.
  - f_equal. rewrite IH, filter_app. f_equal.
    rewrite list_filter_filter. apply list_filter_iff.
    intros q. rewrite not_elem_of_cons. by split; intros [? ?].
Qed.

(** The keys added over two consecutive stretches of the construction. *)
Lemma key_order_trans (k0 : list (Z * Z)) l1 l2 :
  (k0 ++ filter (fun p => p ∉ k0) (first_occurrences l1)) ++
  filter (fun p => p ∉ k0 ++ filter (fun p => p ∉ k0) (first_occurrences l1))
         (first_occurrences l2) =
  k0 ++ filter (fun p => p ∉ k0) (first_occurrences (l1 ++ l2)).
Proof.
  rewrite <- app_assoc. f_equal.
  rewrite first_occurrences_app, filter_app. f_equal.
  rewrite list_filter_filter. apply list_filter_iff. intros q.
  rewrite not_elem_of_app, list_elem_of_filter, elem_of_first_occurrences.
  split; [intros [? Hq]; split; [done|]; intros Hin; apply Hq; by split
         |intros [? ?]; split; [done|]; by intros [_ ?]].
Qed.

Lemma delta_refl eps st : delta eps st st [] [].
Proof.
  split.
  - apply ext_refl.
  - simpl. by rewrite app_nil_r.
  - exists []. split; [by rewrite app_nil_r | constructor].
  - exists []. split; [by rewrite app_nil_r | constructor].
  - done.
  - by left.
  - simpl. by rewrite app_nil_r.
Qed.

Lemma delta_trans eps a b c E1 A1 E2 A2 :
  delta eps a b E1 A1 -> delta eps b c E2 A2 -> delta eps a c (E1 ++ E2) (A1 ++ A2).
Proof.
  intros [Hx1 Hs1 (l1 & Hl1 & Hf1) (a1 & Ha1 & Hg1) Hc1 Hk1 Ho1]
         [Hx2 Hs2 (l2 & Hl2 & Hf2) (a2 & Ha2 & Hg2) Hc2 Hk2 Ho2].
  split.
  - by eapply ext_trans.
  - by rewrite Hs2, Hs1, fmap_app, app_assoc.
  - exists (l1 ++ l2). split; [by rewrite Hl2, Hl1, app_assoc|].
    apply Forall2_app; [|done].
    eapply Forall2_impl; [exact Hf1|]. intros ??. by apply link_for_ext.
  - exists (a1 ++ a2). split; [by rewrite Ha2, Ha1, app_assoc|].
    apply Forall2_app; [|done].
    eapply Forall2_impl; [exact Hg1|]. intros ??. by apply assign_for_ext.
  - by rewrite Hc2.
  - intros p Hp. rewrite fmap_app, elem_of_app.
    destruct (Hk2 p Hp) as [Hb|?]; [|by auto].
    destruct (Hk1 p Hb); by auto.
  - rewrite Ho2, Ho1, fmap_app. apply key_order_trans.
Qed.
Lemma serving_decl_eq eps r ep it :
  endpoint_of eps r = Some ep ->
  serving_decl eps r it = mkVar BINARY ((ld ep - it.2) * req_count r) (y_ (req_id r) it.1).
Proof. intros H. unfold serving_decl, ld_of. by rewrite H. Qed.

Lemma cache_iter_delta eps sizes r ep st ys it st' ys' :
  endpoint_of eps r = Some ep ->
  cache_iter sizes r (ld ep) (st, ys) it = Ok (st', ys') ->
  let hs := if decide (it.2 < ld ep) then [it] else [] in
  delta eps st st' ((fun i => (r, i)) <$> hs) [] /\
  exists added, ys' = ys ++ added /\
    Forall2 (fun y i => vars (bs_model st') !! y = Some (serving_decl eps r i)) added hs.
Proof.
  intros Hep H. destruct it as [cid lc]. simpl.
  destruct (decide (lc < ld ep)) as [Hlt|Hge].
  - destruct st as [m x cap].
    apply cache_iter_inv in H as (m1 & x1 & cap1 & xv & Hcase & Hxv & -> & ->); [|done].
    pose proof (serving_decl_eq eps r ep (cid, lc) Hep) as Hsd. simpl in Hsd.
    assert (exists dv, vars m1 = vars m ++ dv /\ filter is_y dv = [] /\
              constrs m1 = constrs m /\
              (forall p i, dict_get x p = Some i -> dict_get x1 p = Some i) /\
              (forall p, p ∈ keys x1 -> p ∈ keys x \/ p = (req_video r, cid)) /\
              keys x1 = keys x ++ filter (fun p => p ∉ keys x) [(req_video r, cid)])
      as (dv & Hv & Hdv & Hcs & Hmono & Hkeys & Horder).
    { destruct Hcase as [(Hsome & -> & -> & _)|(Hnone & -> & -> & -> & _)].
      - exists []. rewrite app_nil_r. repeat split; auto.
        rewrite filter_cons, decide_False, app_nil_r; [done|].
        intros Hn. apply Hn. by eapply dict_get_Some_key.
      - exists [mkVar BINARY 0 (x_ (req_video r) cid)]. repeat split; auto.
        + intros p i Hp. by apply dict_get_app_l.
        + intros p. rewrite keys_app, elem_of_app. simpl.
          rewrite list_elem_of_singleton. auto.
        + rewrite keys_app, filter_cons, decide_True by (by apply dict_get_None).
          done. }
    split; [split|]; simpl.
    + split; simpl; [|done].
      exists (dv ++ [mkVar BINARY ((ld ep - lc) * req_count r) (y_ (req_id r) cid)]).
      by rewrite Hv, app_assoc.
    + unfold serving_vars. simpl. rewrite Hv, !filter_app, Hdv, app_nil_r.
      by rewrite Hsd.
    + eexists [_]. rewrite Hcs, filter_app. split; [done|].
      constructor; [|constructor].
      exists (length (vars m1)), xv. simpl. split; [done|]. split; [|done].
      rewrite Hsd. by rewrite lookup_app_r, Nat.sub_diag.
    + exists []. rewrite Hcs, filter_app. simpl. split; [done|constructor].
    + by rewrite Hcs, filter_app, app_nil_r.
    + intros p Hp. destruct (Hkeys p Hp) as [?| ->]; [by left|right].
      apply list_elem_of_singleton. done.
    + exact Horder.
    + eexists [_]. split; [done|]. constructor; [|constructor].
      simpl. rewrite Hsd. by rewrite lookup_app_r, Nat.sub_diag.
  - rewrite cache_iter_skip in H by lia. simplify_eq.
    split; [apply delta_refl|]. exists []. split; [by rewrite app_nil_r|constructor].
Qed.
Lemma inner_loop_delta eps sizes r ep items : forall st ys st' ys',
  endpoint_of eps r = Some ep ->
  foldM (cache_iter sizes r (ld ep)) (st, ys) items = Ok (st', ys') ->
  delta eps st st' ((fun i => (r, i)) <$> filter (fun it => it.2 < ld ep) items) [] /\
  exists added, ys' = ys ++ added /\
    Forall2 (fun y i => vars (bs_model st') !! y = Some (serving_decl eps r i))
            added (filter (fun it => it.2 < ld ep) items).
Proof.
  induction items as [|it items IH]; intros st ys st' ys' Hep H.
  - simpl in H. simplify_eq. split; [apply delta_refl|].
    exists []. split; [by rewrite app_nil_r|constructor].
  - rewrite foldM_cons in H.
    apply bind_Ok_inv in H as ([st1 ys1] & Hit & H).
    apply (cache_iter_delta eps) in Hit as (Hd1 & a1 & -> & Hf1); [|done].
    apply IH in H as (Hd2 & a2 & -> & Hf2); [|done].
    assert (filter (fun it0 : Z * Z => it0.2 < ld ep) (it :: items) =
            (if decide (it.2 < ld ep) then [it] else []) ++
            filter (fun it0 : Z * Z => it0.2 < ld ep) items) as ->.
    { rewrite filter_cons. by destruct (decide (it.2 < ld ep)). }
    split.
    + rewrite fmap_app. change (@nil Request) with (@nil Request ++ []).
      by eapply delta_trans.
    + exists (a1 ++ a2). split; [by rewrite app_assoc|].
      apply Forall2_app; [|done].
      eapply Forall2_impl; [exact Hf1|]. intros y i Hy. simpl in Hy.
      eapply ext_var; [|exact Hy]. apply Hd2.
Qed.

Lemma request_iter_delta eps sizes st r st' :
  request_iter sizes eps st r = Ok st' ->
  delta eps st st' ((fun i => (r, i)) <$> eligible_of eps r)
        (if decide (eligible_of eps r = []) then [] else [r]).
Proof.
  unfold request_iter. intros H.
  apply bind_Ok_inv in H as (ep & Hpi & H).
  assert (endpoint_of eps r = Some ep) as Hep by (unfold endpoint_of; by rewrite Hpi).
  assert (eligible_of eps r = filter (fun it => it.2 < ld ep) (caches ep)) as Hel.
  { unfold eligible_of. by rewrite Hep. }
  apply bind_Ok_inv in H as ([st1 ys] & Hin & H).
  apply (inner_loop_delta eps) in Hin as (Hd & added & Hys & Hf); [|done].
  simpl in Hys. subst added. rewrite <- Hel in Hd, Hf.
  destruct ys as [|y ys].
  - simplify_eq. apply Forall2_nil_inv_l in Hf. rewrite Hf in *.
    by rewrite decide_True.
  - simplify_eq. rewrite decide_False by (intros Hnil; rewrite Hnil in Hf; inversion Hf).
    rewrite <- (app_nil_r (_ <$> eligible_of eps r)).
    apply (delta_trans eps st st1 _ _ [] [] [r]); [exact Hd|].
    split; simpl.
    + split; simpl; [exists []; by rewrite app_nil_r | done].
    + by rewrite app_nil_r.
    + exists []. rewrite filter_app. simpl. split; [done|constructor].
    + eexists [_]. rewrite filter_app. split; [done|].
      constructor; [|constructor]. by exists (y :: ys).
    + by rewrite filter_app, app_nil_r.
    + by left.
    + by rewrite app_nil_r.
Qed.

Lemma process_delta eps sizes rs : forall st st',
  foldM (request_iter sizes eps) st rs = Ok st' ->
  delta eps st st' (eligible_pairs eps rs)
        (filter (fun r => eligible_of eps r <> []) rs).
Proof.
  induction rs as [|r rs IH]; intros st st' H.
  - simpl in H. simplify_eq. apply delta_refl.
  - rewrite foldM_cons in H. apply bind_Ok_inv in H as (st1 & Hr & H).
    apply request_iter_delta in Hr. apply IH in H.
    unfold eligible_pairs. simpl. rewrite filter_cons.
    destruct (decide (eligible_of eps r = [])) as [Hnil|Hne].
    + rewrite decide_False by (by intros ?).
      change (filter _ rs) with ([] ++ filter (fun r => eligible_of eps r <> []) rs).
      by eapply delta_trans.
    + rewrite decide_True by done.
      change (r :: filter _ rs) with ([r] ++ filter (fun r => eligible_of eps r <> []) rs).
      by eapply delta_trans.
Qed.
Lemma elem_of_range c n : c ∈ range n <-> 0 <= c < n.
Proof.
  unfold range. rewrite list_elem_of_fmap. split.
  - intros (k & -> & Hk). apply elem_of_seq in Hk. lia.
  - intros H. exists (Z.to_nat c). split; [lia|]. apply elem_of_seq. lia.
Qed.

Lemma NoDup_range n : NoDup (range n).
Proof.
  unfold range. apply NoDup_fmap_2; [|apply NoDup_seq].
  intros ???. lia.
Qed.

Lemma init_capacity_lookup C c :
  init_capacity C !! c = if decide (0 <= c < C) then Some [] else None.
Proof.
  unfold init_capacity. destruct (decide (0 <= c < C)) as [Hc|Hc].
  - apply elem_of_list_to_map.
    + rewrite <- list_fmap_compose. simpl. rewrite list_fmap_id. apply NoDup_range.
    + apply list_elem_of_fmap. exists c. split; [done|]. by apply elem_of_range.
  - apply not_elem_of_list_to_map.
    rewrite <- list_fmap_compose. simpl. rewrite list_fmap_id.
    by rewrite elem_of_range.
Qed.

Lemma cap_terms_snoc sizes x v c0 i c :
  cap_terms sizes (x ++ [((v, c0), i)]) c =
  cap_terms sizes x c ++ (if decide (c0 = c) then [(size_of sizes v, i)] else []).
Proof.
  unfold cap_terms. rewrite filter_app, fmap_app. f_equal.
  rewrite filter_cons. simpl. by destruct (decide (c0 = c)).
Qed.

Lemma init_inv sizes C : build_inv sizes C (init_state C).
Proof.
  split; simpl.
  - constructor.
  - done.
  - done.
  - intros p Hp. by apply elem_of_nil in Hp.
  - intros c. rewrite init_capacity_lookup. by destruct (decide _).
Qed.

Lemma cache_iter_inv_pres sizes C r ldv st ys it st' ys' :
  build_inv sizes C st ->
  cache_iter sizes r ldv (st, ys) it = Ok (st', ys') ->
  build_inv sizes C st'.
Proof.
  intros Hinv H. destruct it as [cid lc].
  destruct (decide (lc < ldv)) as [Hlt|Hge];
    [|rewrite cache_iter_skip in H by lia; by simplify_eq].
  destruct st as [m x cap]. destruct Hinv as [Hnd Hxv Hpv Hk Hcap].
  cbn [bs_x bs_model bs_capacity] in *.
  apply cache_iter_inv in H as (m1 & x1 & cap1 & xv & Hcase & Hget & -> & ->); [|done].
  destruct Hcase as [(Hx & -> & -> & ->)|(Hnone & -> & -> & -> & expr & size & He & Hs & ->)].
  - split; simpl; try done.
    + intros p i Hp. apply lookup_app_l_Some. by apply Hxv.
    + unfold placement_vars in *. simpl. rewrite filter_app, Hpv. simpl.
      by rewrite app_nil_r.
  - assert (0 <= cid < C /\ expr = cap_terms sizes x cid) as [Hcid ->].
    { specialize (Hcap cid). rewrite He in Hcap.
      destruct (decide (0 <= cid < C)); by simplify_eq. }
    split; simpl.
    + rewrite keys_app. simpl. apply NoDup_app. split; [done|].
      split; [|apply NoDup_singleton].
      intros p Hp Hp'. apply list_elem_of_singleton in Hp'. subst p.
      by apply dict_get_None in Hnone.
    + intros p i Hp. destruct (dict_get x p) as [j|] eqn:Hxp.
      * rewrite (dict_get_app_l _ _ _ _ Hxp) in Hp. simplify_eq.
        rewrite <- app_assoc. apply lookup_app_l_Some. by apply Hxv.
      * rewrite (dict_get_app_r _ _ _ Hxp) in Hp. simpl in Hp.
        destruct (decide (p = (req_video r, cid))) as [->|]; [|done]. simplify_eq.
        rewrite <- app_assoc. by rewrite lookup_app_r, Nat.sub_diag.
    + unfold placement_vars in *. simpl. rewrite !filter_app, Hpv, keys_app, fmap_app.
      simpl. by rewrite app_nil_r.
    + intros p. rewrite keys_app, elem_of_app. simpl. rewrite list_elem_of_singleton.
      intros [Hp| ->]; [by apply Hk|]. simpl. split; [done|]. by rewrite Hs.
    + intros c. rewrite cap_terms_snoc. destruct (decide (cid = c)) as [->|Hne].
      * rewrite lookup_insert_eq. rewrite decide_True by done.
        unfold LinExpr_add, size_of. by rewrite Hs.
      * rewrite lookup_insert_ne by done. rewrite Hcap. by rewrite app_nil_r.
Qed.

Lemma request_iter_inv_pres sizes C eps st r st' :
  build_inv sizes C st -> request_iter sizes eps st r = Ok st' -> build_inv sizes C st'.
Proof.
  unfold request_iter. intros Hinv H.
  apply bind_Ok_inv in H as (ep & Hpi & H).
  apply bind_Ok_inv in H as ([st1 ys] & Hin & H).
  assert (build_inv sizes C st1) as Hinv1.
  { change st1 with (st1, ys).1.
    apply (foldM_inv (cache_iter sizes r (ld ep)) (fun s => build_inv sizes C s.1)
             (caches ep)) with (st, []); [|exact Hinv|exact Hin].
    intros [a ya] b [a' ya'] _ Ha Hb. cbn [fst] in *. by eapply cache_iter_inv_pres. }
  destruct ys; simplify_eq; [done|].
  destruct Hinv1. by split.
Qed.

Lemma process_inv sizes C eps rs st st' :
  build_inv sizes C st ->
  foldM (request_iter sizes eps) st rs = Ok st' -> build_inv sizes C st'.
Proof.
  intros Hinv H. apply (foldM_inv (request_iter sizes eps) (build_inv sizes C) rs) with st;
    [|exact Hinv|exact H].
  intros a b a' _ Ha Hb. by eapply request_iter_inv_pres.
Qed.
Lemma flat_map_if_filter {A B} (P : A -> Prop) `{forall a, Decision (P a)}
    (f : A -> B) (l : list A) :
  flat_map (fun a => if decide (P a) then [f a] else []) l = f <$> filter P l.
Proof.
  induction l as [|a l IH]; simpl; [done|].
  rewrite filter_cons. destruct (decide (P a)); simpl; by rewrite IH.
Qed.

Lemma elem_of_eligible_pairs eps rs r it :
  (r, it) ∈ eligible_pairs eps rs <->
  r ∈ rs /\ exists ep, py_index eps (req_endpoint r) = Ok ep /\
                       it ∈ caches ep /\ it.2 < ld ep.
Proof.
  unfold eligible_pairs. rewrite list_elem_of_In, in_flat_map.
  setoid_rewrite <- list_elem_of_In. setoid_rewrite list_elem_of_fmap.
  unfold eligible_of, endpoint_of, eligible_caches. split.
  - intros (r' & Hr & it' & Heq & Hit). simplify_eq. split; [done|].
    destruct (py_index eps (req_endpoint r')) as [ep|]; simpl in Hit.
    + exists ep. apply list_elem_of_filter in Hit as [??]. done.
    + by apply elem_of_nil in Hit.
  - intros (Hr & ep & Hep & Hit & Hlt). exists r. split; [done|].
    exists it. split; [done|]. rewrite Hep. simpl.
    apply list_elem_of_filter. done.
Qed.

Lemma capacity_loop X cap sizes x C cs : forall m m',
  (forall c, 0 <= c < C -> cap !! c = Some (cap_terms sizes x c)) ->
  (forall c, c ∈ cs -> 0 <= c < C) ->
  foldM (capacity_iter X cap) m cs = Ok m' ->
  vars m' = vars m /\ ModelSense m' = ModelSense m /\
  constrs m' = constrs m ++
    ((fun c => mkConstr (ExprLeConst (cap_terms sizes x c) X) (cap_cache_ c)) <$>
     filter (fun c => cap_terms sizes x c <> []) cs).
Proof.
  induction cs as [|c cs IH]; intros m m' Hcap Hcs H.
  - simpl in H. simplify_eq. by rewrite app_nil_r.
  - rewrite foldM_cons in H. apply bind_Ok_inv in H as (m1 & Hc & H).
    apply IH in H as (Hv & Hs & Hk); [|done|intros; apply Hcs; by right].
    unfold capacity_iter in Hc. rewrite Hcap in Hc by (apply Hcs; by left).
    rewrite filter_cons. unfold LinExpr_size in Hc.
    destruct (cap_terms sizes x c) as [|t ts] eqn:Hct; simpl in Hc; simplify_eq.
    + rewrite decide_False by (by intros ?). done.
    + rewrite decide_True by done. rewrite Hv, Hs, Hk. simpl.
      split; [done|]. split; [done|]. by rewrite <- app_assoc, Hct.
Qed.

Lemma filter_caps_fmap (P : Constr -> bool) (f : Z -> TempConstr) (l : list Z) :
  (forall c, P (mkConstr (f c) (cap_cache_ c)) = false) ->
  filter P ((fun c => mkConstr (f c) (cap_cache_ c)) <$> l) = [].
Proof.
  intros HP. induction l as [|c l IH]; simpl; [done|].
  rewrite filter_cons, decide_False; [done|]. rewrite HP. by intros ?.
Qed.

(** What [build] returns, in terms of the state that the request loop
    reaches. *)
Lemma build_inv_spec inst m x :
  build inst = Ok (m, x) ->
  exists st,
    process_requests inst = Ok st /\
    build_inv (video_sizes inst) (inst_C inst) st /\
    delta (endpoints inst) (init_state (inst_C inst)) st
          (eligible_pairs (endpoints inst) (requests inst))
          (filter (fun r => eligible_of (endpoints inst) r <> []) (requests inst)) /\
    x = bs_x st /\ vars m = vars (bs_model st) /\ ModelSense m = MAXIMIZE /\
    constrs m = constrs (bs_model st) ++
      ((fun c => mkConstr (ExprLeConst (cap_terms (video_sizes inst) x c) (inst_X inst))
                          (cap_cache_ c)) <$>
       filter (fun c => cap_terms (video_sizes inst) x c <> []) (range (inst_C inst))).
Proof.
  unfold build. intros H.
  apply bind_Ok_inv in H as (st & Hst & H).
  apply bind_Ok_inv in H as (m1 & Hm1 & H). simplify_eq.
  assert (build_inv (video_sizes inst) (inst_C inst) st) as Hinv.
  { eapply process_inv; [apply init_inv|exact Hst]. }
  exists st. split; [done|]. split; [done|].
  split; [by eapply process_delta|]. split; [done|].
  eapply (capacity_loop _ _ (video_sizes inst) (bs_x st) (inst_C inst)) in Hm1
    as (Hv & Hs & Hk).
  - simpl. done.
  - intros c Hc. rewrite (inv_cap _ _ _ Hinv). by rewrite decide_True.
  - intros c. apply elem_of_range.
Qed.

(** ** Claims about model building *)

(** C4: when [build_model] returns, the objective sense is MAXIMIZE; the
    ServingVariables of the model are, in order, exactly one binary variable
    per request and reachable cache with [lc < ld], carrying the objective
    coefficient [(ld - lc) * n]; every ServingVariable and every
    PlacementVariable of the model stems from such a pair, so a pair with
    [lc >= ld] materializes neither. *)
Theorem serving_variables_iff_eligible inst m x :
  build inst = Ok (m, x) ->
  ModelSense m = MAXIMIZE /\
  serving_vars m =
    (fun e => serving_decl (endpoints inst) e.1 e.2) <$>
    eligible_pairs (endpoints inst) (requests inst) /\
  (forall r ep c lc,
     r ∈ requests inst -> py_index (endpoints inst) (req_endpoint r) = Ok ep ->
     (c, lc) ∈ caches ep -> lc < ld ep ->
     mkVar BINARY ((ld ep - lc) * req_count r) (y_ (req_id r) c) ∈ vars m) /\
  (forall d, d ∈ vars m -> is_y d ->
     exists r ep c lc,
       r ∈ requests inst /\ py_index (endpoints inst) (req_endpoint r) = Ok ep /\
       (c, lc) ∈ caches ep /\ lc < ld ep /\
       d = mkVar BINARY ((ld ep - lc) * req_count r) (y_ (req_id r) c)) /\
  (forall v c, (v, c) ∈ keys x ->
     exists r ep lc,
       r ∈ requests inst /\ py_index (endpoints inst) (req_endpoint r) = Ok ep /\
       (c, lc) ∈ caches ep /\ lc < ld ep /\ req_video r = v).
Proof.
  intros H.
  destruct (build_inv_spec _ _ _ H) as (st & _ & _ & Hd & -> & Hv & Hs & _).
  assert (serving_vars m =
          (fun e => serving_decl (endpoints inst) e.1 e.2) <$>
          eligible_pairs (endpoints inst) (requests inst)) as Hsv.
  { unfold serving_vars. rewrite Hv. apply (d_serving _ _ _ _ _ Hd). }
  split; [done|]. split; [done|]. split; [|split].
  - intros r ep c lc Hr Hep Hc Hlt.
    assert (mkVar BINARY ((ld ep - lc) * req_count r) (y_ (req_id r) c) ∈ serving_vars m)
      as Hin; [|by apply list_elem_of_filter in Hin as [_ ?]].
    rewrite Hsv. apply list_elem_of_fmap. exists (r, (c, lc)). split.
    + simpl. symmetry. apply (serving_decl_eq _ r ep (c, lc)).
      unfold endpoint_of. by rewrite Hep.
    + apply elem_of_eligible_pairs. split; [done|]. by exists ep.
  - intros d Hd1 Hd2.
    assert (d ∈ serving_vars m) as Hin by (by apply list_elem_of_filter).
    rewrite Hsv in Hin. apply list_elem_of_fmap in Hin as ([r [c lc]] & -> & Hin).
    apply elem_of_eligible_pairs in Hin as (Hr & ep & Hep & Hc & Hlt).
    exists r, ep, c, lc. repeat split; try done. simpl.
    apply (serving_decl_eq _ r ep (c, lc)). unfold endpoint_of. by rewrite Hep.
  - intros v c Hk. destruct (d_keys _ _ _ _ _ Hd _ Hk) as [Hk0|Hk0].
    + by apply elem_of_nil in Hk0.
    + apply list_elem_of_fmap in Hk0 as ([r [c' lc]] & Heq & Hin). simpl in Heq.
      simplify_eq.
      apply elem_of_eligible_pairs in Hin as (Hr & ep & Hep & Hc & Hlt).
      by exists r, ep, lc.
Qed.

Lemma serving_variables_iff_eligible_witness :
  build (example_instance 10) = Ok (example_model, example_x) /\
  ModelSense example_model = MAXIMIZE /\
  serving_vars example_model =
    (fun e => serving_decl (endpoints (example_instance 10)) e.1 e.2) <$>
    eligible_pairs (endpoints (example_instance 10)) (requests (example_instance 10)).
Proof.
  assert (build (example_instance 10) = Ok (example_model, example_x)) as H
    by (vm_compute; reflexivity).
  destruct (serving_variables_iff_eligible _ _ _ H) as (Hs & Hv & _).
  split; [exact H|]. split; [exact Hs|exact Hv].
Defined.

(** C5: when the request loop ends, the dictionary [x] holds each (video,
    cache) pair that is eligible for at least one request exactly once:
    its keys are duplicate-free and are exactly those pairs, in the order in
    which the requests first need them; the PlacementVariables of the model
    are the variables of these keys, one each, in that order; the link
    constraint of every (request, eligible cache) pair refers to the variable
    [x] holds for the pair, whichever request created it; and the
    accumulator of every cache holds exactly one term per key of that cache,
    with the video size as coefficient. *)
Theorem placement_variables_shared inst st :
  process_requests inst = Ok st ->
  NoDup (keys (bs_x st)) /\
  (forall p, p ∈ keys (bs_x st) <->
     exists r it, (r, it) ∈ eligible_pairs (endpoints inst) (requests inst) /\
                  p = (req_video r, it.1)) /\
  keys (bs_x st) =
    first_occurrences ((fun e => (req_video e.1, e.2.1)) <$>
                       eligible_pairs (endpoints inst) (requests inst)) /\
  placement_vars (bs_model st) = placement_decl <$> keys (bs_x st) /\
  (forall p i, dict_get (bs_x st) p = Some i ->
     vars (bs_model st) !! i = Some (placement_decl p)) /\
  Forall2 (link_for (endpoints inst) (bs_model st) (bs_x st))
          (filter is_link (constrs (bs_model st)))
          (eligible_pairs (endpoints inst) (requests inst)) /\
  (forall c, 0 <= c < inst_C inst ->
     bs_capacity st !! c = Some (cap_terms (video_sizes inst) (bs_x st) c)).
Proof.
  intros H. unfold process_requests in H.
  pose proof (process_inv _ _ _ _ _ _ (init_inv _ _) H) as [Hnd Hxv Hpv Hk Hcap].
  pose proof (process_delta _ _ _ _ _ H) as [Hext Hsv (ls & Hls & Hlf) _ _ Hkeys Hord].
  simpl in Hls. subst ls.
  split; [done|]. split; [|split; [|split; [done|split; [done|split; [done|]]]]].
  - intros p. split.
    + intros Hp. destruct (Hkeys p Hp) as [Hp0|Hp0]; [by apply elem_of_nil in Hp0|].
      apply list_elem_of_fmap in Hp0 as ([r it] & -> & Hin). by exists r, it.
    + intros (r & it & Hin & ->).
      apply list_elem_of_lookup in Hin as [k Hk'].
      destruct (Forall2_lookup_r _ _ _ _ _ Hlf Hk') as (c & _ & (y & xv & _ & _ & Hx)).
      simpl in Hx. by eapply dict_get_Some_key.
  - rewrite Hord. simpl. apply filter_all_prop. intros p _. apply not_elem_of_nil.
  - intros c Hc. rewrite Hcap. by rewrite decide_True.
Qed.

Lemma placement_variables_shared_witness :
  process_requests (example_instance 10) = Ok example_state /\
  NoDup (keys (bs_x example_state)) /\
  placement_vars (bs_model example_state) = placement_decl <$> keys (bs_x example_state).
Proof.
  assert (process_requests (example_instance 10) = Ok example_state) as H
    by (vm_compute; reflexivity).
  destruct (placement_variables_shared _ _ H) as (Hnd & _ & _ & Hpv & _).
  split; [exact H|]. split; [exact Hnd|exact Hpv].
Defined.
Lemma filter_all_true {A} (P : A -> bool) (l : list A) :
  (forall a, a ∈ l -> P a = true) -> filter P l = l.
Proof.
  induction l as [|a l IH]; intros H; [done|].
  rewrite filter_cons, decide_True by (rewrite H; [done|by left]).
  f_equal. apply IH. intros ??. apply H. by right.
Qed.

Lemma cap_terms_nonempty sizes x c :
  cap_terms sizes x c <> [] <-> exists v, (v, c) ∈ keys x.
Proof.
  unfold cap_terms, keys. split.
  - intros Hne. destruct (filter _ x) as [|[[v c'] i] l] eqn:Hf; [done|].
    assert (((v, c'), i) ∈ filter (fun e : Z * Z * nat => e.1.2 = c) x) as Hin
      by (rewrite Hf; by left).
    apply list_elem_of_filter in Hin as [Hc Hin]. simpl in Hc. subst c'.
    exists v. apply list_elem_of_fmap. by exists ((v, c), i).
  - intros (v & Hin). apply list_elem_of_fmap in Hin as ([[v' c'] i] & Heq & Hin).
    simpl in Heq. injection Heq as Hv' Hc'. subst v' c'.
    assert (((v, c), i) ∈ filter (fun e : Z * Z * nat => e.1.2 = c) x) as Hf
      by (by apply list_elem_of_filter).
    intros Hnil. apply fmap_nil_inv in Hnil. rewrite Hnil in Hf.
    by apply elem_of_nil in Hf.
Qed.

(** C6: the constraints of the returned model are those of the request loop
    followed by the capacity constraints; there is one capacity constraint
    [sum of size(v) * x[v,c] <= X] for each cache of [range(C)], in order,
    whose accumulator has at least one term, and none for a cache whose
    accumulator is empty; the accumulator of cache [c] is the weighted sum of
    the PlacementVariables materialized for [c]. *)
Theorem capacity_constraints_for_nonempty inst m x :
  build inst = Ok (m, x) ->
  exists st,
    process_requests inst = Ok st /\ x = bs_x st /\
    (forall c, 0 <= c < inst_C inst ->
       bs_capacity st !! c = Some (cap_terms (video_sizes inst) x c)) /\
    (forall c, cap_terms (video_sizes inst) x c <> [] <-> exists v, (v, c) ∈ keys x) /\
    constrs m = constrs (bs_model st) ++
      ((fun c => mkConstr (ExprLeConst (cap_terms (video_sizes inst) x c) (inst_X inst))
                          (cap_cache_ c)) <$>
       filter (fun c => cap_terms (video_sizes inst) x c <> []) (range (inst_C inst))) /\
    filter is_cap (constrs (bs_model st)) = [] /\
    filter is_cap (constrs m) =
      (fun c => mkConstr (ExprLeConst (cap_terms (video_sizes inst) x c) (inst_X inst))
                         (cap_cache_ c)) <$>
      filter (fun c => cap_terms (video_sizes inst) x c <> []) (range (inst_C inst)).
Proof.
  intros H.
  destruct (build_inv_spec _ _ _ H) as (st & Hst & Hinv & Hd & -> & Hv & Hs & Hk).
  exists st. split; [done|]. split; [done|].
  assert (filter is_cap (constrs (bs_model st)) = []) as Hnc
    by (rewrite (d_caps _ _ _ _ _ Hd); done).
  split; [|split; [apply cap_terms_nonempty|split; [done|split; [done|]]]].
  - intros c Hc. rewrite (inv_cap _ _ _ Hinv). by rewrite decide_True.
  - rewrite Hk, filter_app, Hnc. simpl. apply filter_all_true.
    intros k Hin. apply list_elem_of_fmap in Hin as (c & -> & _). done.
Qed.

Lemma capacity_constraints_for_nonempty_witness :
  build (example_instance 10) = Ok (example_model, example_x) /\
  exists st,
    process_requests (example_instance 10) = Ok st /\
    filter is_cap (constrs example_model) =
      (fun c => mkConstr (ExprLeConst (cap_terms [5] example_x c) 10) (cap_cache_ c)) <$>
      filter (fun c => cap_terms [5] example_x c <> []) (range 1).
Proof.
  assert (build (example_instance 10) = Ok (example_model, example_x)) as H
    by (vm_compute; reflexivity).
  split; [exact H|].
  destruct (capacity_constraints_for_nonempty _ _ _ H) as (st & Hst & _ & _ & _ & _ & _ & Hc).
  exists st. split; [exact Hst|exact Hc].
Defined.

Lemma assign_for_vars eps m m' c r :
  vars m' = vars m -> assign_for eps m c r -> assign_for eps m' c r.
Proof. intros Hv (ys & -> & Hys). exists ys. by rewrite Hv. Qed.

Lemma eligible_of_nonempty eps r :
  eligible_of eps r <> [] <->
  exists ep c lc, py_index eps (req_endpoint r) = Ok ep /\ (c, lc) ∈ caches ep /\ lc < ld ep.
Proof.
  unfold eligible_of, endpoint_of, eligible_caches.
  destruct (py_index eps (req_endpoint r)) as [ep|e]; simpl.
  - split.
    + intros Hne. destruct (filter _ (caches ep)) as [|[c lc] l] eqn:Hf; [done|].
      assert ((c, lc) ∈ filter (fun it : Z * Z => it.2 < ld ep) (caches ep)) as Hin
        by (rewrite Hf; by left).
      apply list_elem_of_filter in Hin as [??]. by exists ep, c, lc.
    + intros (ep' & c & lc & Heq & Hin & Hlt). simplify_eq.
      assert ((c, lc) ∈ filter (fun it : Z * Z => it.2 < ld ep') (caches ep')) as Hf
        by (by apply list_elem_of_filter).
      intros Hnil. rewrite Hnil in Hf. by apply elem_of_nil in Hf.
  - split; [done|]. by intros (? & ? & ? & ? & _).
Qed.

(** C7: the assignment constraints of the returned model are, in order, one
    per request that has at least one eligible cache, each bounding by 1 the
    sum of exactly the ServingVariables created for that request; a request
    without eligible cache has none. *)
Theorem assignment_constraints_iff_served inst m x :
  build inst = Ok (m, x) ->
  Forall2 (assign_for (endpoints inst) m)
          (filter is_assign (constrs m))
          (filter (fun r => eligible_of (endpoints inst) r <> []) (requests inst)) /\
  (forall r, eligible_of (endpoints inst) r <> [] <->
     exists ep c lc, py_index (endpoints inst) (req_endpoint r) = Ok ep /\
                     (c, lc) ∈ caches ep /\ lc < ld ep).
Proof.
  intros H.
  destruct (build_inv_spec _ _ _ H) as (st & Hst & Hinv & Hd & -> & Hv & Hs & Hk).
  split; [|intros r; apply eligible_of_nonempty].
  destruct (d_assigns _ _ _ _ _ Hd) as (added & Ha & Hf). simpl in Ha. subst added.
  rewrite Hk, filter_app, filter_caps_fmap by done. rewrite app_nil_r.
  eapply Forall2_impl; [exact Hf|]. intros c r. by apply assign_for_vars.
Qed.

Lemma assignment_constraints_iff_served_witness :
  build (example_instance 10) = Ok (example_model, example_x) /\
  Forall2 (assign_for (endpoints (example_instance 10)) example_model)
          (filter is_assign (constrs example_model))
          (filter (fun r => eligible_of (endpoints (example_instance 10)) r <> [])
                  (requests (example_instance 10))).
Proof.
  assert (build (example_instance 10) = Ok (example_model, example_x)) as H
    by (vm_compute; reflexivity).
  split; [exact H|]. exact (proj1 (assignment_constraints_iff_served _ _ _ H)).
Defined.

(** ** Solution extraction *)

Lemma dict_get_tabulate {V} (f : Z -> V) (l : list Z) k :
  dict_get ((fun c => (c, f c)) <$> l) k = if decide (k ∈ l) then Some (f k) else None.
Proof.
  induction l as [|c l IH].
  - destruct (decide (k ∈ [])) as [Hin|_]; [by apply elem_of_nil in Hin|done].
  - rewrite fmap_cons. cbn [dict_get].
    destruct (decide (k = c)) as [->|Hne].
    + destruct (decide (c ∈ c :: l)) as [_|Hn]; [done|]. exfalso. apply Hn. by left.
    + rewrite IH. destruct (decide (k ∈ l)) as [Hin|Hin].
      * destruct (decide (k ∈ c :: l)) as [_|Hn]; [done|]. exfalso. apply Hn. by right.
      * destruct (decide (k ∈ c :: l)) as [Hi|_]; [|done].
        apply elem_of_cons in Hi as [?|?]; done.
Qed.

Lemma dict_set_tabulate {V} (f : Z -> V) (l : list Z) k v :
  NoDup l -> k ∈ l ->
  dict_set ((fun c => (c, f c)) <$> l) k v =
  (fun c => (c, if decide (c = k) then v else f c)) <$> l.
Proof.
  induction l as [|c l IH]; intros Hnd Hin; simpl.
  - by apply elem_of_nil in Hin.
  - apply NoDup_cons in Hnd as [Hc Hnd].
    destruct (decide (k = c)) as [->|Hne].
    + rewrite decide_True by done. f_equal.
      apply list_fmap_ext. intros i c' Hc'. rewrite decide_False; [done|].
      intros ->. apply Hc. by eapply list_elem_of_lookup_2.
    + rewrite decide_False by done. f_equal. apply IH; [done|].
      apply elem_of_cons in Hin as [?|?]; done.
Qed.

Lemma stored_videos_cons X e x c :
  stored_videos X (e :: x) c =
  (if decide (e.1.2 = c /\ stored X e.2) then [e.1.1] else []) ++ stored_videos X x c.
Proof.
  unfold stored_videos. rewrite filter_cons.
  by destruct (decide (e.1.2 = c /\ stored X e.2)).
Qed.

Lemma content_iter_stored X (cc : list (Z * list Z)) vid cid var :
  stored X var = true ->
  content_iter X cc (vid, cid, var) =
  match dict_get cc cid with
  | None => Raise KeyError
  | Some vlist => Ok (dict_set cc cid (vlist ++ [vid]))
  end.
Proof. unfold stored, content_iter. by intros ->. Qed.

Lemma content_iter_skipped X (cc : list (Z * list Z)) vid cid var :
  stored X var = false -> content_iter X cc (vid, cid, var) = Ok cc.
Proof. unfold stored, content_iter. by intros ->. Qed.

Lemma content_loop X C x : forall (f : Z -> list Z),
  (forall v c i, ((v, c), i) ∈ x -> stored X i -> 0 <= c < C) ->
  foldM (content_iter X) ((fun c => (c, f c)) <$> range C) x =
  Ok ((fun c => (c, f c ++ stored_videos X x c)) <$> range C).
Proof.
  induction x as [|[[vid cid] var] x IH]; intros f Hx.
  - simpl. f_equal. apply list_fmap_ext. intros i c _.
    unfold stored_videos. simpl. by rewrite app_nil_r.
  - rewrite foldM_cons.
    assert (forall v c i, ((v, c), i) ∈ x -> stored X i -> 0 <= c < C) as Hx'
      by (intros v c i Hin; apply (Hx v c i); by right).
    destruct (stored X var) eqn:Hst.
    + assert (cid ∈ range C) as Hcid.
      { apply elem_of_range. apply (Hx vid cid var); [by left|]. by rewrite Hst. }
      rewrite content_iter_stored by done.
      rewrite dict_get_tabulate, decide_True by done.
      rewrite dict_set_tabulate by (done || apply NoDup_range).
      simpl. rewrite IH by done. f_equal.
      apply list_fmap_ext. intros i c _. f_equal.
      rewrite stored_videos_cons. simpl. rewrite Hst.
      destruct (decide (c = cid)) as [->|Hne].
      * rewrite decide_True by done. by rewrite <- app_assoc.
      * rewrite decide_False by (intros [? _]; congruence). done.
    + rewrite content_iter_skipped by done.
      simpl. rewrite IH by done. f_equal.
      apply list_fmap_ext. intros i c _. f_equal.
      rewrite stored_videos_cons. simpl. rewrite Hst.
      rewrite decide_False by (by intros [_ ?]). done.
Qed.

Lemma used_caches_tabulate (g : Z -> list Z) (l : list Z) :
  used_caches_of ((fun c => (c, g c)) <$> l) =
  (fun c => (c, sorted (g c))) <$> filter (fun c => g c <> []) l.
Proof.
  unfold used_caches_of. induction l as [|c l IH]; [done|].
  rewrite fmap_cons, (filter_cons _ (c, g c)), (filter_cons _ c). cbn [snd].
  destruct (decide (g c <> [])); [rewrite !fmap_cons; cbn [fst snd]|]; by rewrite IH.
Qed.

Lemma extract_spec X x C :
  (forall v c i, ((v, c), i) ∈ x -> stored X i -> 0 <= c < C) ->
  extract X x C = Ok (placement_solution X x C).
Proof.
  intros Hx. unfold extract, init_cache_content.
  rewrite (content_loop X C x (fun _ => [])) by done. simpl.
  by rewrite used_caches_tabulate.
Qed.

Lemma StronglySorted_range n : StronglySorted Z.lt (range n).
Proof.
  unfold range. generalize 0%nat as a.
  induction (Z.to_nat n) as [|k IH]; intros a; simpl; constructor; [apply IH|].
  apply Forall_forall. intros z Hz. apply list_elem_of_fmap in Hz as (j & -> & Hj).
  apply elem_of_seq in Hj. lia.
Qed.

Lemma StronglySorted_filter {A} (R : relation A) (P : A -> Prop)
    `{forall a, Decision (P a)} (l : list A) :
  StronglySorted R l -> StronglySorted R (filter P l).
Proof.
  induction 1 as [|a l Hl IH Ha]; [constructor|].
  rewrite filter_cons. destruct (decide (P a)); [|done].
  constructor; [done|]. apply Forall_forall. intros b Hb.
  apply list_elem_of_filter in Hb as [_ Hb]. revert b Hb. by apply Forall_forall.
Qed.

Lemma StronglySorted_lt_le (l : list Z) : StronglySorted Z.lt l -> Sorted Z.le l.
Proof.
  intros H. apply StronglySorted_Sorted.
  induction H as [|a l Hl IH Ha]; constructor; [done|].
  eapply Forall_impl; [exact Ha|]. intros; simpl in *; lia.
Qed.

Lemma StronglySorted_lt_NoDup (l : list Z) : StronglySorted Z.lt l -> NoDup l.
Proof.
  induction 1 as [|a l Hl IH Ha]; constructor; [|done].
  intros Hin. rewrite Forall_forall in Ha. specialize (Ha a Hin). lia.
Qed.

(** Sorting a list that is already ascending leaves it unchanged. *)
Lemma sorted_id (l : list Z) : Sorted Z.le l -> sorted l = l.
Proof.
  intros H. unfold sorted. apply (Sorted_unique Z.le); [|done|].
  - apply Sorted_merge_sort; apply _.
  - apply merge_sort_Permutation.
Qed.

Lemma mapM_cache_line (used : list (Z * list Z)) (l : list (Z * list Z)) :
  (forall c vs, (c, vs) ∈ l -> dict_get used c = Some vs) ->
  mapM (cache_line used) (keys l) = Ok (solution_line <$> l).
Proof.
  induction l as [|[c vs] l IH]; intros H; [done|].
  assert (cache_line used c = Ok (solution_line (c, vs))) as Hc.
  { unfold cache_line. by rewrite (H c vs) by (by left). }
  assert (mapM (cache_line used) (keys l) = Ok (solution_line <$> l)) as Hl
    by (apply IH; intros ???; apply H; by right).
  change (keys ((c, vs) :: l)) with (c :: keys l).
  change (mapM (cache_line used) (c :: keys l)) with
    (y ← cache_line used c; k ← mapM (cache_line used) (keys l); mret (y :: k)).
  rewrite Hc, Hl. done.
Qed.

Lemma output_text_spec (sol : list (Z * list Z)) :
  StronglySorted Z.lt (keys sol) -> output_text sol = Ok (solution_text sol).
Proof.
  intros H. unfold output_text.
  rewrite sorted_id by (by apply StronglySorted_lt_le).
  rewrite mapM_cache_line; [done|].
  intros c vs Hin. apply dict_get_elem; [|done]. by apply StronglySorted_lt_NoDup.
Qed.

Lemma keys_placement_solution X x C :
  keys (placement_solution X x C) = filter (fun c => stored_videos X x c <> []) (range C).
Proof.
  unfold keys, placement_solution. rewrite <- list_fmap_compose.
  apply list_fmap_id.
Qed.

Lemma placement_solution_sorted X x C :
  StronglySorted Z.lt (keys (placement_solution X x C)).
Proof.
  rewrite keys_placement_solution. apply StronglySorted_filter, StronglySorted_range.
Qed.

(** ** Effects of [resol_restit] and [main] *)

Lemma run_bind {A B} (c : io A) (k : A -> io B) :
  run_io (c ≫= k) =
  match run_io c with
  | (tr, Ok a) => (tr ++ trace (k a), result (k a))
  | (tr, Raise e) => (tr, Raise e)
  end.
Proof. unfold mbind, io_bind. by destruct (run_io c) as [tr [a|e]]. Qed.

Lemma io_eta {A} (c : io A) : run_io c = (trace c, result c).
Proof. unfold trace, result. by destruct (run_io c). Qed.

Lemma resol_restit_no_solution w model env x C path X :
  optimize w model = Optimized 0 X ->
  run_io (resol_restit w model env x C path) = ([Optimize; ModelDispose; EnvDispose], Ok tt).
Proof. intros H. unfold resol_restit. rewrite run_bind, H. reflexivity. Qed.

Lemma resol_restit_raises w model env x C path :
  optimize w model = OptimizeRaises ->
  run_io (resol_restit w model env x C path) = ([Optimize], Raise GurobiError).
Proof. intros H. unfold resol_restit. rewrite run_bind, H. reflexivity. Qed.

Lemma resol_restit_solution w model env x C path SolCount X :
  optimize w model = Optimized SolCount X -> SolCount <> 0 ->
  (forall v c i, ((v, c), i) ∈ x -> stored X i -> 0 <= c < C) ->
  run_io (resol_restit w model env x C path) =
  ([Optimize; FileWrite path (solution_text (placement_solution X x C));
    ModelDispose; EnvDispose], Ok tt).
Proof.
  intros H Hn Hx. unfold resol_restit. rewrite run_bind, H.
  rewrite (proj2 (Z.eqb_neq _ _) Hn).
  rewrite (extract_spec X x C Hx).
  unfold mbind, io_bind, lift, emit, trace, result. cbn [run_io fst snd].
  rewrite (output_text_spec _ (placement_solution_sorted X x C)).
  reflexivity.
Qed.

Lemma resol_restit_extract_raises w model env x C path SolCount X e :
  optimize w model = Optimized SolCount X -> SolCount <> 0 ->
  extract X x C = Raise e ->
  run_io (resol_restit w model env x C path) = ([Optimize], Raise e).
Proof.
  intros H Hn Hx. unfold resol_restit. rewrite run_bind, H.
  rewrite (proj2 (Z.eqb_neq _ _) Hn), Hx. reflexivity.
Qed.

Lemma main_usage w argv : length argv <> 2%nat -> run_io (main w argv) = ([], Ok 1).
Proof.
  intros H. unfold main. by rewrite (proj2 (Nat.eqb_neq _ _) H).
Qed.

Lemma main_parse_raises w argv e :
  length argv = 2%nat ->
  match file_lines w (nth 1 argv "") with
  | None => Raise OSError
  | Some f => lire_instance f
  end = Raise e ->
  run_io (main w argv) = ([], Raise e).
Proof.
  intros H Hp. unfold main. rewrite (proj2 (Nat.eqb_eq _ _) H). cbn [negb].
  rewrite run_bind, Hp. reflexivity.
Qed.

Lemma main_build_raises w argv f inst e :
  length argv = 2%nat -> file_lines w (nth 1 argv "") = Some f ->
  lire_instance f = Ok inst -> build inst = Raise e ->
  run_io (main w argv) = ([EnvCreate; ModelCreate], Raise e).
Proof.
  intros H Hf Hp Hb. unfold main. rewrite (proj2 (Nat.eqb_eq _ _) H). cbn [negb].
  rewrite Hf, Hp. unfold build_model.
  unfold mbind, io_bind, lift, emit, trace, result. cbn [run_io fst snd].
  rewrite Hb. reflexivity.
Qed.

Lemma main_built w argv f inst m x :
  length argv = 2%nat -> file_lines w (nth 1 argv "") = Some f ->
  lire_instance f = Ok inst -> build inst = Ok (m, x) ->
  run_io (main w argv) =
  ([EnvCreate; ModelCreate; ModelWrite "videos.mps"] ++
     trace (resol_restit w m gp_Env x (inst_C inst) "videos.out"),
   _ ← result (resol_restit w m gp_Env x (inst_C inst) "videos.out"); Ok 0).
Proof.
  intros H Hf Hp Hb. unfold main. rewrite (proj2 (Nat.eqb_eq _ _) H). cbn [negb].
  rewrite Hf, Hp. unfold build_model.
  unfold mbind, io_bind, lift, emit, trace, result, mret, io_ret.
  cbn [run_io fst snd]. rewrite Hb. cbn [run_io fst snd app].
  destruct (run_io (resol_restit w m gp_Env x (inst_C inst) "videos.out")) as [tr [[]|e]];
    cbn [run_io fst snd res_bind]; rewrite ?app_nil_r; reflexivity.
Qed.

(** ** Claims about solution extraction and orchestration *)

Lemma elem_of_stored_videos X (x : list (Z * Z * nat)) c v :
  v ∈ stored_videos X x c <-> exists i, ((v, c), i) ∈ x /\ stored X i.
Proof.
  unfold stored_videos. rewrite list_elem_of_fmap. split.
  - intros ([[v' c'] i] & -> & Hin). apply list_elem_of_filter in Hin as [[Hc Hs] Hin].
    simpl in *. subst c'. by exists i.
  - intros (i & Hin & Hs). exists ((v, c), i). split; [done|].
    by apply list_elem_of_filter.
Qed.

Lemma nonempty_elem {A} (l : list A) : l <> [] <-> exists a, a ∈ l.
Proof.
  destruct l as [|a l]; split; try done.
  - by intros (a & Ha%elem_of_nil).
  - intros _. exists a. by left.
Qed.

(** C8: with at least one solution and every stored placement on a cache of
    [range(C)], a PlacementVariable is stored exactly when its value exceeds
    0.5; the extractor returns, and the program writes to the output file,
    the PlacementSolution of the specification: the caches that store at
    least one video, in strictly ascending order, each with exactly its
    stored videos in ascending order, after a first line holding the number
    of these caches. *)
Theorem extraction_groups_sorts_and_writes w model env x C path SolCount X :
  optimize w model = Optimized SolCount X -> SolCount <> 0 ->
  (forall v c i, ((v, c), i) ∈ x -> stored X i -> 0 <= c < C) ->
  (forall i, stored X i = (0.5 <? X i)%float) /\
  extract X x C = Ok (placement_solution X x C) /\
  run_io (resol_restit w model env x C path) =
    ([Optimize; FileWrite path (solution_text (placement_solution X x C));
      ModelDispose; EnvDispose], Ok tt) /\
  StronglySorted Z.lt (keys (placement_solution X x C)) /\
  (forall c, c ∈ keys (placement_solution X x C) <->
     0 <= c < C /\ exists v i, ((v, c), i) ∈ x /\ stored X i) /\
  (forall c vs, (c, vs) ∈ placement_solution X x C ->
     vs <> [] /\ Sorted Z.le vs /\ vs ≡ₚ stored_videos X x c) /\
  (forall c v, v ∈ stored_videos X x c <-> exists i, ((v, c), i) ∈ x /\ stored X i).
Proof.
  intros Hopt Hn Hx.
  split; [done|]. split; [by apply extract_spec|].
  split; [by apply (resol_restit_solution _ _ _ _ _ _ SolCount)|].
  split; [apply placement_solution_sorted|].
  split; [|split; [|intros; apply elem_of_stored_videos]].
  - intros c. rewrite keys_placement_solution, list_elem_of_filter, elem_of_range.
    rewrite nonempty_elem. setoid_rewrite elem_of_stored_videos.
    split; intros [? ?]; by split.
  - intros c vs Hin. unfold placement_solution in Hin.
    apply list_elem_of_fmap in Hin as (c' & Heq & Hin). simplify_eq.
    apply list_elem_of_filter in Hin as [Hne _].
    assert (sorted (stored_videos X x c') ≡ₚ stored_videos X x c') as Hp
      by apply merge_sort_Permutation.
    split; [|split; [|done]].
    + intros Hnil. rewrite Hnil in Hp. symmetry in Hp.
      by apply Permutation_nil_r in Hp.
    + apply Sorted_merge_sort; apply _.
Qed.

Lemma extraction_groups_sorts_and_writes_witness :
  extract (fun _ => 1%float) example_x 1 = Ok [(0, [0])] /\
  run_io (resol_restit (example_world "10") example_model gp_Env example_x 1 "videos.out") =
    ([Optimize;
      FileWrite "videos.out" (solution_text (placement_solution (fun _ => 1%float) example_x 1));
      ModelDispose; EnvDispose], Ok tt).
Proof.
  assert (forall v c i, ((v, c), i) ∈ example_x -> stored (fun _ => 1%float) i -> 0 <= c < 1)
    as Hx.
  { intros v c i Hin _. apply list_elem_of_singleton in Hin. simplify_eq. lia. }
  destruct (extraction_groups_sorts_and_writes (example_world "10") example_model gp_Env
              example_x 1 "videos.out" 1 (fun _ => 1%float) eq_refl ltac:(lia) Hx)
    as (_ & He & Hr & _).
  split; [|exact Hr]. rewrite He. vm_compute. reflexivity.
Defined.

(** C9: when the solve reports zero solutions, [resol_restit] performs the
    solve and the two disposals and nothing else, no file is written, and it
    returns normally; [main] then returns 0, no exception escaping. *)
Theorem no_solution_no_output w model env x C path X :
  optimize w model = Optimized 0 X ->
  run_io (resol_restit w model env x C path) = ([Optimize; ModelDispose; EnvDispose], Ok tt) /\
  (forall p text, FileWrite p text ∉ trace (resol_restit w model env x C path)) /\
  (forall argv f inst,
     length argv = 2%nat -> file_lines w (nth 1 argv "") = Some f ->
     lire_instance f = Ok inst -> build inst = Ok (model, x) -> C = inst_C inst ->
     run_io (main w argv) =
     ([EnvCreate; ModelCreate; ModelWrite "videos.mps"; Optimize; ModelDispose; EnvDispose],
      Ok 0)).
Proof.
  intros H.
  pose proof (resol_restit_no_solution w model env x C path X H) as Hr.
  split; [done|]. split.
  - intros p text. unfold trace. rewrite Hr. simpl.
    intros Hin. repeat (apply elem_of_cons in Hin as [?|Hin]; [done|]).
    by apply elem_of_nil in Hin.
  - intros argv f inst Ha Hf Hp Hb ->.
    rewrite (main_built w argv f inst model x Ha Hf Hp Hb).
    unfold trace, result.
    by rewrite (resol_restit_no_solution w model gp_Env x (inst_C inst) "videos.out" X H).
Qed.

Lemma no_solution_no_output_witness :
  run_io (resol_restit no_solution_world example_model gp_Env example_x 1 "videos.out")
  = ([Optimize; ModelDispose; EnvDispose], Ok tt).
Proof.
  exact (proj1 (no_solution_no_output no_solution_world example_model gp_Env example_x 1
                  "videos.out" (fun _ => 0%float) eq_refl)).
Defined.

Lemma build_keys_in_range inst m x :
  build inst = Ok (m, x) ->
  forall v c i, ((v, c), i) ∈ x -> 0 <= c < inst_C inst.
Proof.
  intros H v c i Hin.
  destruct (build_inv_spec _ _ _ H) as (st & _ & Hinv & _ & -> & _).
  apply (inv_keys _ _ _ Hinv (v, c)). apply list_elem_of_fmap. by exists ((v, c), i).
Qed.

(** Every way [main] can end: the effects performed and the outcome. *)
Lemma main_cases w argv :
  run_io (main w argv) = ([], Ok 1) \/
  (exists e, run_io (main w argv) = ([], Raise e)) \/
  (exists e, run_io (main w argv) = ([EnvCreate; ModelCreate], Raise e)) \/
  (exists e, run_io (main w argv) =
             ([EnvCreate; ModelCreate; ModelWrite "videos.mps"; Optimize], Raise e)) \/
  run_io (main w argv) =
    ([EnvCreate; ModelCreate; ModelWrite "videos.mps"; Optimize; ModelDispose; EnvDispose],
     Ok 0) \/
  (exists text, run_io (main w argv) =
     ([EnvCreate; ModelCreate; ModelWrite "videos.mps"; Optimize;
       FileWrite "videos.out" text; ModelDispose; EnvDispose], Ok 0)).
Proof.
  destruct (decide (length argv = 2%nat)) as [Ha|Ha]; [|left; by apply main_usage].
  right.
  destruct (match file_lines w (nth 1 argv "") with
            | None => Raise OSError
            | Some f => lire_instance f
            end) as [inst|e] eqn:Hp;
    [|left; exists e; by apply main_parse_raises].
  right.
  destruct (file_lines w (nth 1 argv "")) as [f|] eqn:Hf; [|done].
  destruct (build inst) as [[m x]|e] eqn:Hb;
    [|left; exists e; by apply (main_build_raises w argv f inst)].
  right. rewrite (main_built w argv f inst m x Ha Hf Hp Hb). unfold trace, result.
  destruct (optimize w m) as [|SolCount X] eqn:Ho.
  - left. exists GurobiError. by rewrite resol_restit_raises.
  - right. destruct (decide (SolCount = 0)) as [->|Hn].
    + left. by rewrite (resol_restit_no_solution _ _ _ _ _ _ X).
    + right. eexists.
      rewrite (resol_restit_solution _ _ _ _ _ _ SolCount X); [done..|].
      intros v c i Hin _. by eapply build_keys_in_range.
Qed.

(** C1, as the code has it: the extractor checks no capacity.  Whatever the
    video sizes, the capacity and the solved values, when the instance
    builds and the solve reports at least one solution, [main] writes the
    PlacementSolution of these values to the output file, releases the
    solver and returns 0; no consistency error is raised. *)
Theorem any_solution_is_serialized w argv f inst m x SolCount X :
  length argv = 2%nat -> file_lines w (nth 1 argv "") = Some f ->
  lire_instance f = Ok inst -> build inst = Ok (m, x) ->
  optimize w m = Optimized SolCount X -> SolCount <> 0 ->
  run_io (main w argv) =
  ([EnvCreate; ModelCreate; ModelWrite "videos.mps"; Optimize;
    FileWrite "videos.out" (solution_text (placement_solution X x (inst_C inst)));
    ModelDispose; EnvDispose], Ok 0).
Proof.
  intros Ha Hf Hp Hb Ho Hn.
  rewrite (main_built w argv f inst m x Ha Hf Hp Hb). unfold trace, result.
  rewrite (resol_restit_solution _ _ _ _ _ _ SolCount X); [done..|].
  intros v c i Hin _. by eapply build_keys_in_range.
Qed.

Lemma any_solution_is_serialized_witness :
  run_io (main overfull_world ["videos.py"; "overfull.in"]) =
  ([EnvCreate; ModelCreate; ModelWrite "videos.mps"; Optimize;
    FileWrite "videos.out"
      (solution_text (placement_solution (fun _ => 1%float) example_x 1));
    ModelDispose; EnvDispose], Ok 0).
Proof.
  apply (any_solution_is_serialized overfull_world ["videos.py"; "overfull.in"]
           overfull_file overfull_instance overfull_model example_x 1 (fun _ => 1%float)).
  - reflexivity.
  - reflexivity.
  - vm_compute. reflexivity.
  - vm_compute. reflexivity.
  - reflexivity.
  - lia.
Defined.

(** C1, counterexample: the video of size 5 is listed for cache 0 although
    the capacity is 1, and the file is written. *)
Lemma capacity_violation_is_written :
  lire_instance overfull_file = Ok overfull_instance /\
  inst_X overfull_instance = 1 /\ video_sizes overfull_instance = [5] /\
  run_io (main overfull_world ["videos.py"; "overfull.in"]) =
  ([EnvCreate; ModelCreate; ModelWrite "videos.mps"; Optimize;
    FileWrite "videos.out" "1
0 0
"; ModelDispose; EnvDispose], Ok 0) /\
  placement_solution (fun _ => 1%float) example_x 1 = [(0, [0])] /\
  capacity_respected [5] 1 [(0, [0])] = false.
Proof. repeat split; vm_compute; reflexivity. Qed.

(** C2, as the code has it: when [main] returns normally after acquiring the
    solver, the last two effects are the disposal of the model and of the
    environment; when an exception escapes, nothing has been disposed. *)
Theorem solver_released_on_return_only w argv :
  (forall n, result (main w argv) = Ok n -> EnvCreate ∈ trace (main w argv) ->
     exists tr, trace (main w argv) = tr ++ [ModelDispose; EnvDispose]) /\
  (forall e, result (main w argv) = Raise e ->
     (ModelDispose ∉ trace (main w argv)) /\ (EnvDispose ∉ trace (main w argv))).
Proof.
  unfold trace, result.
  destruct (main_cases w argv) as [H|[[e H]|[[e H]|[[e H]|[H|[text H]]]]]];
    rewrite H; simpl; split; [intros n Hn Hin|intros e' He' | ..]; try done.
  - by apply elem_of_nil in Hin.
  - split; apply not_elem_of_nil.
  - split; intros Hin; repeat (apply elem_of_cons in Hin as [?|Hin]; [done|]);
      by apply elem_of_nil in Hin.
  - split; intros Hin; repeat (apply elem_of_cons in Hin as [?|Hin]; [done|]);
      by apply elem_of_nil in Hin.
  - by exists [EnvCreate; ModelCreate; ModelWrite "videos.mps"; Optimize].
  - by exists [EnvCreate; ModelCreate; ModelWrite "videos.mps"; Optimize;
               FileWrite "videos.out" text].
Qed.

(** C2, counterexample: a failure while building, and a failure of the
    solve, both leave the environment and the model undisposed. *)
Lemma solver_leaks_on_failure :
  run_io (main stray_cache_world ["videos.py"; "stray.in"]) =
    ([EnvCreate; ModelCreate], Raise KeyError) /\
  run_io (main failing_solver_world ["videos.py"; "me.in"]) =
    ([EnvCreate; ModelCreate; ModelWrite "videos.mps"; Optimize], Raise GurobiError).
Proof. split; vm_compute; reflexivity. Qed.

(** ** [int(str(n)) = n] *)

Lemma forallb_Forall_true {A} (f : A -> bool) (l : list A) :
  forallb f l = true <-> Forall (fun a => f a = true) l.
Proof.
  induction l as [|a l IH]; simpl; [split; [constructor|done]|].
  rewrite andb_true_iff, IH, Forall_cons. done.
Qed.

Lemma digit_char r :
  (r < 10)%N ->
  Ascii.eqb (pretty_N_char r) "_" = false /\
  Ascii.eqb (pretty_N_char r) "+" = false /\
  Ascii.eqb (pretty_N_char r) "-" = false /\
  digit_of (pretty_N_char r) = Some (Z.of_N r).
Proof.
  intros H.
  assert (r = 0 \/ r = 1 \/ r = 2 \/ r = 3 \/ r = 4 \/ r = 5 \/ r = 6 \/ r = 7 \/
          r = 8 \/ r = 9)%N as Hr by lia.
  repeat (destruct Hr as [->|Hr]; [by repeat split|]). subst r. by repeat split.
Qed.

(** The digits that [str] writes for [x] are read back as [x]; they are [n],
    the number of decimal digits of [x]. *)
Lemma int_digits_pretty_go x : forall s,
  (0 < x)%N ->
  exists n : Z, 0 < n /\ 10 ^ (n - 1) <= Z.of_N x /\ forall acc k b,
    int_digits (pretty_N_go x s) acc k b =
    int_digits s (acc * 10 ^ n + Z.of_N x) (k + n) true.
Proof.
  induction (N.lt_wf_0 x) as [x _ IH]; intros s Hx.
  rewrite pretty_N_go_step by done.
  destruct (digit_char (x `mod` 10)%N) as (Hu & _ & _ & Hd);
    [by apply N.mod_lt|].
  assert (Z.of_N x = 10 * Z.of_N (x `div` 10) + Z.of_N (x `mod` 10)) as Hdm.
  { rewrite (N.div_mod x 10) at 1 by done. lia. }
  destruct (decide (x `div` 10 = 0)%N) as [H0|H0].
  - rewrite H0, pretty_N_go_0. exists 1. split; [done|]. split; [simpl; lia|].
    intros acc k b. simpl int_digits. rewrite Hu, Hd. f_equal. rewrite Hdm, H0.
    rewrite Z.pow_1_r. simpl Z.of_N. ring.
  - destruct (IH (x `div` 10)%N) with (s := String (pretty_N_char (x `mod` 10)) s)
      as (n & Hn0 & Hle & Hn); [by apply N.div_lt|by apply N.neq_0_lt_0|].
    exists (n + 1). split; [lia|]. split.
    { replace (n + 1 - 1) with (Z.succ (n - 1)) by lia.
      rewrite Z.pow_succ_r by lia. rewrite Hdm.
      pose proof (N2Z.is_nonneg (x `mod` 10)) as Hm.
      generalize dependent (Z.of_N (x `mod` 10)).
      generalize dependent (Z.of_N (x `div` 10)).
      generalize (10 ^ (n - 1)). intros; lia. }
    intros acc k b. rewrite Hn. simpl int_digits. rewrite Hu, Hd.
    f_equal; [|lia]. rewrite Hdm, Z.pow_add_r, Z.pow_1_r by lia. ring.
Qed.

Lemma pretty_go_head x : forall s,
  (0 < x)%N -> exists r s', (r < 10)%N /\ pretty_N_go x s = String (pretty_N_char r) s'.
Proof.
  induction (N.lt_wf_0 x) as [x _ IH]; intros s Hx.
  rewrite pretty_N_go_step by done.
  destruct (decide (x `div` 10 = 0)%N) as [H0|H0].
  - rewrite H0, pretty_N_go_0. exists (x `mod` 10)%N, s. split; [|done].
    by apply N.mod_lt.
  - apply IH; [by apply N.div_lt|by apply N.neq_0_lt_0].
Qed.

Lemma int_unsigned_pretty_pos negative p :
  Z.pos p < 10 ^ max_str_digits ->
  int_unsigned negative (pretty (N.pos p)) = Ok (if negative then Z.neg p else Z.pos p).
Proof.
  intros Hp. unfold pretty, pretty_N. rewrite decide_False by done.
  destruct (int_digits_pretty_go (N.pos p) "") as (n & Hn0 & Hle & Hn); [done|].
  unfold int_unsigned. rewrite Hn. cbn [int_digits].
  rewrite Z.mul_0_l, !Z.add_0_l.
  assert (n <= max_str_digits) as Hmax.
  { destruct (decide (n <= max_str_digits)) as [|Hgt]; [done|]. exfalso.
    assert (10 ^ max_str_digits <= 10 ^ (n - 1)); [|simpl in Hle; lia].
    apply Z.pow_le_mono_r; [done|lia]. }
  rewrite (proj2 (Z.ltb_ge _ _) Hmax). simpl Z.of_N. by destruct negative.
Qed.

(** [int] reads back what [str] writes, as long as it has at most 4300
    digits. *)
Lemma py_int_str z : Z.abs z < 10 ^ max_str_digits -> py_int (str z) = Ok z.
Proof.
  intros Hz. unfold str. destruct z as [|p|p].
  - reflexivity.
  - change (pretty (Z.pos p)) with (pretty (N.pos p)).
    destruct (pretty_go_head (N.pos p) "") as (r & s' & Hr & Hs); [done|].
    destruct (digit_char r Hr) as (_ & Hplus & Hminus & _).
    rewrite <- (int_unsigned_pretty_pos false p Hz).
    unfold pretty at 1, pretty_N at 1. rewrite decide_False by done.
    unfold py_int. rewrite Hs, Hplus, Hminus, <- Hs.
    unfold pretty, pretty_N. by rewrite decide_False.
  - change (pretty (Z.neg p)) with (String "-" (pretty (N.pos p))).
    unfold py_int. simpl Ascii.eqb. cbv iota.
    by apply int_unsigned_pretty_pos.
Qed.

(** What [int] returns has at most 4300 digits. *)
Lemma digit_of_bounds c d : digit_of c = Some d -> 0 <= d <= 9.
Proof.
  unfold digit_of. destruct (_ && _) eqn:Hc; [|done]. intros; simplify_eq.
  apply andb_true_iff in Hc as [H1 H2]. apply Nat.leb_le in H1, H2. lia.
Qed.

Lemma int_digits_bounds s : forall acc k b z n rest,
  int_digits s acc k b = Some (z, n, rest) ->
  0 <= k -> 0 <= acc < 10 ^ k -> 0 <= z < 10 ^ n.
Proof.
  induction s as [|c s IH]; intros acc k b z n rest; simpl.
  - destruct b; intros; by simplify_eq.
  - destruct (Ascii.eqb c "_").
    { destruct b; [|done]. apply IH. }
    destruct (digit_of c) as [d|] eqn:Hd.
    + intros H Hk Hacc. apply (IH _ _ _ _ _ _ H); [lia|].
      apply digit_of_bounds in Hd.
      replace (k + 1) with (Z.succ k) by lia. rewrite Z.pow_succ_r by done. lia.
    + destruct b; intros; by simplify_eq.
Qed.

Lemma int_unsigned_bounds negative s z :
  int_unsigned negative s = Ok z -> Z.abs z < 10 ^ max_str_digits.
Proof.
  unfold int_unsigned. destruct (int_digits s 0 0 false) as [[[v n] rest]|] eqn:Hs; [|done].
  destruct (max_str_digits <? n) eqn:Hn; [done|]. apply Z.ltb_ge in Hn.
  destruct rest; [|done]. intros; simplify_eq.
  apply int_digits_bounds in Hs; [|done|simpl; lia].
  assert (10 ^ n <= 10 ^ max_str_digits) by (apply Z.pow_le_mono_r; [done|lia]).
  destruct negative; lia.
Qed.

Lemma py_int_bounds t z : py_int t = Ok z -> Z.abs z < 10 ^ max_str_digits.
Proof.
  unfold py_int. destruct t as [|c t]; [apply int_unsigned_bounds|].
  destruct (Ascii.eqb c "+"); [apply int_unsigned_bounds|].
  destruct (Ascii.eqb c "-"); apply int_unsigned_bounds.
Qed.

(** ** The parser *)

Lemma int_unsigned_raise negative s e :
  int_unsigned negative s = Raise e -> exists msg, e = ValueError msg.
Proof.
  unfold int_unsigned. destruct (int_digits s 0 0 false) as [[[v n] rest]|];
    [|intros; simplify_eq; by eexists].
  destruct (max_str_digits <? n); [intros; simplify_eq; by eexists|].
  destruct rest; intros; simplify_eq. by eexists.
Qed.

Lemma py_int_raise t e : py_int t = Raise e -> exists msg, e = ValueError msg.
Proof.
  unfold py_int. destruct t as [|c t]; [apply int_unsigned_raise|].
  destruct (Ascii.eqb c "+"); [apply int_unsigned_raise|].
  destruct (Ascii.eqb c "-"); apply int_unsigned_raise.
Qed.

Lemma map_int_Forall2 l zs :
  map_int l = Ok zs <-> Forall2 (fun t z => py_int t = Ok z) l zs.
Proof.
  revert zs. induction l as [|t l IH]; intros zs; simpl.
  - split; [intros; simplify_eq; constructor | by inversion 1].
  - split.
    + intros H. apply bind_Ok_inv in H as (z & Hz & H).
      apply bind_Ok_inv in H as (zs' & Hzs & H). simplify_eq.
      constructor; [done|]. by apply IH.
    + inversion 1 as [|? z ? zs' Hz Hzs]; subst. rewrite Hz. simpl.
      apply IH in Hzs. by rewrite Hzs.
Qed.

Lemma map_int_raise l e : map_int l = Raise e -> exists msg, e = ValueError msg.
Proof.
  induction l as [|t l IH]; simpl; [done|].
  destruct (py_int t) as [z|e'] eqn:Ht; simpl.
  - destruct (map_int l) as [zs|e'']; simpl; [done|]. intros; simplify_eq. by apply IH.
  - intros; simplify_eq. by eapply py_int_raise.
Qed.

Lemma map_int_length l zs : map_int l = Ok zs -> length zs = length l.
Proof. intros H. apply map_int_Forall2 in H. symmetry. by eapply Forall2_length. Qed.

Lemma int_line_map_int n l : int_line n l <-> exists zs, map_int l = Ok zs /\ length l = n.
Proof.
  unfold int_line. split.
  - intros [Hn Hall]. cut (exists zs, map_int l = Ok zs); [intros [zs ?]; by exists zs|].
    clear Hn. induction Hall as [|t l Ht _ [zs IH]]; [by exists []|].
    destruct (py_int t) as [z|] eqn:Hz; [|done].
    exists (z :: zs). simpl. by rewrite Hz, IH.
  - intros (zs & Hzs & Hn). split; [done|].
    apply map_int_Forall2 in Hzs. clear Hn.
    induction Hzs as [|t z l zs Ht _ IH]; constructor; [by rewrite Ht|done].
Qed.

Lemma unpack2_Ok l p :
  unpack2 l = Ok p <-> exists a b, l = [a; b] /\ py_int a = Ok p.1 /\ py_int b = Ok p.2.
Proof.
  split.
  - destruct l as [|a [|b [|c l]]]; simpl; intros H.
    + done.
    + by destruct (py_int a).
    + apply bind_Ok_inv in H as (x & Hx & H). apply bind_Ok_inv in H as (y & Hy & H).
      simplify_eq. by exists a, b.
    + destruct (py_int a); [|done]. destruct (py_int b); [|done].
      by destruct (py_int c).
  - intros (a & b & -> & Ha & Hb). simpl. rewrite Ha, Hb. by destruct p.
Qed.

Lemma unpack2_raise l e : unpack2 l = Raise e -> exists msg, e = ValueError msg.
Proof.
  destruct l as [|a [|b [|c l]]]; simpl; intros H.
  - simplify_eq. by eexists.
  - destruct (py_int a) eqn:Ha; simpl in H; simplify_eq; [by eexists|by eapply py_int_raise].
  - destruct (py_int a) eqn:Ha; simpl in H; simplify_eq; [|by eapply py_int_raise].
    destruct (py_int b) eqn:Hb; simpl in H; simplify_eq. by eapply py_int_raise.
  - destruct (py_int a) eqn:Ha; simpl in H; simplify_eq; [|by eapply py_int_raise].
    destruct (py_int b) eqn:Hb; simpl in H; simplify_eq; [|by eapply py_int_raise].
    destruct (py_int c) eqn:Hc; simpl in H; simplify_eq; [by eexists|by eapply py_int_raise].
Qed.

Lemma int_line_unpack2 l : int_line 2 l <-> exists p, unpack2 l = Ok p.
Proof.
  rewrite int_line_map_int. split.
  - intros (zs & Hzs & Hn). destruct l as [|a [|b [|c l]]]; try done.
    apply map_int_Forall2 in Hzs.
    inversion Hzs as [|? x ? ? Ha Hl]; subst. inversion Hl as [|? y ? ? Hb _]; subst.
    exists (x, y). apply unpack2_Ok. by exists a, b.
  - intros (p & (a & b & -> & Ha & Hb)%unpack2_Ok).
    exists [p.1; p.2]. split; [|done]. simpl. by rewrite Ha, Hb.
Qed.

(** *** What a successful run of each loop has read *)

Lemma read_connections_Ok k : forall f cc d f',
  read_connections k f cc = Ok (d, f') <->
  exists conns pairs,
    length conns = k /\ f = conns ++ f' /\
    Forall2 (fun l p => unpack2 l = Ok p) conns pairs /\
    d = connections_of cc pairs.
Proof.
  induction k as [|k IH]; intros f cc d f'; simpl.
  - split.
    + intros H. simplify_eq. exists [], []. repeat split; constructor.
    + intros (conns & pairs & Hl & -> & Hf & ->).
      destruct conns; [|done]. by inversion Hf.
  - split.
    + destruct f as [|l f]; simpl; [done|]. intros H.
      apply bind_Ok_inv in H as ([c la] & Hu & H).
      apply IH in H as (conns & pairs & Hl & -> & Hf & ->).
      exists (l :: conns), ((c, la) :: pairs). simpl.
      repeat split; [by rewrite Hl|by constructor].
    + intros (conns & pairs & Hl & -> & Hf & ->).
      destruct Hf as [|l [c la] conns pairs Hu Hf]; [done|]. simpl in *.
      rewrite Hu. simpl. apply IH. exists conns, pairs.
      repeat split; [lia|done].
Qed.

Lemma map_int_2 l a b :
  map_int l = Ok [a; b] <-> exists ta tb, l = [ta; tb] /\ py_int ta = Ok a /\ py_int tb = Ok b.
Proof.
  rewrite map_int_Forall2. split.
  - inversion 1 as [|ta ? l1 ? Ha H1]; subst. inversion H1 as [|tb ? l2 ? Hb H2]; subst.
    inversion H2; subst. by exists ta, tb.
  - intros (ta & tb & -> & Ha & Hb). by repeat constructor.
Qed.

Lemma read_endpoints_Ok n : forall f eps eps' f',
  read_endpoints n f eps = Ok (eps', f') <->
  exists blocks parsed,
    length blocks = n /\ f = flat_map block_lines blocks ++ f' /\
    Forall2 block_parses blocks parsed /\ eps' = eps ++ parsed.
Proof.
  induction n as [|n IH]; intros f eps eps' f'; simpl.
  - split.
    + intros H. simplify_eq. exists [], []. rewrite app_nil_r. repeat split; constructor.
    + intros (blocks & parsed & Hl & -> & Hf & ->).
      destruct blocks; [|done]. inversion Hf. by rewrite app_nil_r.
  - split.
    + destruct f as [|h f]; simpl; [done|].
      destruct (length h =? 2)%nat eqn:Hlen; simpl; [|done]. intros H.
      apply bind_Ok_inv in H as (ldv & Hld & H). apply bind_Ok_inv in H as (k & Hk & H).
      apply bind_Ok_inv in H as ([cc f2] & Hc & H).
      apply read_connections_Ok in Hc as (conns & pairs & Hl & -> & Hf & ->).
      apply IH in H as (blocks & parsed & Hb & -> & Hp & ->).
      exists ((h, conns) :: blocks), (mkEndpoint ldv (connections_of [] pairs) :: parsed).
      simpl. repeat split.
      * by rewrite Hb.
      * unfold block_lines at 1. simpl. by rewrite <- app_assoc.
      * constructor; [|done]. exists ldv, k, pairs. simpl. repeat split; try done.
        apply map_int_2. destruct h as [|ta [|tb [|? ?]]]; try done. by exists ta, tb.
      * by rewrite <- app_assoc.
    + intros (blocks & parsed & Hl & -> & Hf & ->).
      destruct Hf as [|[h conns] ep blocks parsed Hb Hf]; [done|]. simpl in *.
      destruct Hb as (ldv & k & pairs & Hh & Hc & Hu & ->). simpl in *.
      apply map_int_2 in Hh as (ta & tb & -> & Ha & Hb). simpl.
      rewrite Ha, Hb. simpl. rewrite <- ?app_assoc.
      assert (read_connections (Z.to_nat k)
                (conns ++ flat_map block_lines blocks ++ f') [] =
              Ok (connections_of [] pairs, flat_map block_lines blocks ++ f')) as ->.
      { apply read_connections_Ok. exists conns, pairs. by rewrite Hc. }
      simpl. apply IH. exists blocks, parsed.
      repeat split; [lia|done|by rewrite <- app_assoc].
Qed.

Lemma read_requests_Ok n : forall r f reqs reqs' f',
  read_requests n r f reqs = Ok (reqs', f') <->
  exists lines triples,
    length lines = n /\ f = lines ++ f' /\
    Forall2 request_parses lines triples /\
    reqs' = reqs ++ number_requests r triples.
Proof.
  induction n as [|n IH]; intros r f reqs reqs' f'; simpl.
  - split.
    + intros H. simplify_eq. exists [], []. rewrite app_nil_r. repeat split; constructor.
    + intros (lines & triples & Hl & -> & Hf & ->).
      destruct lines; [|done]. inversion Hf. by rewrite app_nil_r.
  - split.
    + destruct f as [|l f]; simpl; [done|].
      destruct (length l =? 3)%nat eqn:Hlen; simpl; [|done]. intros H.
      apply bind_Ok_inv in H as (ints & Hi & H).
      destruct ints as [|rv [|re [|rn [|? ?]]]]; try done.
      apply IH in H as (lines & triples & Hl & -> & Hf & ->).
      exists (l :: lines), ((rv, re, rn) :: triples). simpl.
      repeat split; [by rewrite Hl|by constructor|by rewrite <- app_assoc].
    + intros (lines & triples & Hl & -> & Hf & ->).
      destruct Hf as [|l [[rv re] rn] lines triples Hp Hf]; [done|]. simpl in *.
      unfold request_parses in Hp. simpl in Hp.
      pose proof (map_int_length _ _ Hp) as Hlen. simpl in Hlen.
      rewrite <- Hlen. simpl. rewrite Hp. simpl.
      apply IH. exists lines, triples.
      repeat split; [lia|done|by rewrite <- app_assoc].
Qed.

(** *** The parser raises nothing but [ValueError] *)

Lemma read_connections_raise k : forall f cc e,
  read_connections k f cc = Raise e -> exists msg, e = ValueError msg.
Proof.
  induction k as [|k IH]; intros f cc e; simpl; [done|].
  destruct (readline f) as [toks f1].
  destruct (unpack2 toks) as [[c la]|e'] eqn:Hu; simpl.
  - apply IH.
  - intros; simplify_eq. by eapply unpack2_raise.
Qed.

Lemma read_endpoints_raise n : forall f eps e,
  read_endpoints n f eps = Raise e -> exists msg, e = ValueError msg.
Proof.
  induction n as [|n IH]; intros f eps e; simpl; [done|].
  destruct (readline f) as [h f1].
  destruct (length h =? 2)%nat; simpl; [|intros; simplify_eq; by eexists].
  destruct (py_int (nth 0 h "")) as [ldv|e1] eqn:H1; simpl;
    [|intros; simplify_eq; by eapply py_int_raise].
  destruct (py_int (nth 1 h "")) as [k|e2] eqn:H2; simpl;
    [|intros; simplify_eq; by eapply py_int_raise].
  destruct (read_connections (Z.to_nat k) f1 []) as [[cc f2]|e3] eqn:H3; simpl.
  - apply IH.
  - intros; simplify_eq. by eapply read_connections_raise.
Qed.

Lemma read_requests_raise n : forall r f reqs e,
  read_requests n r f reqs = Raise e -> exists msg, e = ValueError msg.
Proof.
  induction n as [|n IH]; intros r f reqs e; simpl; [done|].
  destruct (readline f) as [l f1].
  destruct (length l =? 3)%nat; simpl; [|intros; simplify_eq; by eexists].
  destruct (map_int l) as [ints|e1] eqn:H1; simpl;
    [|intros; simplify_eq; by eapply map_int_raise].
  destruct ints as [|rv [|re [|rn [|? ?]]]]; try (intros; simplify_eq; by eexists).
  apply IH.
Qed.

Lemma lire_instance_raise f e :
  lire_instance f = Raise e -> exists msg, e = ValueError msg.
Proof.
  unfold lire_instance. destruct (readline f) as [header f1].
  destruct header as [|t ts]; [intros; simplify_eq; by eexists|].
  destruct (length (t :: ts) =? 5)%nat; cbn [negb]; [|intros; simplify_eq; by eexists].
  destruct (map_int (t :: ts)) as [ints|e1] eqn:H1; cbn [mbind res_bind];
    [|intros; simplify_eq; by eapply map_int_raise].
  destruct ints as [|V [|E [|R [|C [|X [|? ?]]]]]]; try (intros; simplify_eq; by eexists).
  destruct (readline f1) as [sizes_line f2].
  destruct (Z.of_nat (length sizes_line) =? V); cbn [negb];
    [|intros; simplify_eq; by eexists].
  destruct (map_int sizes_line) as [sizes|e2] eqn:H2; cbn [mbind res_bind];
    [|intros; simplify_eq; by eapply map_int_raise].
  destruct (read_endpoints (Z.to_nat E) f2 []) as [[eps f3]|e3] eqn:H3;
    cbn [mbind res_bind]; [|intros; simplify_eq; by eapply read_endpoints_raise].
  destruct (read_requests (Z.to_nat R) 0 f3 []) as [[reqs f4]|e4] eqn:H4;
    cbn [mbind res_bind]; [done|intros; simplify_eq; by eapply read_requests_raise].
Qed.

(** *** What a successful parse has read *)

Lemma lire_instance_Ok f inst :
  lire_instance f = Ok inst <->
  exists header f1 sizes_line f2 f3 f4,
    f = header :: f1 /\ readline f1 = (sizes_line, f2) /\
    map_int header =
      Ok [inst_V inst; inst_E inst; inst_R inst; inst_C inst; inst_X inst] /\
    Z.of_nat (length sizes_line) = inst_V inst /\
    map_int sizes_line = Ok (video_sizes inst) /\
    read_endpoints (Z.to_nat (inst_E inst)) f2 [] = Ok (endpoints inst, f3) /\
    read_requests (Z.to_nat (inst_R inst)) 0 f3 [] = Ok (requests inst, f4).
Proof.
  unfold lire_instance. split.
  - destruct f as [|header f1]; [done|]. cbn [readline].
    destruct header as [|t ts]; [done|].
    destruct (length (t :: ts) =? 5)%nat; cbn [negb]; [|done]. intros H.
    apply bind_Ok_inv in H as (ints & Hi & H).
    destruct ints as [|V [|E [|R [|C [|X [|? ?]]]]]]; try done.
    destruct (readline f1) as [sizes_line f2] eqn:Hr.
    destruct (Z.of_nat (length sizes_line) =? V) eqn:Hv; cbn [negb] in H; [|done].
    apply Z.eqb_eq in Hv.
    apply bind_Ok_inv in H as (sizes & Hs & H).
    apply bind_Ok_inv in H as ([eps f3] & He & H).
    apply bind_Ok_inv in H as ([reqs f4] & Hq & H). simplify_eq.
    by exists (t :: ts), f1, sizes_line, f2, f3, f4.
  - intros (header & f1 & sizes_line & f2 & f3 & f4 & -> & Hr & Hh & Hv & Hs & He & Hq).
    cbn [readline]. pose proof (map_int_length _ _ Hh) as Hlen. simpl in Hlen.
    destruct header as [|t ts]; [done|]. rewrite <- Hlen. cbn [Nat.eqb negb].
    rewrite Hh. cbn [mbind res_bind]. rewrite Hr.
    rewrite (proj2 (Z.eqb_eq _ _) Hv). cbn [negb].
    rewrite Hs. cbn [mbind res_bind]. rewrite He. cbn [mbind res_bind].
    rewrite Hq. cbn [mbind res_bind]. by destruct inst.
Qed.

(** *** Well-formed text and successful parses *)

Lemma Forall_exists_Forall2 {A B} (P : A -> Prop) (Q : A -> B -> Prop) (l : list A) :
  (forall a, P a -> exists b, Q a b) -> Forall P l -> exists k, Forall2 Q l k.
Proof.
  intros H. induction 1 as [|a l Ha _ [k IH]]; [by exists []|].
  destruct (H a Ha) as [b Hb]. exists (b :: k). by constructor.
Qed.

Lemma Forall2_Forall_l' {A B} (P : A -> Prop) (Q : A -> B -> Prop) (l : list A) k :
  (forall a b, Q a b -> P a) -> Forall2 Q l k -> Forall P l.
Proof. intros H. induction 1; constructor; eauto. Qed.

Lemma block_parses_well_formed b ep : block_parses b ep -> well_formed_block b.
Proof.
  intros (ldv & k & pairs & Hh & Hl & Hu & _). exists ldv, k. repeat split; try done.
  eapply Forall2_Forall_l'; [|exact Hu]. intros l p Hp. apply int_line_unpack2. by exists p.
Qed.

Lemma well_formed_block_parses b : well_formed_block b -> exists ep, block_parses b ep.
Proof.
  intros (ldv & k & Hh & Hl & Hc).
  destruct (Forall_exists_Forall2 _ (fun l p => unpack2 l = Ok p) _
              (fun l => proj1 (int_line_unpack2 l)) Hc) as [pairs Hp].
  exists (mkEndpoint ldv (connections_of [] pairs)). by exists ldv, k, pairs.
Qed.

Lemma request_parses_int_line l t : request_parses l t -> int_line 3 l.
Proof.
  intros H. apply int_line_map_int. eexists. split; [exact H|].
  by rewrite <- (map_int_length _ _ H).
Qed.

Lemma int_line_request_parses l : int_line 3 l -> exists t, request_parses l t.
Proof.
  intros (zs & Hz & Hl)%int_line_map_int.
  pose proof (map_int_length _ _ Hz) as Hlen. rewrite Hl in Hlen.
  destruct zs as [|a [|b [|c [|? ?]]]]; try done. by exists (a, b, c).
Qed.

Lemma flat_map_block_lines_nil blocks :
  flat_map block_lines blocks = [] -> blocks = [].
Proof. by destruct blocks. Qed.

Lemma length_number_requests r triples :
  length (number_requests r triples) = length triples.
Proof.
  revert r. induction triples as [|[[??]?] ts IH]; intros r; simpl; [done|].
  by rewrite IH.
Qed.

(** The counts of a parsed instance are the declared ones. *)
Lemma lire_instance_counts f inst :
  lire_instance f = Ok inst ->
  Z.of_nat (length (video_sizes inst)) = inst_V inst /\
  length (endpoints inst) = Z.to_nat (inst_E inst) /\
  length (requests inst) = Z.to_nat (inst_R inst).
Proof.
  intros (header & f1 & sl & f2 & f3 & f4 & -> & Hr & Hh & Hv & Hs & He & Hq)%lire_instance_Ok.
  split; [by rewrite (map_int_length _ _ Hs)|].
  apply read_endpoints_Ok in He as (blocks & parsed & Hb & _ & Hp & ->).
  apply read_requests_Ok in Hq as (lines & triples & Hl & _ & Ht & ->).
  simpl. split.
  - by rewrite <- (Forall2_length _ _ _ Hp).
  - by rewrite length_number_requests, <- (Forall2_length _ _ _ Ht).
Qed.

Lemma well_formed_parses f V E R C X :
  well_formed f V E R C X <->
  exists inst, lire_instance f = Ok inst /\ inst_V inst = V /\ inst_E inst = E /\
               inst_R inst = R /\ inst_C inst = C /\ inst_X inst = X.
Proof.
  split.
  - intros (header & sizes & blocks & reqs & rest & Hh & HV & Hs & Hb & Hwb & Hq & Hwq & Hf).
    apply int_line_map_int in Hs as (zs & Hzs & Hlen).
    destruct (Forall_exists_Forall2 _ block_parses _ well_formed_block_parses Hwb)
      as [parsed Hp].
    destruct (Forall_exists_Forall2 _ request_parses _ int_line_request_parses Hwq)
      as [triples Ht].
    exists (mkInstance V E R C X zs parsed (number_requests 0 triples)).
    split; [|done]. apply lire_instance_Ok. cbn [inst_V inst_E inst_R inst_C inst_X
      video_sizes endpoints requests].
    destruct Hf as [->|(-> & -> & -> & ->)].
    + exists header, (sizes :: flat_map block_lines blocks ++ reqs ++ rest), sizes,
        (flat_map block_lines blocks ++ reqs ++ rest), (reqs ++ rest), rest.
      repeat split; try done; [lia| |].
      * apply read_endpoints_Ok. by exists blocks, parsed.
      * apply read_requests_Ok. by exists reqs, triples.
    + exists header, [], [], [], [], [].
      repeat split; try done; [simpl in *; lia| |].
      * apply read_endpoints_Ok. by exists [], parsed.
      * apply read_requests_Ok. by exists [], triples.
  - intros (inst & Hi & <- & <- & <- & <- & <-).
    apply lire_instance_Ok in Hi
      as (header & f1 & sl & f2 & f3 & f4 & -> & Hr & Hh & Hv & Hs & He & Hq).
    apply read_endpoints_Ok in He as (blocks & parsed & Hb & -> & Hp & _).
    apply read_requests_Ok in Hq as (lines & triples & Hl & -> & Ht & _).
    exists header, sl, blocks, lines, f4.
    split; [done|]. split; [lia|]. split.
    { apply int_line_map_int. eexists. split; [exact Hs|lia]. }
    split; [done|]. split.
    { eapply Forall2_Forall_l'; [|exact Hp]. apply block_parses_well_formed. }
    split; [done|]. split.
    { eapply Forall2_Forall_l'; [|exact Ht]. apply request_parses_int_line. }
    destruct f1 as [|l f1]; simpl in Hr; simplify_eq.
    + right. symmetry in H0. apply app_eq_nil in H0 as [Hbl [-> ->]%app_eq_nil].
      apply flat_map_block_lines_nil in Hbl. by subst.
    + by left.
Qed.

(** C3, as the code has it, on the text of a file of ASCII characters that
    could be opened: the parser succeeds exactly on the texts that start
    with a well-formed instance, whatever follows it.  It then returns as
    many sizes as [V] declares, and as many endpoints and requests as [E]
    and [R] declare when these are not negative, none when they are
    negative: a negative [E], [R] or number of connections is accepted and
    read as zero.  On any other text it raises [ValueError], the program's
    malformed-instance error, and it raises nothing else.  Lines after the
    last declared request line are never read. *)
Theorem lire_instance_accepts_well_formed_prefix f :
  ascii_text f = true ->
  (forall V E R C X,
     well_formed f V E R C X <->
     exists inst, lire_instance f = Ok inst /\ inst_V inst = V /\ inst_E inst = E /\
                  inst_R inst = R /\ inst_C inst = C /\ inst_X inst = X) /\
  (forall inst, lire_instance f = Ok inst ->
     Z.of_nat (length (video_sizes inst)) = inst_V inst /\
     Z.of_nat (length (endpoints inst)) = Z.max 0 (inst_E inst) /\
     Z.of_nat (length (requests inst)) = Z.max 0 (inst_R inst)) /\
  (forall e, lire_instance f = Raise e -> exists msg, e = ValueError msg) /\
  ((forall V E R C X, ~ well_formed f V E R C X) ->
   exists msg, lire_instance f = Raise (ValueError msg)).
Proof.
  intros _.
  split; [intros; apply well_formed_parses|].
  split; [intros inst (HV & HE & HR)%lire_instance_counts; lia|].
  split; [apply lire_instance_raise|].
  intros Hnwf. destruct (lire_instance f) as [inst|e] eqn:Hi.
  - exfalso. apply (Hnwf (inst_V inst) (inst_E inst) (inst_R inst) (inst_C inst) (inst_X inst)).
    apply well_formed_parses. by exists inst.
  - destruct (lire_instance_raise _ _ Hi) as [msg ->]. by exists msg.
Qed.

Lemma lire_instance_accepts_well_formed_prefix_witness :
  well_formed negative_counts_file 1 1 (-2) 1 10 /\
  lire_instance negative_counts_file = Ok negative_counts_instance /\
  Z.of_nat (length (requests negative_counts_instance)) = Z.max 0 (-2).
Proof.
  destruct (lire_instance_accepts_well_formed_prefix negative_counts_file eq_refl)
    as (Hwf & Hcounts & _).
  assert (lire_instance negative_counts_file = Ok negative_counts_instance) as Hp
    by reflexivity.
  split; [|split; [exact Hp|]].
  - apply Hwf. exists negative_counts_instance. by repeat split.
  - by destruct (Hcounts _ Hp) as (_ & _ & HR).
Defined.

(** C3, counterexample: with R = 0 declared, a further request line, or a
    further line with a wrong number of fields, is accepted. *)
Lemma trailing_lines_are_accepted :
  lire_instance [["1"; "0"; "0"; "1"; "10"]; ["5"]; ["0"; "0"; "3"]] =
    Ok (mkInstance 1 0 0 1 10 [5] [] []) /\
  lire_instance [["1"; "0"; "0"; "1"; "10"]; ["5"]; ["7"]] =
    Ok (mkInstance 1 0 0 1 10 [5] [] []).
Proof. split; reflexivity. Qed.

(** *** Parsing the text of an instance *)

Lemma int_readable_str z : int_readable z = true -> py_int (str z) = Ok z.
Proof. intros Hz. by apply py_int_str, Z.ltb_lt. Qed.

Lemma map_int_render zs :
  Forall (fun z => int_readable z = true) zs -> map_int (render_ints zs) = Ok zs.
Proof.
  induction 1 as [|z zs Hz _ IH]; [done|].
  unfold render_ints in *. rewrite fmap_cons. cbn [map_int].
  by rewrite (int_readable_str z Hz), IH.
Qed.

Lemma connections_of_fresh pairs : forall cc : list (Z * Z),
  NoDup (keys cc ++ keys pairs) -> connections_of cc pairs = cc ++ pairs.
Proof.
  induction pairs as [|p pairs IH]; intros cc Hnd; simpl.
  - by rewrite app_nil_r.
  - assert (dict_get cc p.1 = None) as Hnone.
    { apply dict_get_None. apply NoDup_app in Hnd as (_ & Hd & _).
      intros Hin. apply (Hd _ Hin). by left. }
    unfold connections_of in *. simpl. rewrite (dict_set_fresh _ _ _ Hnone).
    rewrite IH.
    + rewrite <- app_assoc. by destruct p.
    + rewrite keys_app, <- app_assoc. by destruct p.
Qed.

Lemma block_of_parses ep :
  NoDup (keys (caches ep)) ->
  Forall (fun z => int_readable z = true) (endpoint_integers ep) ->
  block_parses (block_of ep) ep.
Proof.
  intros Hnd Hr. unfold endpoint_integers in Hr.
  apply Forall_cons in Hr as [Hld Hr]. apply Forall_cons in Hr as [Hk Hr].
  exists (ld ep), (Z.of_nat (length (caches ep))), (caches ep).
  unfold block_of. cbn [fst snd]. split; [apply map_int_render; by repeat constructor|].
  split; [by rewrite length_fmap, Nat2Z.id|]. split.
  - apply Forall2_fmap_l, Forall_Forall2_diag, Forall_forall. intros p Hp.
    apply unpack2_Ok. exists (str p.1), (str p.2). split; [done|].
    assert (forall z, z ∈ [p.1; p.2] -> int_readable z = true) as Hz.
    { intros z Hin. apply (proj1 (Forall_forall _ _) Hr).
      apply list_elem_of_In, in_flat_map. exists p. split; by apply list_elem_of_In. }
    split; apply int_readable_str, Hz; [by left|by right; left].
  - rewrite connections_of_fresh by done. by destruct ep.
Qed.

Lemma flat_map_render_endpoint eps :
  flat_map render_endpoint eps = flat_map block_lines (block_of <$> eps).
Proof. induction eps as [|ep eps IH]; simpl; [done|]. by rewrite IH. Qed.

Lemma number_requests_ids reqs : forall a,
  req_id <$> reqs = Z.of_nat <$> seq a (length reqs) ->
  number_requests (Z.of_nat a) (triple_of <$> reqs) = reqs.
Proof.
  induction reqs as [|[i v e n] reqs IH]; intros a H; [done|].
  rewrite fmap_cons in H. cbn [length seq] in H. rewrite fmap_cons in H.
  injection H as Hq Hr. cbn [req_id] in Hq. subst i.
  rewrite fmap_cons. unfold triple_of at 1.
  cbn [number_requests req_video req_endpoint req_count]. f_equal.
  replace (Z.of_nat a + 1) with (Z.of_nat (S a)) by lia. by apply IH.
Qed.

(** Every instance with the shape of a parsed one, whatever its
    identifiers, is what the parser returns on its text, followed by
    anything, as long as [int] can read its integers. *)
Lemma parse_render inst rest :
  Z.of_nat (length (video_sizes inst)) = inst_V inst ->
  length (endpoints inst) = Z.to_nat (inst_E inst) ->
  length (requests inst) = Z.to_nat (inst_R inst) ->
  Forall (fun ep => NoDup (keys (caches ep))) (endpoints inst) ->
  (req_id <$> requests inst = range (inst_R inst)) ->
  forallb int_readable (integers inst) = true ->
  lire_instance (render inst ++ rest) = Ok inst.
Proof.
  intros HV HE HR Hnd Hids Hint. apply forallb_Forall_true in Hint.
  unfold integers in Hint.
  apply Forall_app in Hint as [Hh Hint]. apply Forall_app in Hint as [Hs Hint].
  apply Forall_app in Hint as [He Hq].
  apply lire_instance_Ok.
  exists (render_ints [inst_V inst; inst_E inst; inst_R inst; inst_C inst; inst_X inst]),
    (render_ints (video_sizes inst) ::
     flat_map render_endpoint (endpoints inst) ++ (render_request <$> requests inst) ++ rest),
    (render_ints (video_sizes inst)),
    (flat_map render_endpoint (endpoints inst) ++ (render_request <$> requests inst) ++ rest),
    ((render_request <$> requests inst) ++ rest), rest.
  split; [unfold render; simpl; by rewrite <- app_assoc|].
  split; [done|]. split; [by apply map_int_render|].
  split; [unfold render_ints; by rewrite length_fmap|].
  split; [by apply map_int_render|]. split.
  - apply read_endpoints_Ok. exists (block_of <$> endpoints inst), (endpoints inst).
    split; [by rewrite length_fmap|].
    split; [by rewrite flat_map_render_endpoint|]. split; [|done].
    apply Forall2_fmap_l, Forall_Forall2_diag, Forall_forall. intros ep Hep.
    apply block_of_parses; [by apply (proj1 (Forall_forall _ _) Hnd)|].
    apply Forall_forall. intros z Hz. apply (proj1 (Forall_forall _ _) He).
    apply list_elem_of_In, in_flat_map. exists ep. split; by apply list_elem_of_In.
  - apply read_requests_Ok.
    exists (render_request <$> requests inst), (triple_of <$> requests inst).
    split; [by rewrite length_fmap|]. split; [done|]. split.
    + apply Forall2_fmap, Forall_Forall2_diag, Forall_forall. intros q Hin.
      apply map_int_render. apply Forall_forall. intros z Hz.
      apply (proj1 (Forall_forall _ _) Hq).
      apply list_elem_of_In, in_flat_map. exists q. split; by apply list_elem_of_In.
    + simpl. symmetry. apply (number_requests_ids _ 0%nat).
      rewrite Hids. unfold range. by rewrite HR.
Qed.

Lemma shaped_counts inst :
  shaped inst ->
  Z.of_nat (length (video_sizes inst)) = inst_V inst /\
  length (endpoints inst) = Z.to_nat (inst_E inst) /\
  length (requests inst) = Z.to_nat (inst_R inst).
Proof. intros (HV & HE & HR & _). rewrite HV, HE, HR. by rewrite !Nat2Z.id. Qed.

(** ** Identifiers out of range *)

Lemma py_index_ok {A} (l : list A) i :
  is_ok (py_index l i) = true <-> - Z.of_nat (length l) <= i < Z.of_nat (length l).
Proof.
  unfold py_index.
  destruct (i <? 0) eqn:Hi; [apply Z.ltb_lt in Hi|apply Z.ltb_ge in Hi].
  - destruct (i + Z.of_nat (length l) <? 0) eqn:H1; simpl;
      [apply Z.ltb_lt in H1; split; [done|lia]|apply Z.ltb_ge in H1].
    destruct (Z.of_nat (length l) <=? i + Z.of_nat (length l)) eqn:H2; simpl;
      [apply Z.leb_le in H2; lia|apply Z.leb_gt in H2].
    destruct (l !! Z.to_nat (i + Z.of_nat (length l))) eqn:Hl; simpl; [split; [lia|done]|].
    apply lookup_ge_None in Hl. lia.
  - destruct (i <? 0) eqn:H1; simpl; [apply Z.ltb_lt in H1; lia|].
    destruct (Z.of_nat (length l) <=? i) eqn:H2; simpl;
      [apply Z.leb_le in H2; split; [done|lia]|apply Z.leb_gt in H2].
    destruct (l !! Z.to_nat i) eqn:Hl; simpl; [split; [lia|done]|].
    apply lookup_ge_None in Hl. lia.
Qed.

Lemma py_index_raise {A} (l : list A) i e : py_index l i = Raise e -> e = IndexError.
Proof.
  unfold py_index. destruct (_ || _); [by intros; simplify_eq|].
  destruct (l !! _); by intros; simplify_eq.
Qed.

Lemma cache_iter_raise sizes r ldv st it e :
  cache_iter sizes r ldv st it = Raise e -> e = KeyError \/ e = IndexError.
Proof.
  destruct st as [[m x cap] ys], it as [cid lc]. unfold cache_iter.
  destruct (lc >=? ldv); [done|]. unfold x_lookup.
  destruct (dict_mem x (req_video r, cid)) eqn:Hm; cbn [mbind res_bind].
  - unfold dict_mem in Hm. destruct (dict_get x (req_video r, cid)); [|done].
    cbn [mbind res_bind]. done.
  - cbn [addVar]. destruct (cap !! cid); [|simpl; intros; simplify_eq; by left].
    destruct (dict_get (dict_set _ _ _) _) eqn:H1;
      [|simpl; intros; simplify_eq; by left].
    destruct (py_index sizes (req_video r)) eqn:H2;
      [|simpl; intros; simplify_eq; right; by eapply py_index_raise].
    cbn [mbind res_bind]. rewrite H1. cbn [mbind res_bind]. done.
Qed.

Lemma request_iter_raise sizes eps st r e :
  request_iter sizes eps st r = Raise e -> e = KeyError \/ e = IndexError.
Proof.
  unfold request_iter.
  destruct (py_index eps (req_endpoint r)) as [ep|e1] eqn:H1; cbn [mbind res_bind];
    [|intros; simplify_eq; right; by eapply py_index_raise].
  destruct (foldM _ _ _) as [[st1 ys]|e2] eqn:H2; cbn [mbind res_bind].
  - by destruct ys.
  - intros; simplify_eq.
    apply (foldM_raise (cache_iter sizes r (ld ep))
             (fun e => e = KeyError \/ e = IndexError) (caches ep)) with (st, []);
      [|exact H2].
    intros ??? _. apply cache_iter_raise.
Qed.

Lemma capacity_iter_raise X cap m c e :
  capacity_iter X cap m c = Raise e -> e = KeyError.
Proof.
  unfold capacity_iter. destruct (cap !! c); [by destruct (_ <? _)|].
  by intros; simplify_eq.
Qed.

Lemma build_raise inst e : build inst = Raise e -> e = KeyError \/ e = IndexError.
Proof.
  unfold build, process_requests.
  destruct (foldM (request_iter _ _) _ _) as [st|e1] eqn:H1; cbn [mbind res_bind].
  - destruct (foldM (capacity_iter _ _) _ _) as [m|e2] eqn:H2; cbn [mbind res_bind];
      [done|]. intros; simplify_eq. left.
    apply (foldM_raise (capacity_iter (inst_X inst) (bs_capacity st))
             (fun e => e = KeyError) (range (inst_C inst))) with (bs_model st);
      [|exact H2].
    intros ??? _. apply capacity_iter_raise.
  - intros; simplify_eq.
    apply (foldM_raise (request_iter (video_sizes inst) (endpoints inst))
             (fun e => e = KeyError \/ e = IndexError) (requests inst))
      with (init_state (inst_C inst)); [|exact H1].
    intros ??? _. apply request_iter_raise.
Qed.

(** *** The model is built exactly when every request is usable *)

Lemma cache_iter_total sizes C r ldv st ys it :
  build_inv sizes C st ->
  (it.2 < ldv -> 0 <= it.1 < C /\ is_ok (py_index sizes (req_video r)) = true) ->
  exists s', cache_iter sizes r ldv (st, ys) it = Ok s'.
Proof.
  intros Hinv Hit. destruct it as [cid lc]. simpl in Hit.
  destruct (decide (lc < ldv)) as [Hlt|Hge];
    [|eexists; apply cache_iter_skip; lia].
  destruct (Hit Hlt) as [Hc Hs]. destruct st as [m x cap].
  unfold cache_iter. rewrite Z.geb_leb, (proj2 (Z.leb_gt _ _) Hlt).
  unfold dict_mem, x_lookup.
  destruct (dict_get x (req_video r, cid)) as [xv|] eqn:Hx; cbn [mbind res_bind].
  - rewrite Hx. cbn [mbind res_bind]. by eexists.
  - cbn [addVar]. rewrite (inv_cap _ _ _ Hinv). cbn [bs_x]. rewrite decide_True by done.
    rewrite (dict_set_fresh _ _ _ Hx), (dict_get_app_r _ _ _ Hx).
    cbn [dict_get]. rewrite decide_True by done. cbn [mbind res_bind].
    destruct (py_index sizes (req_video r)) as [size|]; [|done]. cbn [mbind res_bind].
    rewrite (dict_get_app_r _ _ _ Hx). cbn [dict_get]. rewrite decide_True by done.
    cbn [mbind res_bind]. by eexists.
Qed.

Lemma request_iter_total inst st r :
  build_inv (video_sizes inst) (inst_C inst) st -> usable inst r ->
  exists st', request_iter (video_sizes inst) (endpoints inst) st r = Ok st' /\
              build_inv (video_sizes inst) (inst_C inst) st'.
Proof.
  intros Hinv [He Hu].
  destruct (py_index (endpoints inst) (req_endpoint r)) as [ep|] eqn:Hep;
    [|by apply py_index_ok in He; rewrite Hep in He].
  destruct (foldM_total (cache_iter (video_sizes inst) r (ld ep))
              (fun s => build_inv (video_sizes inst) (inst_C inst) s.1) (caches ep))
    with (a := (st, @nil nat)) as ([st1 ys] & Hf & Hinv1); [|done|].
  { intros [a ya] [c lc] Hin Ha. cbn [fst] in Ha.
    destruct (cache_iter_total (video_sizes inst) (inst_C inst) r (ld ep) a ya (c, lc) Ha)
      as [[a' ya'] Hs].
    - simpl. intros Hlt. destruct (Hu ep c lc eq_refl Hin Hlt) as [? ?].
      split; [done|]. by apply py_index_ok.
    - exists (a', ya'). split; [done|]. cbn [fst]. by eapply cache_iter_inv_pres. }
  assert (exists st', request_iter (video_sizes inst) (endpoints inst) st r = Ok st')
    as [st' Hr].
  { unfold request_iter. rewrite Hep. cbn [mbind res_bind]. rewrite Hf.
    cbn [mbind res_bind]. destruct ys; by eexists. }
  exists st'. split; [done|]. exact (request_iter_inv_pres _ _ _ _ _ _ Hinv Hr).
Qed.

Lemma build_total inst :
  (forall r, r ∈ requests inst -> usable inst r) -> is_ok (build inst) = true.
Proof.
  intros Hu. unfold build, process_requests.
  destruct (foldM_total (request_iter (video_sizes inst) (endpoints inst))
              (build_inv (video_sizes inst) (inst_C inst)) (requests inst))
    with (a := init_state (inst_C inst)) as (st & Hst & Hinv).
  { intros a r Hr Ha. apply request_iter_total; [done|by apply Hu]. }
  { apply init_inv. }
  rewrite Hst. cbn [mbind res_bind].
  destruct (foldM_total (capacity_iter (inst_X inst) (bs_capacity st))
              (fun _ => True) (range (inst_C inst))) with (a := bs_model st)
    as (m & Hm & _); [|done|by rewrite Hm].
  intros a c Hc _. unfold capacity_iter. rewrite (inv_cap _ _ _ Hinv).
  apply elem_of_range in Hc. rewrite decide_True by done.
  destruct (_ <? _); by eexists.
Qed.

Lemma process_endpoints_ok sizes eps rs : forall st st',
  foldM (request_iter sizes eps) st rs = Ok st' ->
  forall r, r ∈ rs -> is_ok (py_index eps (req_endpoint r)) = true.
Proof.
  induction rs as [|q rs IH]; intros st st' H r Hr; [by apply elem_of_nil in Hr|].
  rewrite foldM_cons in H. apply bind_Ok_inv in H as (st1 & Hq & H).
  apply elem_of_cons in Hr as [->|Hr]; [|by eapply IH].
  unfold request_iter in Hq. by destruct (py_index eps (req_endpoint q)).
Qed.

Lemma delta_keys_cover eps st st' E A :
  delta eps st st' E A ->
  forall e, e ∈ E -> (req_video e.1, e.2.1) ∈ keys (bs_x st').
Proof.
  intros Hd e He. destruct (d_links _ _ _ _ _ Hd) as (added & _ & Hf).
  apply list_elem_of_lookup in He as [k Hk].
  destruct (Forall2_lookup_r _ _ _ _ _ Hf Hk) as (c & _ & (y & xv & _ & _ & Hx)).
  by eapply dict_get_Some_key.
Qed.

Lemma build_ok_usable inst :
  is_ok (build inst) = true -> forall r, r ∈ requests inst -> usable inst r.
Proof.
  destruct (build inst) as [[m x]|] eqn:Hb; [|done]. intros _ r Hr.
  destruct (build_inv_spec _ _ _ Hb) as (st & Hst & Hinv & Hd & _).
  pose proof (process_endpoints_ok _ _ _ _ _ Hst r Hr) as Hep.
  split; [by apply py_index_ok|].
  intros ep c lc Hi Hin Hlt.
  assert ((r, (c, lc)) ∈ eligible_pairs (endpoints inst) (requests inst)) as He.
  { apply elem_of_eligible_pairs. split; [done|]. by exists ep. }
  apply (delta_keys_cover _ _ _ _ _ Hd) in He. cbn [fst snd] in He.
  destruct (inv_keys _ _ _ Hinv _ He) as [Hc Hs]. cbn [fst snd] in *.
  split; [done|]. by apply py_index_ok.
Qed.

(** C10, as the code has it: the parser bounds no identifier, since every
    shaped instance is parsed back from its text whatever its identifiers,
    as long as its integers have the at most 4300 digits that [int] reads.
    On an instance within the range of numbers that the solver library
    takes, the construction raises nothing but [KeyError] and [IndexError],
    and it succeeds exactly when every request is usable, that is, when its
    endpoint identifier lies in [[-E, E)] and, for each of its eligible
    caches, the cache identifier lies in [[0, C)] and the video identifier
    in [[-V, V)].  Negative identifiers within these bounds count from the
    end of the list and raise nothing. *)
Theorem identifiers_fail_only_outside_index_range inst :
  (shaped inst -> forallb int_readable (integers inst) = true ->
   forall rest, lire_instance (render inst ++ rest) = Ok inst) /\
  (solver_range inst = true ->
   (forall e, build inst = Raise e -> e = KeyError \/ e = IndexError) /\
   (is_ok (build inst) = true <-> forall r, r ∈ requests inst -> usable inst r)).
Proof.
  split.
  - intros Hs Hint rest. destruct (shaped_counts _ Hs) as (HV & HE & HR).
    destruct Hs as (_ & _ & _ & Hnd & Hids). by apply parse_render.
  - intros _. split; [apply build_raise|].
    split; [apply build_ok_usable|apply build_total].
Qed.

Lemma identifiers_fail_only_outside_index_range_witness :
  lire_instance (render stray_cache_instance ++ [["7"]]) = Ok stray_cache_instance /\
  build stray_cache_instance = Raise KeyError /\
  ~ (forall r, r ∈ requests stray_cache_instance -> usable stray_cache_instance r).
Proof.
  destruct (identifiers_fail_only_outside_index_range stray_cache_instance) as [Hp Hb].
  split; [|split].
  - apply Hp; [|vm_compute; reflexivity].
    repeat split; try reflexivity. repeat constructor; set_solver.
  - vm_compute. reflexivity.
  - destruct (Hb ltac:(vm_compute; reflexivity)) as [_ Hok].
    intros Hu. apply Hok in Hu. vm_compute in Hu. discriminate Hu.
Defined.

(** C10, counterexample: video -1 and endpoint -1 lie outside [[0, V)] and
    [[0, E)], are accepted by the parser and are used by an eligible pair, yet
    the model is built: they designate the last video and the last
    endpoint. *)
Lemma negative_identifiers_build :
  lire_instance negative_ids_file = Ok negative_ids_instance /\
  build negative_ids_instance = Ok (negative_ids_model, [((-1, 0), 0%nat)]) /\
  eligible_of (endpoints negative_ids_instance) (mkRequest 0 (-1) (-1) 3) = [(0, 10)].
Proof. repeat split; vm_compute; reflexivity. Qed.

(** ** Further properties of the parser *)

Lemma number_requests_req_id triples : forall r,
  req_id <$> number_requests r triples =
  (fun i => r + Z.of_nat i) <$> seq 0 (length triples).
Proof.
  induction triples as [|[[rv re] rn] ts IH]; intros r; [done|].
  cbn [number_requests length seq]. rewrite !fmap_cons. cbn [req_id].
  f_equal; [lia|]. rewrite IH, <- seq_shift, <- list_fmap_compose.
  apply list_fmap_ext. intros _ i _. simpl. lia.
Qed.

Lemma lire_instance_req_ids f inst :
  lire_instance f = Ok inst -> req_id <$> requests inst = range (inst_R inst).
Proof.
  intros (header & f1 & sl & f2 & f3 & f4 & -> & Hr & Hh & Hv & Hs & He & Hq)%lire_instance_Ok.
  apply read_requests_Ok in Hq as (lines & triples & Hl & _ & Ht & ->).
  simpl. rewrite number_requests_req_id. unfold range.
  rewrite <- (Forall2_length _ _ _ Ht), Hl. done.
Qed.

Lemma dict_set_keys_NoDup (d : list (Z * Z)) k v :
  NoDup (keys d) -> NoDup (keys (dict_set d k v)).
Proof.
  intros Hnd. destruct (dict_get d k) as [v0|] eqn:Hg.
  - rewrite keys_dict_set_present; [done|]. by eapply dict_get_Some_key.
  - rewrite (dict_set_fresh _ _ _ Hg), keys_app. simpl.
    apply NoDup_app. split; [done|]. split; [|apply NoDup_singleton].
    intros k' Hin ->%list_elem_of_singleton. by apply dict_get_None in Hg.
Qed.

Lemma connections_of_NoDup pairs : forall cc : list (Z * Z),
  NoDup (keys cc) -> NoDup (keys (connections_of cc pairs)).
Proof.
  induction pairs as [|p pairs IH]; intros cc Hnd; [done|].
  unfold connections_of in *. simpl. apply IH. by apply dict_set_keys_NoDup.
Qed.

Lemma lire_instance_caches_NoDup f inst :
  lire_instance f = Ok inst ->
  Forall (fun ep => NoDup (keys (caches ep))) (endpoints inst).
Proof.
  intros (header & f1 & sl & f2 & f3 & f4 & -> & Hr & Hh & Hv & Hs & He & Hq)%lire_instance_Ok.
  apply read_endpoints_Ok in He as (blocks & parsed & Hb & _ & Hp & ->).
  simpl. clear -Hp. induction Hp as [|b ep blocks parsed Hbp Hp IH]; constructor; [|done].
  destruct Hbp as (ldv & k & pairs & _ & _ & _ & ->). simpl.
  apply connections_of_NoDup. constructor.
Qed.

(** X1: the requests of a parsed instance are numbered 0, 1, ..., R-1 in
    the order of their lines, so their identifiers are pairwise distinct and
    a request's identifier is its position in the list. *)
Theorem parsed_requests_are_numbered f inst :
  lire_instance f = Ok inst ->
  req_id <$> requests inst = range (inst_R inst) /\
  NoDup (req_id <$> requests inst) /\
  (forall i r, requests inst !! i = Some r -> req_id r = Z.of_nat i).
Proof.
  intros H. pose proof (lire_instance_req_ids _ _ H) as Hids.
  split; [done|]. split; [rewrite Hids; apply NoDup_range|].
  intros i r Hi.
  assert ((req_id <$> requests inst) !! i = Some (req_id r)) as Hl
    by (by rewrite list_lookup_fmap, Hi).
  rewrite Hids in Hl. unfold range in Hl. rewrite list_lookup_fmap in Hl.
  destruct (seq 0 (Z.to_nat (inst_R inst)) !! i) as [j|] eqn:Hj; [|done].
  apply lookup_seq in Hj as [-> _]. simpl in Hl. by simplify_eq.
Qed.

Lemma parsed_requests_are_numbered_witness :
  lire_instance (example_file "10") = Ok (example_instance 10) /\
  req_id <$> requests (example_instance 10) = range (inst_R (example_instance 10)).
Proof.
  assert (lire_instance (example_file "10") = Ok (example_instance 10)) as H
    by (vm_compute; reflexivity).
  split; [exact H|]. exact (proj1 (parsed_requests_are_numbered _ _ H)).
Defined.

Lemma elem_of_first_ids l c : c ∈ first_ids l <-> c ∈ l.
Proof.
  induction l as [|q l IH]; simpl; [done|].
  rewrite !elem_of_cons, list_elem_of_filter, IH.
  destruct (decide (c = q)) as [->|Hne]; [by split; left|].
  split; [intros [?|[_ ?]]; by auto | intros [?|?]; by auto].
Qed.

Lemma connections_of_keys pairs : forall cc : list (Z * Z),
  keys (connections_of cc pairs) =
  keys cc ++ filter (fun c => c ∉ keys cc) (first_ids (pairs.*1)).
Proof.
  induction pairs as [|[k v] pairs IH]; intros cc.
  - simpl. by rewrite app_nil_r.
  - change (connections_of cc ((k, v) :: pairs))
      with (connections_of (dict_set cc k v) pairs).
    rewrite IH. rewrite fmap_cons. cbn [first_ids fst].
    destruct (decide (k ∈ keys cc)) as [Hin|Hin].
    + rewrite keys_dict_set_present by done. f_equal.
      rewrite filter_cons_False by (by intros ?).
      rewrite list_filter_filter. apply list_filter_iff. intros c.
      split; [intros Hc; split; [done|]; by intros -> | by intros [? _]].
    + rewrite dict_set_fresh by (by apply dict_get_None).
      rewrite keys_app, <- app_assoc. f_equal.
      rewrite filter_cons_True by done. simpl. f_equal.
      rewrite list_filter_filter. apply list_filter_iff. intros c.
      rewrite not_elem_of_app, list_elem_of_singleton. by split; intros [? ?].
Qed.

Lemma dict_get_snoc (d : list (Z * Z)) k v c :
  dict_get (d ++ [(k, v)]) c =
  match dict_get d c with
  | Some v' => Some v'
  | None => if decide (c = k) then Some v else None
  end.
Proof.
  destruct (dict_get d c) as [v'|] eqn:Hd.
  - by apply dict_get_app_l.
  - by rewrite dict_get_app_r.
Qed.

Lemma connections_of_get pairs : forall (cc : list (Z * Z)) c,
  dict_get (connections_of cc pairs) c =
  match dict_get (reverse pairs) c with
  | Some v => Some v
  | None => dict_get cc c
  end.
Proof.
  induction pairs as [|[k v] pairs IH]; intros cc c; [done|].
  change (connections_of cc ((k, v) :: pairs))
    with (connections_of (dict_set cc k v) pairs).
  rewrite IH, reverse_cons, dict_get_snoc, dict_get_set.
  destruct (dict_get (reverse pairs) c); [done|]. by destruct (decide (c = k)).
Qed.

(** X2: the connection loop of an endpoint keeps one entry per cache
    identifier.  When it has read its [k] lines, the dictionary holds the
    identifiers of these lines without repetition, each at the place of its
    first line, and the latency of an identifier is that of its last
    line. *)
Theorem repeated_cache_keeps_last_latency k f d f' :
  read_connections k f [] = Ok (d, f') ->
  exists pairs,
    Forall2 (fun l p => unpack2 l = Ok p) (take k f) pairs /\
    length pairs = k /\ f' = drop k f /\
    NoDup (keys d) /\
    keys d = first_ids (pairs.*1) /\
    (forall c, dict_get d c = dict_get (reverse pairs) c).
Proof.
  intros (conns & pairs & Hl & -> & Hf & ->)%read_connections_Ok.
  exists pairs. rewrite take_app_length' by done. rewrite drop_app_length' by done.
  split; [done|]. split; [by rewrite <- (Forall2_length _ _ _ Hf)|]. split; [done|].
  split; [apply connections_of_NoDup; constructor|]. split.
  - rewrite connections_of_keys. simpl. apply filter_all_prop.
    intros c _. apply not_elem_of_nil.
  - intros c. rewrite connections_of_get. by destruct (dict_get (reverse pairs) c).
Qed.

Lemma repeated_cache_keeps_last_latency_witness :
  read_connections 3 [["4"; "70"]; ["2"; "50"]; ["4"; "30"]; ["9"]] [] =
    Ok ([(4, 30); (2, 50)], [["9"]]) /\
  exists pairs : list (Z * Z),
    length pairs = 3%nat /\ keys [(4, 30); (2, 50)] = first_ids (pairs.*1).
Proof.
  assert (read_connections 3 [["4"; "70"]; ["2"; "50"]; ["4"; "30"]; ["9"]] [] =
          Ok ([(4, 30); (2, 50)], [["9"]])) as H by (vm_compute; reflexivity).
  split; [exact H|].
  destruct (repeated_cache_keeps_last_latency _ _ _ _ H) as (pairs & _ & Hl & _ & _ & Hk & _).
  exists pairs. split; [exact Hl|exact Hk].
Defined.

(** *** The integers of a parsed instance *)

Lemma map_int_readable l zs :
  map_int l = Ok zs -> Forall (fun z => int_readable z = true) zs.
Proof.
  intros H%map_int_Forall2. induction H as [|t z l zs Ht _ IH]; constructor; [|done].
  apply Z.ltb_lt. by eapply py_int_bounds.
Qed.

Lemma unpack2_readable l p :
  unpack2 l = Ok p -> int_readable p.1 = true /\ int_readable p.2 = true.
Proof.
  intros (a & b & _ & Ha & Hb)%unpack2_Ok.
  split; apply Z.ltb_lt; by eapply py_int_bounds.
Qed.

Lemma dict_set_Forall (P : Z * Z -> Prop) (d : list (Z * Z)) k v :
  Forall P d -> P (k, v) -> Forall P (dict_set d k v).
Proof.
  induction d as [|[k' v'] d IH]; simpl; intros Hd Hp; [by constructor|].
  apply Forall_cons in Hd as [H1 H2].
  destruct (decide (k = k')) as [->|]; constructor; auto.
Qed.

Lemma connections_of_Forall (P : Z * Z -> Prop) pairs : forall cc : list (Z * Z),
  Forall P cc -> Forall P pairs -> Forall P (connections_of cc pairs).
Proof.
  induction pairs as [|[c lc] pairs IH]; intros cc Hcc Hp; [done|].
  apply Forall_cons in Hp as [H1 H2]. unfold connections_of. simpl.
  apply IH; [|done]. by apply dict_set_Forall.
Qed.

Lemma length_dict_set (d : list (Z * Z)) k v : (length (dict_set d k v) <= S (length d))%nat.
Proof.
  induction d as [|[k' v'] d IH]; simpl; [done|].
  destruct (decide (k = k')); simpl; lia.
Qed.

Lemma length_connections_of pairs : forall cc : list (Z * Z),
  (length (connections_of cc pairs) <= length cc + length pairs)%nat.
Proof.
  induction pairs as [|[c lc] pairs IH]; intros cc; simpl; [lia|].
  unfold connections_of in *. simpl. etrans; [apply IH|].
  pose proof (length_dict_set cc c lc). lia.
Qed.

Lemma block_parses_readable b ep :
  block_parses b ep -> Forall (fun z => int_readable z = true) (endpoint_integers ep).
Proof.
  intros (ldv & k & pairs & Hh & Hl & Hu & ->).
  apply map_int_readable in Hh. apply Forall_cons in Hh as [Hld Hh].
  apply Forall_cons in Hh as [Hk _].
  unfold endpoint_integers. cbn [ld caches].
  constructor; [done|]. constructor.
  - pose proof (length_connections_of pairs []) as Hlen.
    rewrite <- (Forall2_length _ _ _ Hu), Hl in Hlen. simpl in Hlen.
    unfold int_readable in *. apply Z.ltb_lt in Hk. apply Z.ltb_lt. lia.
  - assert (Forall (fun p : Z * Z => int_readable p.1 = true /\ int_readable p.2 = true)
              (connections_of [] pairs)) as Hc.
    { apply connections_of_Forall; [constructor|].
      eapply Forall2_Forall_r; [exact Hu|]. apply Forall_forall.
      intros l _ p Hp. by eapply unpack2_readable. }
    induction Hc as [|p d [H1 H2] _ IH]; [constructor|].
    simpl. by repeat constructor.
Qed.

Lemma number_requests_readable lines triples : forall r,
  Forall2 request_parses lines triples ->
  Forall (fun z => int_readable z = true)
         (flat_map request_integers (number_requests r triples)).
Proof.
  intros r H. revert r.
  induction H as [|l [[rv re] rn] lines triples Hp _ IH]; intros r; [constructor|].
  cbn [number_requests flat_map]. apply Forall_app. split; [|apply IH].
  apply map_int_readable in Hp. exact Hp.
Qed.

Lemma lire_instance_readable f inst :
  lire_instance f = Ok inst -> forallb int_readable (integers inst) = true.
Proof.
  intros (header & f1 & sl & f2 & f3 & f4 & -> & Hr & Hh & Hv & Hs & He & Hq)%lire_instance_Ok.
  apply read_endpoints_Ok in He as (blocks & parsed & _ & _ & Hp & He).
  apply read_requests_Ok in Hq as (lines & triples & _ & _ & Ht & Hq).
  simpl in He, Hq. apply forallb_Forall_true. unfold integers.
  apply Forall_app. split; [by eapply map_int_readable|].
  apply Forall_app. split; [by eapply map_int_readable|].
  apply Forall_app. split.
  - rewrite He. clear He. induction Hp as [|b ep blocks parsed Hb _ IH]; [constructor|].
    cbn [flat_map]. apply Forall_app. split; [by eapply block_parses_readable|done].
  - rewrite Hq. by eapply number_requests_readable.
Qed.

(** X3: the instances the parser can return are exactly those whose sizes
    are as many as [V], whose endpoints and requests are as many as [E] and
    [R] (none when the count is negative), whose endpoints have distinct
    cache identifiers, whose requests are numbered from 0 and whose integers,
    the number of caches of each endpoint included, have at most 4300
    digits; each of them is returned on its own text. *)
Theorem parser_image inst :
  (exists f, lire_instance f = Ok inst) <->
  Z.of_nat (length (video_sizes inst)) = inst_V inst /\
  length (endpoints inst) = Z.to_nat (inst_E inst) /\
  length (requests inst) = Z.to_nat (inst_R inst) /\
  Forall (fun ep => NoDup (keys (caches ep))) (endpoints inst) /\
  req_id <$> requests inst = range (inst_R inst) /\
  forallb int_readable (integers inst) = true.
Proof.
  split.
  - intros [f H]. destruct (lire_instance_counts _ _ H) as (HV & HE & HR).
    split; [done|]. split; [done|]. split; [done|].
    split; [by eapply lire_instance_caches_NoDup|].
    split; [by eapply lire_instance_req_ids|by eapply lire_instance_readable].
  - intros (HV & HE & HR & Hnd & Hids & Hint). exists (render inst ++ []).
    by apply parse_render.
Qed.

(** *** Which line a diagnostic points at *)

Ltac not_diagnostic H :=
  unfold diagnostics in H;
  repeat (apply elem_of_cons in H as [H|H]; [discriminate H|]);
  by apply elem_of_nil in H.

Lemma int_unsigned_not_diagnostic negative s msg :
  int_unsigned negative s = Raise (ValueError msg) -> msg ∉ diagnostics.
Proof.
  unfold int_unsigned. destruct (int_digits s 0 0 false) as [[[v n] rest]|];
    [|intros H Hin; simplify_eq; not_diagnostic Hin].
  destruct (max_str_digits <? n); [intros H Hin; simplify_eq; not_diagnostic Hin|].
  destruct rest; intros H Hin; simplify_eq. not_diagnostic Hin.
Qed.

Lemma py_int_not_diagnostic t msg :
  py_int t = Raise (ValueError msg) -> msg ∉ diagnostics.
Proof.
  unfold py_int. destruct t as [|c t]; [apply int_unsigned_not_diagnostic|].
  destruct (Ascii.eqb c "+"); [apply int_unsigned_not_diagnostic|].
  destruct (Ascii.eqb c "-"); apply int_unsigned_not_diagnostic.
Qed.

Lemma map_int_not_diagnostic l msg :
  map_int l = Raise (ValueError msg) -> msg ∉ diagnostics.
Proof.
  induction l as [|t l IH]; simpl; [done|].
  destruct (py_int t) as [z|e] eqn:Ht; simpl.
  - destruct (map_int l) as [zs|e] eqn:Hl; simpl; [done|].
    intros; simplify_eq. by apply IH.
  - intros; simplify_eq. by eapply py_int_not_diagnostic.
Qed.

Lemma unpack2_not_diagnostic l msg :
  unpack2 l = Raise (ValueError msg) -> msg ∉ diagnostics.
Proof.
  destruct l as [|a [|b [|c l]]]; simpl.
  - intros; simplify_eq. intros Hin. not_diagnostic Hin.
  - destruct (py_int a) eqn:Ha; simpl; intros; simplify_eq;
      [intros Hin; not_diagnostic Hin|by eapply py_int_not_diagnostic].
  - destruct (py_int a) eqn:Ha; simpl;
      [|intros; simplify_eq; by eapply py_int_not_diagnostic].
    destruct (py_int b) eqn:Hb; simpl; [done|].
    intros; simplify_eq; by eapply py_int_not_diagnostic.
  - destruct (py_int a) eqn:Ha; simpl;
      [|intros; simplify_eq; by eapply py_int_not_diagnostic].
    destruct (py_int b) eqn:Hb; simpl;
      [|intros; simplify_eq; by eapply py_int_not_diagnostic].
    destruct (py_int c) eqn:Hc; simpl;
      [|intros; simplify_eq; by eapply py_int_not_diagnostic].
    intros; simplify_eq. intros Hin. not_diagnostic Hin.
Qed.

Lemma read_connections_not_diagnostic k : forall f cc msg,
  read_connections k f cc = Raise (ValueError msg) -> msg ∉ diagnostics.
Proof.
  induction k as [|k IH]; intros f cc msg; simpl; [done|].
  destruct (readline f) as [toks f1].
  destruct (unpack2 toks) as [[c la]|e'] eqn:Hu; simpl.
  - apply IH.
  - intros; simplify_eq. by eapply unpack2_not_diagnostic.
Qed.

Lemma readline_cons (f : list (list string)) l f1 :
  readline f = (l, f1) -> l <> [] -> f = l :: f1.
Proof. destruct f; simpl; intros; by simplify_eq. Qed.

(** The endpoint loop raises its own diagnostic exactly at the first header
    line, after well-formed blocks, that has not two tokens. *)
Lemma read_endpoints_diagnostic n : forall f eps msg,
  msg ∈ diagnostics ->
  read_endpoints n f eps = Raise (ValueError msg) <->
  msg = "Endpoint header must contain 2 integers" /\
  exists blocks rest,
    (length blocks < n)%nat /\ Forall well_formed_block blocks /\
    f = flat_map block_lines blocks ++ rest /\ length (readline rest).1 <> 2%nat.
Proof.
  induction n as [|n IH]; intros f eps msg Hd; simpl.
  - split; [done|]. intros (_ & blocks & rest & Hl & _). lia.
  - destruct (readline f) as [h f1] eqn:Hr.
    destruct (length h =? 2)%nat eqn:Hlen; cbn [negb].
    + apply Nat.eqb_eq in Hlen.
      assert (f = h :: f1) as -> by (apply readline_cons; [done|]; by destruct h).
      destruct h as [|ta [|tb [|? ?]]]; try done. cbn [nth].
      destruct (py_int ta) as [ldv|e1] eqn:H1; cbn [mbind res_bind].
      2:{ split.
          - intros; simplify_eq. by apply py_int_not_diagnostic in H1.
          - intros (_ & blocks & rest & Hl & Hwf & Hf & Hne).
            destruct blocks as [|b blocks]; simpl in Hf.
            + subst rest. by simpl in Hne.
            + apply Forall_cons in Hwf as [(ld0 & k0 & Hb & _) _].
              injection Hf as Hf _. rewrite <- Hf in Hb. simpl in Hb.
              by rewrite H1 in Hb. }
      destruct (py_int tb) as [k|e2] eqn:H2; cbn [mbind res_bind].
      2:{ split.
          - intros; simplify_eq. by apply py_int_not_diagnostic in H2.
          - intros (_ & blocks & rest & Hl & Hwf & Hf & Hne).
            destruct blocks as [|b blocks]; simpl in Hf.
            + subst rest. by simpl in Hne.
            + apply Forall_cons in Hwf as [(ld0 & k0 & Hb & _) _].
              injection Hf as Hf _. rewrite <- Hf in Hb. simpl in Hb.
              rewrite H1, H2 in Hb. by simpl in Hb. }
      destruct (read_connections (Z.to_nat k) f1 []) as [[cc f2]|e3] eqn:H3;
        cbn [mbind res_bind].
      * rewrite IH by done. apply read_connections_Ok in H3
          as (conns & pairs & Hc & -> & Hp & ->).
        split; intros (-> & blocks & rest & Hl & Hwf & Hf & Hne); (split; [done|]).
        -- exists (([ta; tb], conns) :: blocks), rest. simpl.
           split; [lia|]. split; [|split; [|done]].
           ++ constructor; [|done]. exists ldv, k. simpl. rewrite H1, H2. simpl.
              split; [done|]. split; [done|].
              eapply Forall2_Forall_l'; [|exact Hp]. intros l p Hu.
              apply int_line_unpack2. by exists p.
           ++ unfold block_lines at 1. simpl. by rewrite Hf, <- app_assoc.
        -- destruct blocks as [|b blocks]; simpl in Hf.
           { subst rest. by simpl in Hne. }
           apply Forall_cons in Hwf as [(ld0 & k0 & Hb & Hk0 & Hil) Hwf].
           unfold block_lines at 1 in Hf. simpl in Hf.
           injection Hf as Hb1 Hf. rewrite <- Hb1 in Hb. simpl in Hb.
           rewrite H1, H2 in Hb. simpl in Hb. simplify_eq.
           rewrite <- app_assoc in Hf.
           apply app_inj_1 in Hf as [-> ->]; [|lia].
           exists blocks, rest. simpl in Hl. split; [lia|done].
      * split.
        -- intros; simplify_eq. by apply read_connections_not_diagnostic in H3.
        -- intros (_ & blocks & rest & Hl & Hwf & Hf & Hne).
           destruct blocks as [|b blocks]; simpl in Hf.
           { subst rest. by simpl in Hne. }
           apply Forall_cons in Hwf as [(ld0 & k0 & Hb & Hk0 & Hil) Hwf].
           unfold block_lines at 1 in Hf. simpl in Hf.
           injection Hf as Hb1 Hf. rewrite <- Hb1 in Hb. simpl in Hb.
           rewrite H1, H2 in Hb. simpl in Hb. simplify_eq.
           destruct (Forall_exists_Forall2 (int_line 2) (fun l p => unpack2 l = Ok p) b.2)
             as [pairs Hp]; [intros l Hl'; by apply int_line_unpack2|done|].
           erewrite (proj2 (read_connections_Ok (Z.to_nat k0) _ [] _ _)) in H3; [done|].
           exists b.2, pairs. split; [done|]. split; [by rewrite <- app_assoc|].
           split; [done|reflexivity].
    + apply Nat.eqb_neq in Hlen. split.
      * intros H. simplify_eq. split; [done|]. exists [], f. simpl.
        rewrite Hr. split; [lia|]. by split.
      * intros (-> & _). done.
Qed.

(** The request loop raises its own diagnostic exactly at the first line,
    after well-formed request lines, that has not three tokens. *)
Lemma read_requests_diagnostic n : forall r f reqs msg,
  msg ∈ diagnostics ->
  read_requests n r f reqs = Raise (ValueError msg) <->
  msg = "Request line must contain 3 integers" /\
  exists lines rest,
    (length lines < n)%nat /\ Forall (int_line 3) lines /\
    f = lines ++ rest /\ length (readline rest).1 <> 3%nat.
Proof.
  induction n as [|n IH]; intros r f reqs msg Hd; simpl.
  - split; [done|]. intros (_ & lines & rest & Hl & _). lia.
  - destruct (readline f) as [l f1] eqn:Hr.
    destruct (length l =? 3)%nat eqn:Hlen; cbn [negb].
    + apply Nat.eqb_eq in Hlen.
      assert (f = l :: f1) as -> by (apply readline_cons; [done|]; by destruct l).
      destruct (map_int l) as [ints|e1] eqn:H1; cbn [mbind res_bind].
      * pose proof (map_int_length _ _ H1) as Hi. rewrite Hlen in Hi.
        destruct ints as [|rv [|re [|rn [|? ?]]]]; try done.
        rewrite IH by done.
        split; intros (-> & lines & rest & Hl & Hwf & Hf & Hne); (split; [done|]).
        -- exists (l :: lines), rest. simpl. split; [lia|]. split; [|by rewrite Hf].
           constructor; [|done]. apply int_line_map_int. by eexists.
        -- destruct lines as [|l' lines]; simpl in Hf.
           { subst rest. by simpl in Hne. }
           injection Hf as -> ->. apply Forall_cons in Hwf as [_ Hwf].
           exists lines, rest. simpl in Hl. split; [lia|done].
      * split.
        -- intros; simplify_eq. by apply map_int_not_diagnostic in H1.
        -- intros (_ & lines & rest & Hl & Hwf & Hf & Hne).
           destruct lines as [|l' lines]; simpl in Hf.
           { subst rest. by simpl in Hne. }
           injection Hf as -> ->. apply Forall_cons in Hwf as [Hl' _].
           apply int_line_map_int in Hl' as (zs & Hzs & _). by rewrite Hzs in H1.
    + apply Nat.eqb_neq in Hlen. split.
      * intros H. simplify_eq. split; [done|]. exists [], f. simpl.
        rewrite Hr. split; [lia|]. by split.
      * intros (-> & _). done.
Qed.

(** Where a diagnostic of the parser comes from. *)
Lemma lire_instance_diagnostic f msg :
  msg ∈ diagnostics ->
  lire_instance f = Raise (ValueError msg) <->
  ((readline f).1 = [] /\ msg = "Empty input file") \/
  ((readline f).1 <> [] /\ length (readline f).1 <> 5%nat /\
   msg = "First line must contain 5 integers: V E R C X") \/
  exists V E R C X,
    map_int (readline f).1 = Ok [V; E; R; C; X] /\
    ((Z.of_nat (length (readline (readline f).2).1) <> V /\
      msg = "Second line must contain V video sizes") \/
     (Z.of_nat (length (readline (readline f).2).1) = V /\
      is_ok (map_int (readline (readline f).2).1) = true /\
      (read_endpoints (Z.to_nat E) (readline (readline f).2).2 [] = Raise (ValueError msg) \/
       exists eps f3,
         read_endpoints (Z.to_nat E) (readline (readline f).2).2 [] = Ok (eps, f3) /\
         read_requests (Z.to_nat R) 0 f3 [] = Raise (ValueError msg)))).
Proof.
  intros Hd. unfold lire_instance.
  destruct (readline f) as [header f1]. cbn [fst snd].
  destruct header as [|t ts].
  { split.
    - intros; simplify_eq. by left.
    - intros [[_ ->]|[(? & _)|(V & E & R & C & X & Hh & _)]]; done. }
  destruct (length (t :: ts) =? 5)%nat eqn:Hlen; cbn [negb].
  2:{ apply Nat.eqb_neq in Hlen. split.
      - intros; simplify_eq. right; left. done.
      - intros [[? _]|[(_ & _ & ->)|(V & E & R & C & X & Hh & _)]]; [done..|].
        apply map_int_length in Hh. by rewrite <- Hh in Hlen. }
  apply Nat.eqb_eq in Hlen.
  destruct (map_int (t :: ts)) as [ints|e1] eqn:H1; cbn [mbind res_bind].
  2:{ split.
      - intros; simplify_eq. by apply map_int_not_diagnostic in H1.
      - intros [[? _]|[(_ & ? & _)|(V & E & R & C & X & Hh & _)]]; done. }
  pose proof (map_int_length _ _ H1) as Hi. rewrite Hlen in Hi.
  destruct ints as [|V [|E [|R [|C [|X [|? ?]]]]]]; try done.
  destruct (readline f1) as [sizes_line f2]. cbn [fst snd].
  destruct (Z.of_nat (length sizes_line) =? V) eqn:HV; cbn [negb].
  2:{ apply Z.eqb_neq in HV. split.
      - intros; simplify_eq. right; right. eexists _, _, _, _, _. split; [reflexivity|]. by left.
      - intros [[? _]|[(_ & ? & _)|(V' & E' & R' & C' & X' & Hh & Hcase)]]; [done..|].
        simplify_eq. destruct Hcase as [[_ ->]|[? _]]; done. }
  apply Z.eqb_eq in HV.
  destruct (map_int sizes_line) as [sizes|e2] eqn:H2; cbn [mbind res_bind].
  2:{ split.
      - intros; simplify_eq. by apply map_int_not_diagnostic in H2.
      - intros [[? _]|[(_ & ? & _)|(V' & E' & R' & C' & X' & Hh & Hcase)]]; [done..|].
        simplify_eq. destruct Hcase as [[? _]|(_ & ? & _)]; done. }
  destruct (read_endpoints (Z.to_nat E) f2 []) as [[eps f3]|e3] eqn:H3;
    cbn [mbind res_bind].
  2:{ split.
      - intros; simplify_eq. right; right. eexists _, _, _, _, _. split; [reflexivity|].
        right. split; [done|]. split; [done|]. by left.
      - intros [[? _]|[(_ & ? & _)|(V' & E' & R' & C' & X' & Hh & Hcase)]]; [done..|].
        simplify_eq. destruct Hcase as [[? _]|(_ & _ & [?|(? & ? & ? & _)])];
          [done|congruence..]. }
  destruct (read_requests (Z.to_nat R) 0 f3 []) as [[reqs f4]|e4] eqn:H4;
    cbn [mbind res_bind].
  - split; [done|].
    intros [[? _]|[(_ & ? & _)|(V' & E' & R' & C' & X' & Hh & Hcase)]]; [done..|].
    simplify_eq. destruct Hcase as [[? _]|(_ & _ & [?|(? & ? & ? & ?)])];
      [done|congruence..].
  - split.
    + intros; simplify_eq. right; right. eexists _, _, _, _, _. split; [reflexivity|].
      right. split; [done|]. split; [done|]. right. by exists eps, f3.
    + intros [[? _]|[(_ & ? & _)|(V' & E' & R' & C' & X' & Hh & Hcase)]]; [done..|].
      simplify_eq. destruct Hcase as [[? _]|(_ & _ & [?|(? & ? & ? & ?)])];
        [done|congruence..].
Qed.

Ltac is_diagnostic := unfold diagnostics; by repeat constructor.

Lemma map_int_5_nonempty h V E R C X : map_int h = Ok [V; E; R; C; X] -> h <> [].
Proof. by destruct h. Qed.

(** X4: the three diagnostics about the first two lines are raised for
    their stated cause and for no other.  "Empty input file" means that the
    first line holds no token (or that there is no line at all); the header
    diagnostic means that the first line holds tokens, but not five,
    whatever they are; the video-size diagnostic means that the header
    holds five integers and the second line has not [V] tokens, whatever
    they are. *)
Theorem header_diagnostics f :
  (lire_instance f = Raise (ValueError "Empty input file") <-> (readline f).1 = []) /\
  (lire_instance f = Raise (ValueError "First line must contain 5 integers: V E R C X") <->
     (readline f).1 <> [] /\ length (readline f).1 <> 5%nat) /\
  (lire_instance f = Raise (ValueError "Second line must contain V video sizes") <->
     exists V E R C X,
       map_int (readline f).1 = Ok [V; E; R; C; X] /\
       Z.of_nat (length (readline (readline f).2).1) <> V).
Proof.
  split; [|split].
  - rewrite lire_instance_diagnostic by is_diagnostic. split.
    + intros [[? _]|[(_ & _ & ?)|(V & E & R & C & X & _ & [[_ ?]|(_ & _ & [H|(eps & f3 & _ & H)])])]];
        [done..| |].
      * apply read_endpoints_diagnostic in H as [? _]; [done|is_diagnostic].
      * apply read_requests_diagnostic in H as [? _]; [done|is_diagnostic].
    + intros H. by left.
  - rewrite lire_instance_diagnostic by is_diagnostic. split.
    + intros [[_ ?]|[(? & ? & _)|(V & E & R & C & X & _ & [[_ ?]|(_ & _ & [H|(eps & f3 & _ & H)])])]];
        [done..| |].
      * apply read_endpoints_diagnostic in H as [? _]; [done|is_diagnostic].
      * apply read_requests_diagnostic in H as [? _]; [done|is_diagnostic].
    + intros [? ?]. right; left. done.
  - rewrite lire_instance_diagnostic by is_diagnostic. split.
    + intros [[_ ?]|[(_ & _ & ?)|(V & E & R & C & X & Hh & [[? _]|(_ & _ & [H|(eps & f3 & _ & H)])])]];
        [done..| | |].
      * by exists V, E, R, C, X.
      * apply read_endpoints_diagnostic in H as [? _]; [done|is_diagnostic].
      * apply read_requests_diagnostic in H as [? _]; [done|is_diagnostic].
    + intros (V & E & R & C & X & Hh & Hne). right; right.
      exists V, E, R, C, X. split; [done|]. by left.
Qed.

(** X5: "Endpoint header must contain 2 integers" is raised exactly when
    the header holds five integers, the second line holds [V] integers, fewer
    than [E] well-formed endpoint blocks follow, and the line after them (the
    header of the next endpoint) has not exactly two tokens, which includes
    the end of the file. *)
Theorem endpoint_header_diagnostic f :
  lire_instance f = Raise (ValueError "Endpoint header must contain 2 integers") <->
  exists header f1 sizes V E R C X blocks rest,
    f = header :: f1 /\
    readline f1 = (sizes, flat_map block_lines blocks ++ rest) /\
    map_int header = Ok [V; E; R; C; X] /\
    0 <= V /\ int_line (Z.to_nat V) sizes /\
    (length blocks < Z.to_nat E)%nat /\ Forall well_formed_block blocks /\
    length (readline rest).1 <> 2%nat.
Proof.
  rewrite lire_instance_diagnostic by is_diagnostic. split.
  - intros [[_ ?]|[(_ & _ & ?)|(V & E & R & C & X & Hh & [[_ ?]|(HV & Hs & [H|(eps & f3 & _ & H)])])]];
      [done..| |].
    + apply read_endpoints_diagnostic in H as (_ & blocks & rest & Hl & Hwf & Hf & Hne);
        [|is_diagnostic].
      destruct (readline f) as [header f1] eqn:Hr. cbn [fst snd] in *.
      destruct (readline f1) as [sizes f2] eqn:Hr1. cbn [fst snd] in *.
      exists header, f1, sizes, V, E, R, C, X, blocks, rest.
      split; [apply readline_cons; [done|by eapply map_int_5_nonempty]|].
      split; [by rewrite Hr1, Hf|]. split; [done|]. split; [lia|]. split; [|done].
      apply int_line_map_int. destruct (map_int sizes) as [zs|]; [|done].
      exists zs. split; [done|lia].
    + apply read_requests_diagnostic in H as [? _]; [done|is_diagnostic].
  - intros (header & f1 & sizes & V & E & R & C & X & blocks & rest &
            -> & Hr1 & Hh & HV & Hs & Hl & Hwf & Hne).
    right; right. exists V, E, R, C, X. cbn [readline fst snd]. rewrite Hr1.
    cbn [fst snd]. split; [done|]. right.
    apply int_line_map_int in Hs as (zs & Hzs & Hlen).
    split; [lia|]. split; [by rewrite Hzs|]. left.
    apply read_endpoints_diagnostic; [is_diagnostic|]. split; [done|].
    by exists blocks, rest.
Qed.

(** X6: "Request line must contain 3 integers" is raised exactly when the
    header holds five integers, the second line holds [V] integers, [E]
    well-formed endpoint blocks follow, then fewer than [R] lines of three
    integers, and the next line has not exactly three tokens, which includes
    the end of the file. *)
Theorem request_line_diagnostic f :
  lire_instance f = Raise (ValueError "Request line must contain 3 integers") <->
  exists header f1 sizes V E R C X blocks lines rest,
    f = header :: f1 /\
    readline f1 = (sizes, flat_map block_lines blocks ++ lines ++ rest) /\
    map_int header = Ok [V; E; R; C; X] /\
    0 <= V /\ int_line (Z.to_nat V) sizes /\
    length blocks = Z.to_nat E /\ Forall well_formed_block blocks /\
    (length lines < Z.to_nat R)%nat /\ Forall (int_line 3) lines /\
    length (readline rest).1 <> 3%nat.
Proof.
  rewrite lire_instance_diagnostic by is_diagnostic. split.
  - intros [[_ ?]|[(_ & _ & ?)|(V & E & R & C & X & Hh & [[_ ?]|(HV & Hs & [H|(eps & f3 & He & H)])])]];
      [done..| |].
    + apply read_endpoints_diagnostic in H as [? _]; [done|is_diagnostic].
    + apply read_requests_diagnostic in H as (_ & lines & rest & Hl & Hwf & Hf & Hne);
        [|is_diagnostic].
      apply read_endpoints_Ok in He as (blocks & parsed & Hb & Hf2 & Hp & _).
      destruct (readline f) as [header f1] eqn:Hr. cbn [fst snd] in *.
      destruct (readline f1) as [sizes f2] eqn:Hr1. cbn [fst snd] in *.
      exists header, f1, sizes, V, E, R, C, X, blocks, lines, rest.
      split; [apply readline_cons; [done|by eapply map_int_5_nonempty]|].
      split; [by rewrite Hr1, Hf2, Hf|]. split; [done|]. split; [lia|]. split.
      { apply int_line_map_int. destruct (map_int sizes) as [zs|]; [|done].
        exists zs. split; [done|lia]. }
      split; [done|]. split; [|done].
      eapply Forall2_Forall_l'; [|exact Hp]. apply block_parses_well_formed.
  - intros (header & f1 & sizes & V & E & R & C & X & blocks & lines & rest &
            -> & Hr1 & Hh & HV & Hs & Hb & Hwb & Hl & Hwf & Hne).
    right; right. exists V, E, R, C, X. cbn [readline fst snd]. rewrite Hr1.
    cbn [fst snd]. split; [done|]. right.
    apply int_line_map_int in Hs as (zs & Hzs & Hlen).
    split; [lia|]. split; [by rewrite Hzs|]. right.
    destruct (Forall_exists_Forall2 _ block_parses _ well_formed_block_parses Hwb)
      as [parsed Hp].
    exists ([] ++ parsed), (lines ++ rest). split.
    + apply read_endpoints_Ok. by exists blocks, parsed.
    + apply read_requests_diagnostic; [is_diagnostic|]. split; [done|].
      by exists lines, rest.
Qed.

(** ** Further properties of the model *)

(** *** Nothing but the five families of the docstring *)

Lemma cache_iter_shape sizes r ldv st ys it st' ys' :
  Forall (fun d => is_x d || is_y d) (vars (bs_model st)) /\
  Forall (fun c => is_link c || is_assign c) (constrs (bs_model st)) ->
  cache_iter sizes r ldv (st, ys) it = Ok (st', ys') ->
  Forall (fun d => is_x d || is_y d) (vars (bs_model st')) /\
  Forall (fun c => is_link c || is_assign c) (constrs (bs_model st')).
Proof.
  intros [Hv Hc] H. destruct it as [cid lc], st as [m x cap].
  destruct (decide (lc < ldv)) as [Hlt|Hge].
  - apply cache_iter_inv in H
      as (m1 & x1 & cap1 & xv & Hcase & _ & -> & _); [|done].
    cbn [bs_model addConstr addVar snd vars constrs] in *.
    assert (Forall (fun d => is_x d || is_y d) (vars m1) /\ constrs m1 = constrs m)
      as [Hv1 Hc1].
    { destruct Hcase as [(_ & -> & _)|(_ & _ & -> & _)]; [done|].
      cbn [addVar snd vars constrs]. split; [|done].
      apply Forall_app. split; [done|]. by repeat constructor. }
    split.
    + apply Forall_app. split; [done|]. by repeat constructor.
    + rewrite Hc1. apply Forall_app. split; [done|]. by repeat constructor.
  - rewrite cache_iter_skip in H by lia. by simplify_eq.
Qed.

Lemma request_iter_shape sizes eps st r st' :
  Forall (fun d => is_x d || is_y d) (vars (bs_model st)) /\
  Forall (fun c => is_link c || is_assign c) (constrs (bs_model st)) ->
  request_iter sizes eps st r = Ok st' ->
  Forall (fun d => is_x d || is_y d) (vars (bs_model st')) /\
  Forall (fun c => is_link c || is_assign c) (constrs (bs_model st')).
Proof.
  unfold request_iter. intros Hs H.
  apply bind_Ok_inv in H as (ep & Hpi & H).
  apply bind_Ok_inv in H as ([st1 ys] & Hin & H).
  assert (Forall (fun d => is_x d || is_y d) (vars (bs_model st1)) /\
          Forall (fun c => is_link c || is_assign c) (constrs (bs_model st1))) as [Hv Hc].
  { change st1 with (st1, ys).1.
    apply (foldM_inv (cache_iter sizes r (ld ep))
             (fun s => Forall (fun d => is_x d || is_y d) (vars (bs_model s.1)) /\
                       Forall (fun c => is_link c || is_assign c) (constrs (bs_model s.1)))
             (caches ep)) with (st, []); [|exact Hs|exact Hin].
    intros [a ya] b [a' ya'] _ Ha Hb. cbn [fst] in *. by eapply cache_iter_shape. }
  destruct ys; simplify_eq; [done|].
  cbn [bs_model addConstr vars constrs]. split; [done|].
  apply Forall_app. split; [done|]. by repeat constructor.
Qed.

Lemma process_shape inst st :
  process_requests inst = Ok st ->
  Forall (fun d => is_x d || is_y d) (vars (bs_model st)) /\
  Forall (fun c => is_link c || is_assign c) (constrs (bs_model st)).
Proof.
  unfold process_requests. intros H.
  apply (foldM_inv (request_iter (video_sizes inst) (endpoints inst))
           (fun s => Forall (fun d => is_x d || is_y d) (vars (bs_model s)) /\
                     Forall (fun c => is_link c || is_assign c) (constrs (bs_model s)))
           (requests inst)) with (init_state (inst_C inst)); [| |exact H].
  - intros a b a' _ Ha Hb. by eapply request_iter_shape.
  - split; constructor.
Qed.

Lemma length_filter_split {A} (P Q : A -> bool) (l : list A) :
  Forall (fun a => Q a = negb (P a)) l ->
  length l = (length (filter P l) + length (filter Q l))%nat.
Proof.
  induction 1 as [|a l Ha Hl IH]; [done|].
  rewrite !filter_cons. rewrite Ha. destruct (P a); simpl; lia.
Qed.

Lemma is_y_not_x d : is_x d || is_y d -> is_y d = negb (is_x d).
Proof. unfold is_x, is_y. by destruct (var_name d). Qed.

Lemma is_assign_not_link c : is_link c || is_assign c -> is_assign c = negb (is_link c).
Proof. unfold is_link, is_assign. by destruct (constr_name c). Qed.

Lemma cap_terms_nonempty_snd sizes (x : list (Z * Z * nat)) c :
  cap_terms sizes x c <> [] <-> c ∈ (keys x).*2.
Proof.
  rewrite cap_terms_nonempty. rewrite list_elem_of_fmap. split.
  - intros [v Hv]. by exists (v, c).
  - intros ([v c'] & -> & Hin). by exists v.
Qed.

(** X7: the returned model holds nothing but PlacementVariables and
    ServingVariables, and nothing but link, assignment and capacity
    constraints.  It has one variable per key of [x] plus one per (request,
    eligible cache) pair; it has one constraint per such pair, one per
    request that has an eligible cache, and one per cache of [range(C)] on
    which [x] holds a variable. *)
Theorem model_size inst m x :
  build inst = Ok (m, x) ->
  Forall (fun d => is_x d || is_y d) (vars m) /\
  Forall (fun c => is_link c || is_assign c || is_cap c) (constrs m) /\
  length (vars m) =
    (length x + length (eligible_pairs (endpoints inst) (requests inst)))%nat /\
  length (constrs m) =
    (length (eligible_pairs (endpoints inst) (requests inst)) +
     length (filter (fun r => eligible_of (endpoints inst) r <> []) (requests inst)) +
     length (filter (fun c => c ∈ (keys x).*2) (range (inst_C inst))))%nat.
Proof.
  intros H.
  destruct (build_inv_spec _ _ _ H) as (st & Hst & Hinv & Hd & -> & Hv & Hs & Hk).
  destruct (process_shape _ _ Hst) as [Hsv Hsc].
  destruct (d_links _ _ _ _ _ Hd) as (links & Hl & Hlf).
  destruct (d_assigns _ _ _ _ _ Hd) as (assigns & Ha & Haf).
  simpl in Hl, Ha. subst links assigns.
  split; [by rewrite Hv|]. split; [|split].
  - rewrite Hk. apply Forall_app. split.
    + eapply Forall_impl; [exact Hsc|]. intros c Hc. simpl in Hc.
      by apply orb_True; left.
    + apply Forall_fmap, Forall_forall. by intros c _.
  - rewrite Hv.
    rewrite (length_filter_split is_x is_y)
      by (eapply Forall_impl; [exact Hsv|]; apply is_y_not_x).
    change (filter is_x (vars (bs_model st))) with (placement_vars (bs_model st)).
    change (filter is_y (vars (bs_model st))) with (serving_vars (bs_model st)).
    rewrite (inv_pvars _ _ _ Hinv), (d_serving _ _ _ _ _ Hd). simpl.
    unfold keys. by rewrite !length_fmap.
  - rewrite Hk, length_app, length_fmap.
    rewrite (length_filter_split is_link is_assign (constrs (bs_model st)))
      by (eapply Forall_impl; [exact Hsc|]; apply is_assign_not_link).
    rewrite (Forall2_length _ _ _ Hlf), (Forall2_length _ _ _ Haf).
    f_equal. f_equal. apply list_filter_iff. intros c. apply cap_terms_nonempty_snd.
Qed.

Lemma model_size_witness :
  build (example_instance 10) = Ok (example_model, example_x) /\
  length (vars example_model) = 2%nat /\ length (constrs example_model) = 3%nat.
Proof.
  assert (build (example_instance 10) = Ok (example_model, example_x)) as H
    by (vm_compute; reflexivity).
  split; [exact H|].
  destruct (model_size _ _ _ H) as (_ & _ & Hv & Hc). split.
  - rewrite Hv. reflexivity.
  - rewrite Hc. vm_compute. reflexivity.
Defined.

(** *** Objective coefficients *)

(** X8: in the returned model a PlacementVariable has objective
    coefficient 0.  When no request has a negative count, no variable has a
    negative coefficient; when every count is positive, every
    ServingVariable has a positive coefficient, since it exists only for a
    cache strictly faster than the origin. *)
Theorem objective_coefficients inst m x :
  build inst = Ok (m, x) ->
  (forall d, d ∈ vars m -> is_x d -> var_obj d = 0) /\
  ((forall r, r ∈ requests inst -> 0 <= req_count r) ->
   forall d, d ∈ vars m -> 0 <= var_obj d) /\
  ((forall r, r ∈ requests inst -> 0 < req_count r) ->
   forall d, d ∈ vars m -> is_y d -> 0 < var_obj d).
Proof.
  intros H.
  destruct (build_inv_spec _ _ _ H) as (st & Hst & Hinv & Hd & -> & Hv & Hs & Hk).
  destruct (process_shape _ _ Hst) as [Hsv _].
  assert (forall d, d ∈ vars m -> is_x d -> var_obj d = 0) as Hx.
  { intros d Hin Hdx.
    assert (d ∈ placement_vars (bs_model st)) as Hp.
    { unfold placement_vars. rewrite <- Hv. by apply list_elem_of_filter. }
    rewrite (inv_pvars _ _ _ Hinv) in Hp.
    by apply list_elem_of_fmap in Hp as (p & -> & _). }
  assert (forall d, d ∈ vars m -> is_y d ->
            exists r ep lc, r ∈ requests inst /\ lc < ld ep /\
                            var_obj d = (ld ep - lc) * req_count r) as Hy.
  { intros d Hin Hdy.
    assert (d ∈ serving_vars (bs_model st)) as Hp.
    { unfold serving_vars. rewrite <- Hv. by apply list_elem_of_filter. }
    rewrite (d_serving _ _ _ _ _ Hd) in Hp. simpl in Hp.
    apply list_elem_of_fmap in Hp as ([r [c lc]] & -> & Hp).
    apply elem_of_eligible_pairs in Hp as (Hr & ep & Hep & Hc & Hlt).
    exists r, ep, lc. split; [done|]. split; [done|].
    cbn [fst snd]. rewrite (serving_decl_eq _ r ep (c, lc)); [done|].
    unfold endpoint_of. by rewrite Hep. }
  split; [done|]. split.
  - intros Hn d Hin.
    assert (is_x d || is_y d) as Hxy.
    { rewrite Hv in Hin. by apply (proj1 (Forall_forall _ _) Hsv). }
    apply orb_True in Hxy as [Hdx|Hdy].
    + by rewrite Hx.
    + destruct (Hy d Hin Hdy) as (r & ep & lc & Hr & Hlt & ->).
      specialize (Hn r Hr). nia.
  - intros Hn d Hin Hdy.
    destruct (Hy d Hin Hdy) as (r & ep & lc & Hr & Hlt & ->).
    specialize (Hn r Hr). nia.
Qed.

Lemma objective_coefficients_witness :
  build (example_instance 10) = Ok (example_model, example_x) /\
  (forall d, d ∈ vars example_model -> is_x d -> var_obj d = 0).
Proof.
  assert (build (example_instance 10) = Ok (example_model, example_x)) as H
    by (vm_compute; reflexivity).
  split; [exact H|]. exact (proj1 (objective_coefficients _ _ _ H)).
Defined.

(** *** Requests that no cache can serve *)

Lemma inner_loop_skip sizes r ldv items : forall st ys,
  (forall it, it ∈ items -> ldv <= it.2) ->
  foldM (cache_iter sizes r ldv) (st, ys) items = Ok (st, ys).
Proof.
  induction items as [|[cid lc] items IH]; intros st ys Hall; [done|].
  rewrite foldM_cons, cache_iter_skip by (apply (Hall (cid, lc)); by left).
  cbn [mbind res_bind]. apply IH. intros it Hit. apply Hall. by right.
Qed.

Lemma request_iter_skip sizes eps st r :
  is_ok (py_index eps (req_endpoint r)) = true -> eligible_of eps r = [] ->
  request_iter sizes eps st r = Ok st.
Proof.
  unfold request_iter, eligible_of, endpoint_of, eligible_caches.
  destruct (py_index eps (req_endpoint r)) as [ep|]; [|done]. intros _ He.
  cbn [mbind res_bind from_option] in *.
  rewrite inner_loop_skip; [done|].
  intros it Hit. destruct (decide (it.2 < ld ep)) as [Hlt|Hge]; [|lia].
  assert (it ∈ filter (fun it : Z * Z => it.2 < ld ep) (caches ep)) as Hin
    by (by apply list_elem_of_filter).
  rewrite He in Hin. by apply elem_of_nil in Hin.
Qed.

Lemma capacity_iter_empty X C m c :
  0 <= c < C -> capacity_iter X (init_capacity C) m c = Ok m.
Proof.
  intros Hc. unfold capacity_iter. by rewrite init_capacity_lookup, decide_True.
Qed.

Lemma capacity_loop_empty X C cs : forall m,
  (forall c, c ∈ cs -> 0 <= c < C) ->
  foldM (capacity_iter X (init_capacity C)) m cs = Ok m.
Proof.
  induction cs as [|c cs IH]; intros m Hcs; [done|].
  rewrite foldM_cons, capacity_iter_empty by (apply Hcs; by left).
  cbn [mbind res_bind]. apply IH. intros c' Hc'. apply Hcs. by right.
Qed.

(** X9: when every request names an endpoint of the list and no request
    has a cache strictly faster than its origin (in particular when there is
    no request), [build_model] builds the empty model, with objective sense
    MAXIMIZE and an empty dictionary [x], whatever the number of caches and
    whatever the video and cache identifiers: these are not looked at. *)
Theorem no_eligible_cache_empty_model inst :
  (forall r, r ∈ requests inst ->
     is_ok (py_index (endpoints inst) (req_endpoint r)) = true) ->
  (forall r, r ∈ requests inst -> eligible_of (endpoints inst) r = []) ->
  build inst =
    Ok ({| vars := []; constrs := []; ModelSense := MAXIMIZE; LogToConsole := 1;
           MIPGap := 0x1.47ae147ae147bp-8%float |}, []).
Proof.
  intros Hep Hel. unfold build, process_requests.
  assert (forall rs st,
            (forall r, r ∈ rs -> r ∈ requests inst) ->
            foldM (request_iter (video_sizes inst) (endpoints inst)) st rs = Ok st) as Hloop.
  { induction rs as [|r rs IH]; intros st Hrs; [done|].
    rewrite foldM_cons, request_iter_skip;
      [|apply Hep, Hrs; by left|apply Hel, Hrs; by left].
    cbn [mbind res_bind]. apply IH. intros r' Hr'. apply Hrs. by right. }
  rewrite Hloop by done. cbn [mbind res_bind init_state bs_capacity bs_model].
  rewrite capacity_loop_empty by (intros c; apply elem_of_range). done.
Qed.

Lemma no_eligible_cache_empty_model_witness :
  build (example_instance 200) =
    Ok ({| vars := []; constrs := []; ModelSense := MAXIMIZE; LogToConsole := 1;
           MIPGap := 0x1.47ae147ae147bp-8%float |}, []).
Proof.
  apply no_eligible_cache_empty_model.
  - intros r Hr. apply list_elem_of_singleton in Hr. subst r. reflexivity.
  - intros r Hr. apply list_elem_of_singleton in Hr. subst r. reflexivity.
Defined.

(** *** The capacity constraint of a PlacementVariable *)

Lemma x_values_inj sizes C st p q i :
  build_inv sizes C st -> (p, i) ∈ bs_x st -> (q, i) ∈ bs_x st -> p = q.
Proof.
  intros Hinv Hp Hq.
  apply (dict_get_elem _ _ _ (inv_nodup _ _ _ Hinv)) in Hp, Hq.
  apply (inv_x_var _ _ _ Hinv) in Hp, Hq. rewrite Hp in Hq.
  destruct p, q. by simplify_eq.
Qed.

Lemma elem_of_cap_terms sizes (x : list (Z * Z * nat)) c coef i :
  (coef, i) ∈ cap_terms sizes x c <->
  exists v, ((v, c), i) ∈ x /\ coef = size_of sizes v.
Proof.
  unfold cap_terms. rewrite list_elem_of_fmap. split.
  - intros ([[v c'] i'] & Heq & Hin). apply list_elem_of_filter in Hin as [Hc Hin].
    simpl in *. simplify_eq. by exists v.
  - intros (v & Hin & ->). exists ((v, c), i). split; [done|].
    by apply list_elem_of_filter.
Qed.

(** X10: in the returned model the variable that [x] holds for a (video,
    cache) pair occurs in the capacity constraint of that cache, with the
    size of the video as coefficient, and in no assignment constraint and no
    other capacity constraint: every constraint of the form
    [expr <= constant] in which it occurs is the constraint [cap_cache_c] of
    its own cache, bounded by [X]. *)
Theorem placement_variable_in_its_capacity_constraint inst m x v c i :
  build inst = Ok (m, x) -> ((v, c), i) ∈ x ->
  (exists size e,
     py_index (video_sizes inst) v = Ok size /\
     mkConstr (ExprLeConst e (inst_X inst)) (cap_cache_ c) ∈ constrs m /\
     (size, i) ∈ e) /\
  (forall e rhs k coef,
     mkConstr (ExprLeConst e rhs) k ∈ constrs m -> (coef, i) ∈ e ->
     k = cap_cache_ c /\ py_index (video_sizes inst) v = Ok coef /\ rhs = inst_X inst).
Proof.
  intros H Hin.
  destruct (build_inv_spec _ _ _ H) as (st & Hst & Hinv & Hd & -> & Hv & Hs & Hk).
  destruct (process_shape _ _ Hst) as [_ Hsc].
  assert ((v, c) ∈ keys (bs_x st)) as Hkey.
  { apply list_elem_of_fmap. by exists ((v, c), i). }
  destruct (inv_keys _ _ _ Hinv _ Hkey) as [Hc Hsz]. cbn [fst snd] in Hc, Hsz.
  destruct (py_index (video_sizes inst) v) as [size|] eqn:Hsize; [|done].
  assert (size_of (video_sizes inst) v = size) as Hso
    by (unfold size_of; by rewrite Hsize).
  split.
  - exists size, (cap_terms (video_sizes inst) (bs_x st) c).
    split; [done|]. split.
    + rewrite Hk. apply elem_of_app. right. apply list_elem_of_fmap.
      exists c. split; [done|]. apply list_elem_of_filter. split.
      * apply cap_terms_nonempty. by exists v.
      * by apply elem_of_range.
    + apply elem_of_cap_terms. by exists v.
  - intros e rhs k coef Hcon Hterm. rewrite Hk in Hcon.
    apply elem_of_app in Hcon as [Hcon|Hcon].
    + exfalso.
      assert (is_link (mkConstr (ExprLeConst e rhs) k) ||
              is_assign (mkConstr (ExprLeConst e rhs) k)) as Hla
        by (by apply (proj1 (Forall_forall _ _) Hsc)).
      apply orb_True in Hla as [Hl|Ha].
      * destruct (d_links _ _ _ _ _ Hd) as (links & Heq & Hf). simpl in Heq.
        subst links.
        assert (mkConstr (ExprLeConst e rhs) k ∈ filter is_link (constrs (bs_model st)))
          as Hfl by (by apply list_elem_of_filter).
        apply list_elem_of_lookup in Hfl as [j Hj].
        destruct (Forall2_lookup_l _ _ _ _ _ Hf Hj) as (pr & _ & (y & xv & Heq & _)).
        done.
      * destruct (d_assigns _ _ _ _ _ Hd) as (assigns & Heq & Hf). simpl in Heq.
        subst assigns.
        assert (mkConstr (ExprLeConst e rhs) k ∈ filter is_assign (constrs (bs_model st)))
          as Hfa by (by apply list_elem_of_filter).
        apply list_elem_of_lookup in Hfa as [j Hj].
        destruct (Forall2_lookup_l _ _ _ _ _ Hf Hj) as (r & _ & (ys & Heq & Hys)).
        injection Heq as -> -> ->.
        apply list_elem_of_fmap in Hterm as (y & Heq & Hy). injection Heq as -> ->.
        apply list_elem_of_lookup in Hy as [n Hn].
        destruct (Forall2_lookup_l _ _ _ _ _ Hys Hn) as (it & _ & Hdecl).
        rewrite (inv_x_var _ _ _ Hinv (v, c) y) in Hdecl; [done|].
        apply dict_get_elem; [apply (inv_nodup _ _ _ Hinv)|done].
    + apply list_elem_of_fmap in Hcon as (c' & Heq & _).
      injection Heq as -> -> ->.
      apply elem_of_cap_terms in Hterm as (v' & Hin' & ->).
      assert ((v', c') = (v, c)) as Hpq by (by eapply x_values_inj).
      injection Hpq as -> ->. by rewrite Hso.
Qed.

Lemma placement_variable_in_its_capacity_constraint_witness :
  build (example_instance 10) = Ok (example_model, example_x) /\
  exists size e,
    py_index (video_sizes (example_instance 10)) 0 = Ok size /\
    mkConstr (ExprLeConst e (inst_X (example_instance 10))) (cap_cache_ 0)
      ∈ constrs example_model /\
    (size, 0%nat) ∈ e.
Proof.
  assert (build (example_instance 10) = Ok (example_model, example_x)) as H
    by (vm_compute; reflexivity).
  split; [exact H|].
  apply (placement_variable_in_its_capacity_constraint _ _ _ 0 0 0%nat H).
  by left.
Defined.

(** *** Names *)

Lemma py_index_elem {A} (l : list A) i a : py_index l i = Ok a -> a ∈ l.
Proof.
  unfold py_index. destruct (_ || _); [done|].
  destruct (l !! _) eqn:Hl; [|done]. intros; simplify_eq.
  by eapply list_elem_of_lookup_2.
Qed.

Lemma eligible_of_keys_NoDup eps r :
  Forall (fun ep => NoDup (keys (caches ep))) eps -> NoDup (keys (eligible_of eps r)).
Proof.
  intros Hnd. unfold eligible_of, endpoint_of.
  destruct (py_index eps (req_endpoint r)) as [ep|] eqn:Hep; simpl; [|constructor].
  apply py_index_elem in Hep.
  eapply sublist_NoDup; [exact (proj1 (Forall_forall _ _) Hnd ep Hep)|].
  unfold keys, eligible_caches. apply fmap_sublist, sublist_filter.
Qed.

Lemma eligible_pairs_ids_NoDup eps rs :
  NoDup (req_id <$> rs) -> Forall (fun ep => NoDup (keys (caches ep))) eps ->
  NoDup ((fun e : Request * (Z * Z) => (req_id e.1, e.2.1)) <$> eligible_pairs eps rs).
Proof.
  intros Hids Hnd. induction rs as [|r rs IH]; [constructor|].
  rewrite fmap_cons in Hids. apply NoDup_cons in Hids as [Hr Hids].
  change (eligible_pairs eps (r :: rs))
    with (((fun it => (r, it)) <$> eligible_of eps r) ++ eligible_pairs eps rs).
  rewrite fmap_app. apply NoDup_app. split; [|split; [|by apply IH]].
  - rewrite <- list_fmap_compose.
    change (NoDup ((fun c => (req_id r, c)) ∘ fst <$> eligible_of eps r)).
    rewrite list_fmap_compose.
    apply (NoDup_fmap_2_strong (fun c => (req_id r, c))).
    + intros c c' _ _ Heq. by simplify_eq.
    + by apply eligible_of_keys_NoDup.
  - intros p Hp Hq. rewrite <- list_fmap_compose in Hp.
    apply list_elem_of_fmap in Hp as (it & -> & _).
    apply list_elem_of_fmap in Hq as ([r' it'] & Heq & Hin). simpl in Heq.
    injection Heq as Hid _.
    apply elem_of_eligible_pairs in Hin as [Hr' _]. apply Hr. rewrite Hid.
    apply list_elem_of_fmap. by exists r'.
Qed.

Lemma NoDup_fmap_split {A B} (f : A -> B) (P Q : A -> bool) (l : list A) :
  Forall (fun a => Q a = negb (P a)) l ->
  NoDup (f <$> filter P l) -> NoDup (f <$> filter Q l) ->
  (forall a b, a ∈ l -> b ∈ l -> P a -> Q b -> f a <> f b) ->
  NoDup (f <$> l).
Proof.
  induction 1 as [|a l Ha Hl IH]; intros HP HQ Hsep; [constructor|].
  assert (forall b, b ∈ l -> Q b = negb (P b)) as Hl'
    by (by apply Forall_forall).
  rewrite !filter_cons in HP, HQ. rewrite Ha in HQ.
  rewrite fmap_cons. apply NoDup_cons. destruct (P a) eqn:HPa; simpl in HP, HQ.
  - rewrite ?fmap_cons in HP. apply NoDup_cons in HP as [Hna HP]. split.
    + intros Hin. apply list_elem_of_fmap in Hin as (b & Heq & Hb).
      destruct (P b) eqn:HPb.
      * apply Hna. apply list_elem_of_fmap. exists b. split; [done|].
        apply list_elem_of_filter. by rewrite HPb.
      * apply (Hsep a b); [by left|by right|by rewrite HPa| |done].
        by rewrite (Hl' b Hb), HPb.
    + apply IH; [done..|]. intros b b' Hb Hb'. apply Hsep; by right.
  - rewrite ?fmap_cons in HQ. apply NoDup_cons in HQ as [Hna HQ]. split.
    + intros Hin. apply list_elem_of_fmap in Hin as (b & Heq & Hb).
      destruct (P b) eqn:HPb.
      * apply (Hsep b a); [by right|by left|by rewrite HPb|by rewrite Ha|done].
      * apply Hna. apply list_elem_of_fmap. exists b. split; [done|].
        apply list_elem_of_filter. by rewrite (Hl' b Hb), HPb.
    + apply IH; [done..|]. intros b b' Hb Hb'. apply Hsep; by right.
Qed.

Lemma Forall2_fmap_eq {A B C} (f : A -> C) (g : B -> C) (l : list A) (k : list B) :
  Forall2 (fun a b => f a = g b) l k -> f <$> l = g <$> k.
Proof. induction 1 as [|a b l k Hab _ IH]; [done|]. rewrite !fmap_cons. by f_equal. Qed.

(** The symbolic names of a model are pairwise distinct when the request
    identifiers are, and when no endpoint lists a cache twice. *)
Lemma build_names_NoDup inst m x :
  NoDup (req_id <$> requests inst) ->
  Forall (fun ep => NoDup (keys (caches ep))) (endpoints inst) ->
  build inst = Ok (m, x) ->
  NoDup (var_name <$> vars m) /\ NoDup (constr_name <$> constrs m).
Proof.
  intros Hids Hnd H.
  destruct (build_inv_spec _ _ _ H) as (st & Hst & Hinv & Hd & -> & Hv & Hs & Hk).
  destruct (process_shape _ _ Hst) as [Hsv Hsc].
  destruct (d_links _ _ _ _ _ Hd) as (links & Hl & Hlf).
  destruct (d_assigns _ _ _ _ _ Hd) as (assigns & Ha & Haf).
  simpl in Hl, Ha. subst links assigns.
  pose proof (eligible_pairs_ids_NoDup _ _ Hids Hnd) as HE.
  split.
  - rewrite Hv. apply (NoDup_fmap_split var_name is_x is_y).
    + eapply Forall_impl; [exact Hsv|]. apply is_y_not_x.
    + change (filter is_x (vars (bs_model st))) with (placement_vars (bs_model st)).
      rewrite (inv_pvars _ _ _ Hinv), <- list_fmap_compose.
      apply NoDup_fmap_2_strong; [|apply (inv_nodup _ _ _ Hinv)].
      intros [v c] [v' c'] _ _ Heq. simpl in Heq. by simplify_eq.
    + change (filter is_y (vars (bs_model st))) with (serving_vars (bs_model st)).
      rewrite (d_serving _ _ _ _ _ Hd). simpl. rewrite <- list_fmap_compose.
      change (NoDup ((fun p : Z * Z => y_ p.1 p.2) ∘
                     (fun e : Request * (Z * Z) => (req_id e.1, e.2.1)) <$>
                     eligible_pairs (endpoints inst) (requests inst))).
      rewrite list_fmap_compose. apply NoDup_fmap_2_strong; [|done].
      intros [a b] [a' b'] _ _ Heq. simpl in Heq. by simplify_eq.
    + intros a b _ _. unfold is_x, is_y.
      destruct (var_name a), (var_name b); done.
  - rewrite Hk, fmap_app. apply NoDup_app. split; [|split].
    + apply (NoDup_fmap_split constr_name is_link is_assign).
      * eapply Forall_impl; [exact Hsc|]. apply is_assign_not_link.
      * rewrite (Forall2_fmap_eq constr_name
                   (fun e : Request * (Z * Z) => link_ (req_id e.1) e.2.1) _
                   (eligible_pairs (endpoints inst) (requests inst))).
        2:{ eapply Forall2_impl; [exact Hlf|]. by intros c e (y & xv & -> & _). }
        change (NoDup ((fun p : Z * Z => link_ p.1 p.2) ∘
                       (fun e : Request * (Z * Z) => (req_id e.1, e.2.1)) <$>
                       eligible_pairs (endpoints inst) (requests inst))).
        rewrite list_fmap_compose. apply NoDup_fmap_2_strong; [|done].
        intros [a b] [a' b'] _ _ Heq. simpl in Heq. by simplify_eq.
      * rewrite (Forall2_fmap_eq constr_name (fun r => assign_ (req_id r)) _
                   (filter (fun r => eligible_of (endpoints inst) r <> [])
                           (requests inst))).
        2:{ eapply Forall2_impl; [exact Haf|]. by intros c r (ys & -> & _). }
        change (NoDup (assign_ ∘ req_id <$>
                       filter (fun r => eligible_of (endpoints inst) r <> [])
                              (requests inst))).
        rewrite list_fmap_compose. apply NoDup_fmap_2_strong.
        -- intros a a' _ _ Heq. by simplify_eq.
        -- eapply sublist_NoDup; [exact Hids|]. apply fmap_sublist, sublist_filter.
      * intros a b _ _. unfold is_link, is_assign.
        destruct (constr_name a), (constr_name b); done.
    + intros k Hk1 Hk2.
      apply list_elem_of_fmap in Hk1 as (c & -> & Hc).
      apply list_elem_of_fmap in Hk2 as (c' & Heq & Hc').
      apply list_elem_of_fmap in Hc' as (c0 & -> & _). simpl in Heq.
      assert (is_link c || is_assign c) as Hla
        by (by apply (proj1 (Forall_forall _ _) Hsc)).
      unfold is_link, is_assign in Hla. rewrite Heq in Hla. done.
    + rewrite <- list_fmap_compose.
      apply NoDup_fmap_2_strong; [|apply NoDup_filter, NoDup_range].
      intros c c' _ _ Heq. simpl in Heq. by simplify_eq.
Qed.

(** The f-strings of the names render distinct names as distinct strings:
    the decimal writing of an integer holds no underscore. *)
Lemma append_underscore_inj s1 : forall s2 t1 t2,
  "_"%char ∉ list_ascii_of_string s1 -> "_"%char ∉ list_ascii_of_string s2 ->
  s1 +:+ String "_" t1 = s2 +:+ String "_" t2 -> s1 = s2 /\ t1 = t2.
Proof.
  induction s1 as [|c s1 IH]; intros [|c' s2] t1 t2 H1 H2 Heq; simpl in *.
  - by simplify_eq.
  - injection Heq as <- _. exfalso. apply H2. by left.
  - injection Heq as -> _. exfalso. apply H1. by left.
  - injection Heq as -> Heq.
    apply not_elem_of_cons in H1 as [_ H1]. apply not_elem_of_cons in H2 as [_ H2].
    by destruct (IH _ _ _ H1 H2 Heq) as [-> ->].
Qed.

Lemma pretty_N_go_no_underscore x : forall s,
  "_"%char ∉ list_ascii_of_string s ->
  "_"%char ∉ list_ascii_of_string (pretty_N_go x s).
Proof.
  induction (N.lt_wf_0 x) as [x _ IH]; intros s Hs.
  destruct (decide (x = 0)%N) as [->|Hx]; [by rewrite pretty_N_go_0|].
  rewrite pretty_N_go_step by lia. apply IH; [apply N.div_lt; lia|].
  simpl. apply not_elem_of_cons. split; [|done].
  destruct (digit_char (x `mod` 10)%N) as (Hu & _); [by apply N.mod_lt|].
  intros Heq. rewrite <- Heq in Hu. by rewrite Ascii.eqb_refl in Hu.
Qed.

Lemma str_no_underscore z : "_"%char ∉ list_ascii_of_string (str z).
Proof.
  unfold str. destruct z as [|p|p].
  - simpl. intros Hin. by apply list_elem_of_singleton in Hin.
  - change (pretty (Z.pos p)) with (pretty (N.pos p)). unfold pretty, pretty_N.
    rewrite decide_False by done. apply pretty_N_go_no_underscore, not_elem_of_nil.
  - change (pretty (Z.neg p)) with (String "-" (pretty (N.pos p))).
    simpl. apply not_elem_of_cons. split; [done|]. unfold pretty, pretty_N.
    rewrite decide_False by done. apply pretty_N_go_no_underscore, not_elem_of_nil.
Qed.

Lemma str_inj z z' : str z = str z' -> z = z'.
Proof. unfold str. apply pretty_Z_inj. Qed.

Lemma name_str_inj n n' : name_str n = name_str n' -> n = n'.
Proof.
  destruct n, n'; cbn [name_str String.append]; intros H; try discriminate H;
    simplify_eq.
  - apply append_underscore_inj in H as [?%str_inj ?%str_inj];
      [by subst|apply str_no_underscore..].
  - apply append_underscore_inj in H as [?%str_inj ?%str_inj];
      [by subst|apply str_no_underscore..].
  - apply append_underscore_inj in H as [?%str_inj ?%str_inj];
      [by subst|apply str_no_underscore..].
  - done.
  - done.
Qed.

(** X11: in the model built for a parsed instance no two variables and no
    two constraints are given the same name: the strings [x_v_c], [y_r_c],
    [link_r_c], [assign_r] and [cap_cache_c] passed to the solver are
    pairwise distinct. *)
Theorem rendered_names_are_distinct f inst m x :
  lire_instance f = Ok inst -> build inst = Ok (m, x) ->
  NoDup ((fun d => name_str (var_name d)) <$> vars m) /\
  NoDup ((fun c => name_str (constr_name c)) <$> constrs m).
Proof.
  intros Hp Hb.
  assert (NoDup (req_id <$> requests inst)) as Hids.
  { rewrite (lire_instance_req_ids _ _ Hp). apply NoDup_range. }
  destruct (build_names_NoDup inst m x Hids (lire_instance_caches_NoDup _ _ Hp) Hb)
    as [Hv Hc].
  split.
  - change (NoDup (name_str ∘ var_name <$> vars m)). rewrite list_fmap_compose.
    apply NoDup_fmap_2_strong; [|done]. intros ?? _ _. apply name_str_inj.
  - change (NoDup (name_str ∘ constr_name <$> constrs m)). rewrite list_fmap_compose.
    apply NoDup_fmap_2_strong; [|done]. intros ?? _ _. apply name_str_inj.
Qed.

Lemma rendered_names_are_distinct_witness :
  lire_instance (example_file "10") = Ok (example_instance 10) /\
  build (example_instance 10) = Ok (example_model, example_x) /\
  NoDup ((fun d => name_str (var_name d)) <$> vars example_model).
Proof.
  assert (lire_instance (example_file "10") = Ok (example_instance 10)) as Hp
    by (vm_compute; reflexivity).
  assert (build (example_instance 10) = Ok (example_model, example_x)) as Hb
    by (vm_compute; reflexivity).
  split; [exact Hp|]. split; [exact Hb|].
  exact (proj1 (rendered_names_are_distinct _ _ _ _ Hp Hb)).
Defined.

(** *** What each exception of the construction means *)

Lemma foldM_raise_inv {A B} (f : A -> B -> res A) (I : A -> Prop) (l : list B) :
  (forall a b a', b ∈ l -> I a -> f a b = Ok a' -> I a') ->
  forall a e, I a -> foldM f a l = Raise e ->
  exists a' b, b ∈ l /\ I a' /\ f a' b = Raise e.
Proof.
  induction l as [|b l IH]; intros Hstep a e Ha Hf; simpl in Hf; [done|].
  destruct (f a b) as [a1|e1] eqn:Hb; simpl in Hf.
  - destruct (IH (fun a0 b0 a0' Hin => Hstep a0 b0 a0' (list_elem_of_further _ _ _ Hin))
                a1 e) as (a' & b' & Hin & Ha' & Hr); [|done|].
    + apply (Hstep a b a1); [by left|done..].
    + exists a', b'. split; [by right|done].
  - simplify_eq. exists a, b. split; [by left|done].
Qed.

Lemma cache_iter_raise_cause sizes C r ldv st ys cid lc e :
  build_inv sizes C st ->
  cache_iter sizes r ldv (st, ys) (cid, lc) = Raise e ->
  lc < ldv /\
  ((e = KeyError /\ ~ 0 <= cid < C) \/
   (e = IndexError /\ 0 <= cid < C /\ is_ok (py_index sizes (req_video r)) = false)).
Proof.
  intros Hinv. destruct st as [m x cap]. unfold cache_iter.
  rewrite Z.geb_leb. destruct (ldv <=? lc) eqn:Hlt; [done|].
  apply Z.leb_gt in Hlt. intros H. split; [done|]. revert H. unfold x_lookup.
  destruct (dict_mem x (req_video r, cid)) eqn:Hm; cbn [mbind res_bind].
  - unfold dict_mem in Hm. destruct (dict_get x (req_video r, cid)); [|done].
    cbn [mbind res_bind]. done.
  - cbn [addVar]. pose proof (inv_cap _ _ _ Hinv cid) as Hcap. cbn [bs_capacity] in Hcap.
    rewrite Hcap. destruct (decide (0 <= cid < C)) as [Hc|Hc];
      [|simpl; intros; simplify_eq; by left].
    rewrite dict_get_set, decide_True by done. cbn [mbind res_bind].
    destruct (py_index sizes (req_video r)) as [size|e'] eqn:H2; cbn [mbind res_bind].
    + rewrite dict_get_set, decide_True by done. done.
    + intros; simplify_eq. right. by rewrite (py_index_raise _ _ _ H2).
Qed.

Lemma request_iter_raise_cause sizes C eps st r e :
  build_inv sizes C st -> request_iter sizes eps st r = Raise e ->
  (e = IndexError /\ is_ok (py_index eps (req_endpoint r)) = false) \/
  exists ep c lc,
    py_index eps (req_endpoint r) = Ok ep /\ (c, lc) ∈ caches ep /\ lc < ld ep /\
    ((e = KeyError /\ ~ 0 <= c < C) \/
     (e = IndexError /\ 0 <= c < C /\ is_ok (py_index sizes (req_video r)) = false)).
Proof.
  intros Hinv. unfold request_iter.
  destruct (py_index eps (req_endpoint r)) as [ep|e1] eqn:H1; cbn [mbind res_bind];
    [|intros; simplify_eq; left; by rewrite (py_index_raise _ _ _ H1)].
  destruct (foldM _ _ _) as [[st1 ys]|e2] eqn:H2; cbn [mbind res_bind];
    [by destruct ys|].
  intros; simplify_eq. right.
  destruct (foldM_raise_inv (cache_iter sizes r (ld ep))
              (fun s => build_inv sizes C s.1) (caches ep))
    with (a := (st, @nil nat)) (e := e) as ([st' ys'] & [c lc] & Hin & Hinv' & Hr);
    [|done|done|].
  - intros [a ya] b [a' ya'] _ Ha Hb. cbn [fst] in *. by eapply cache_iter_inv_pres.
  - cbn [fst] in Hinv'.
    destruct (cache_iter_raise_cause _ _ _ _ _ _ _ _ _ Hinv' Hr) as [Hlt Hcase].
    by exists ep, c, lc.
Qed.

(** X12: what makes [build_model] fail.  [KeyError] always comes from a
    request with a cache strictly faster than its origin whose identifier is
    not in [range(C)]; [IndexError] always comes from a request whose
    endpoint identifier is outside [[-E, E)], or which has a cache strictly
    faster than its origin and a video identifier outside [[-V, V)]. *)
Theorem build_error_causes inst e :
  build inst = Raise e ->
  (e = KeyError /\
   exists r ep c lc,
     r ∈ requests inst /\ py_index (endpoints inst) (req_endpoint r) = Ok ep /\
     (c, lc) ∈ caches ep /\ lc < ld ep /\ ~ 0 <= c < inst_C inst) \/
  (e = IndexError /\
   exists r,
     r ∈ requests inst /\
     (~ (- Z.of_nat (length (endpoints inst)) <= req_endpoint r
           < Z.of_nat (length (endpoints inst))) \/
      (eligible_of (endpoints inst) r <> [] /\
       ~ (- Z.of_nat (length (video_sizes inst)) <= req_video r
            < Z.of_nat (length (video_sizes inst)))))).
Proof.
  unfold build, process_requests.
  destruct (foldM (request_iter _ _) _ _) as [st|e1] eqn:H1; cbn [mbind res_bind].
  - assert (build_inv (video_sizes inst) (inst_C inst) st) as Hinv
      by (eapply process_inv; [apply init_inv|exact H1]).
    destruct (foldM (capacity_iter _ _) _ _) as [m|e2] eqn:H2; cbn [mbind res_bind];
      [done|]. intros; simplify_eq. exfalso.
    destruct (foldM_raise_inv (capacity_iter (inst_X inst) (bs_capacity st))
                (fun _ => True) (range (inst_C inst)))
      with (a := bs_model st) (e := e) as (m' & c & Hc & _ & Hr); [done..|].
    unfold capacity_iter in Hr. rewrite (inv_cap _ _ _ Hinv) in Hr.
    apply elem_of_range in Hc. rewrite decide_True in Hr by done.
    by destruct (_ <? _).
  - intros; simplify_eq.
    destruct (foldM_raise_inv (request_iter (video_sizes inst) (endpoints inst))
                (build_inv (video_sizes inst) (inst_C inst)) (requests inst))
      with (a := init_state (inst_C inst)) (e := e) as (st & r & Hr & Hinv & Hraise);
      [|apply init_inv|done|].
    { intros a b a' _ Ha Hb. by eapply request_iter_inv_pres. }
    destruct (request_iter_raise_cause _ _ _ _ _ _ Hinv Hraise)
      as [[-> Hep]|(ep & c & lc & Hep & Hin & Hlt & [[-> Hc]|(-> & Hc & Hv)])].
    + right. split; [done|]. exists r. split; [done|]. left.
      intros Hrange. apply py_index_ok in Hrange. by rewrite Hrange in Hep.
    + left. split; [done|]. by exists r, ep, c, lc.
    + right. split; [done|]. exists r. split; [done|]. right. split.
      * apply eligible_of_nonempty. by exists ep, c, lc.
      * intros Hrange. apply py_index_ok in Hrange. by rewrite Hrange in Hv.
Qed.

Lemma build_error_causes_witness :
  build (mkInstance 1 1 1 1 10 [5] [mkEndpoint 100 [(5, 10)]] [mkRequest 0 0 0 3]) =
    Raise KeyError /\
  exists r ep c lc,
    r ∈ [mkRequest 0 0 0 3] /\
    py_index [mkEndpoint 100 [(5, 10)]] (req_endpoint r) = Ok ep /\
    (c, lc) ∈ caches ep /\ lc < ld ep /\ ~ 0 <= c < 1.
Proof.
  assert (build (mkInstance 1 1 1 1 10 [5] [mkEndpoint 100 [(5, 10)]] [mkRequest 0 0 0 3]) =
          Raise KeyError) as H by (vm_compute; reflexivity).
  split; [exact H|].
  destruct (build_error_causes _ _ H) as [[_ Hk]|[Hi _]]; [exact Hk|discriminate Hi].
Defined.

(** ** Further properties of the extraction *)

Lemma content_loop_stray X C x : forall cc : list (Z * list Z),
  keys cc = range C ->
  (exists v c i, ((v, c), i) ∈ x /\ stored X i /\ ~ 0 <= c < C) ->
  foldM (content_iter X) cc x = Raise KeyError.
Proof.
  induction x as [|[[vid cid] var] x IH]; intros cc Hk (v & c & i & Hin & Hs & Hc).
  { by apply elem_of_nil in Hin. }
  rewrite foldM_cons. destruct (stored X var) eqn:Hst.
  - rewrite content_iter_stored by done.
    destruct (dict_get cc cid) as [vlist|] eqn:Hg; [|done].
    cbn [mbind res_bind]. apply dict_get_Some_key in Hg.
    apply IH; [by rewrite keys_dict_set_present|].
    apply elem_of_cons in Hin as [Heq|Hin]; [|by exists v, c, i].
    simplify_eq. rewrite Hk in Hg. by apply elem_of_range in Hg.
  - rewrite content_iter_skipped by done. cbn [mbind res_bind].
    apply IH; [done|].
    apply elem_of_cons in Hin as [Heq|Hin]; [|by exists v, c, i].
    simplify_eq. by rewrite Hst in Hs.
Qed.

Lemma keys_init_cache_content C : keys (init_cache_content C) = range C.
Proof.
  unfold keys, init_cache_content. rewrite <- list_fmap_compose. apply list_fmap_id.
Qed.

(** The two ways the extraction can end. *)
Lemma extract_cases X x C :
  ((forall v c i, ((v, c), i) ∈ x -> stored X i -> 0 <= c < C) /\
   extract X x C = Ok (placement_solution X x C)) \/
  ((exists v c i, ((v, c), i) ∈ x /\ stored X i /\ ~ 0 <= c < C) /\
   extract X x C = Raise KeyError).
Proof.
  assert (forall e : Z * Z * nat, Decision (stored X e.2 /\ ~ 0 <= e.1.2 < C)) as Hdec
    by (intros e; apply _).
  destruct (@Exists_dec _ (fun e : Z * Z * nat => stored X e.2 /\ ~ 0 <= e.1.2 < C) Hdec x)
    as [Hex|Hnex].
  - right. apply Exists_exists in Hex as ([[v c] i] & Hin & Hs & Hc).
    split; [by exists v, c, i|]. unfold extract.
    rewrite (content_loop_stray X C x); [done|apply keys_init_cache_content|].
    by exists v, c, i.
  - left.
    assert (forall v c i, ((v, c), i) ∈ x -> stored X i -> 0 <= c < C) as Hall.
    { intros v c i Hin Hs. destruct (decide (0 <= c < C)) as [|Hc]; [done|].
      exfalso. apply Hnex, Exists_exists. by exists ((v, c), i). }
    split; [done|]. by apply extract_spec.
Qed.

(** X13: with at least one solution, the extraction raises exactly when
    some stored placement lies on a cache outside [range(C)], and what it
    raises is [KeyError]; [resol_restit] then stops right after the solve:
    nothing is written and nothing is released. *)
Theorem extraction_fails_on_stray_cache w model env x C path SolCount X :
  optimize w model = Optimized SolCount X -> SolCount <> 0 ->
  (forall e, extract X x C = Raise e <->
     e = KeyError /\ exists v c i, ((v, c), i) ∈ x /\ stored X i /\ ~ 0 <= c < C) /\
  ((exists v c i, ((v, c), i) ∈ x /\ stored X i /\ ~ 0 <= c < C) ->
   run_io (resol_restit w model env x C path) = ([Optimize], Raise KeyError)).
Proof.
  intros Ho Hn. split.
  - intros e. destruct (extract_cases X x C) as [[Hall He]|[Hex He]]; rewrite He.
    + split; [done|]. intros (_ & v & c & i & Hin & Hs & Hc). destruct Hc. by eapply Hall.
    + split; [intros; by simplify_eq|by intros [-> _]].
  - intros Hex. apply (resol_restit_extract_raises _ _ _ _ _ _ SolCount X); [done..|].
    destruct (extract_cases X x C) as [[Hall He]|[_ He]]; [|done].
    destruct Hex as (v & c & i & Hin & Hs & Hc). destruct Hc. by eapply Hall.
Qed.

Lemma extraction_fails_on_stray_cache_witness :
  run_io (resol_restit (example_world "10") example_model gp_Env [((0, 5), 0%nat)] 1
            "videos.out") = ([Optimize], Raise KeyError).
Proof.
  apply (proj2 (extraction_fails_on_stray_cache (example_world "10") example_model gp_Env
                  [((0, 5), 0%nat)] 1 "videos.out" 1 (fun _ => 1%float)
                  eq_refl ltac:(lia))).
  exists 0, 5, 0%nat. split; [by left|]. split; [done|lia].
Defined.

Lemma sorted_Permutation (l l' : list Z) : l ≡ₚ l' -> sorted l = sorted l'.
Proof.
  intros Hp. unfold sorted. apply (Sorted_unique Z.le).
  - apply Sorted_merge_sort; apply _.
  - apply Sorted_merge_sort; apply _.
  - by rewrite !merge_sort_Permutation.
Qed.

Lemma stored_videos_Permutation X (x x' : list (Z * Z * nat)) c :
  x ≡ₚ x' -> stored_videos X x c ≡ₚ stored_videos X x' c.
Proof. intros Hp. unfold stored_videos. by rewrite Hp. Qed.

Lemma placement_solution_Permutation X (x x' : list (Z * Z * nat)) C :
  x ≡ₚ x' -> placement_solution X x C = placement_solution X x' C.
Proof.
  intros Hp. unfold placement_solution.
  rewrite (list_filter_iff _ (fun c => stored_videos X x' c <> [])).
  - apply list_fmap_ext. intros i c _. f_equal.
    by apply sorted_Permutation, stored_videos_Permutation.
  - intros c. pose proof (stored_videos_Permutation X x x' c Hp) as Hc.
    split; intros Hne Hnil; apply Hne.
    + rewrite Hnil in Hc. by apply Permutation_nil_r in Hc.
    + rewrite Hnil in Hc. symmetry in Hc. by apply Permutation_nil_r in Hc.
Qed.

(** X14: the extraction does not depend on the order of the entries of
    [x]: two dictionaries with the same entries give the same result, be it
    the same [used_caches] or the same failure, and [resol_restit] performs
    the same effects, writing the same text. *)
Theorem extraction_ignores_order w model env (x x' : list (Z * Z * nat)) C path X :
  x ≡ₚ x' ->
  extract X x C = extract X x' C /\
  run_io (resol_restit w model env x C path) = run_io (resol_restit w model env x' C path).
Proof.
  intros Hp.
  assert (forall X0, extract X0 x C = extract X0 x' C) as He.
  { intros X0.
    destruct (extract_cases X0 x C) as [[Hall ->]|[(v & c & i & Hin & Hs & Hc) ->]];
      destruct (extract_cases X0 x' C) as [[Hall' ->]|[(v' & c' & i' & Hin' & Hs' & Hc') ->]].
    - f_equal. by apply placement_solution_Permutation.
    - destruct Hc'. apply (Hall v' c' i'); [by rewrite Hp|done].
    - destruct Hc. apply (Hall' v c i); [by rewrite <- Hp|done].
    - done. }
  split; [apply He|]. unfold resol_restit.
  destruct (optimize w model) as [|SolCount X0]; [done|].
  destruct (SolCount =? 0); [done|]. by rewrite He.
Qed.

Lemma extraction_ignores_order_witness :
  extract (fun _ => 1%float) [((0, 0), 0%nat); ((1, 0), 1%nat)] 1 =
  extract (fun _ => 1%float) [((1, 0), 1%nat); ((0, 0), 0%nat)] 1.
Proof.
  apply (extraction_ignores_order (example_world "10") example_model gp_Env
           [((0, 0), 0%nat); ((1, 0), 1%nat)] [((1, 0), 1%nat); ((0, 0), 0%nat)]
           1 "videos.out" (fun _ => 1%float)).
  apply Permutation_swap.
Defined.

Lemma filter_none {A} (P : A -> Prop) `{forall a, Decision (P a)} (l : list A) :
  (forall a, a ∈ l -> ~ P a) -> filter P l = [].
Proof.
  induction l as [|a l IH]; intros Hl; [done|].
  rewrite filter_cons_False by (apply Hl; by left).
  apply IH. intros ??. apply Hl. by right.
Qed.

(** X15: a solution in which no placement is stored still produces the
    output file: its single line is "0".  This is what tells a solved model
    that places nothing from a model without solution, for which no file is
    written. *)
Theorem nothing_stored_writes_zero w model env (x : list (Z * Z * nat)) C path SolCount X :
  optimize w model = Optimized SolCount X -> SolCount <> 0 ->
  (forall p i, (p, i) ∈ x -> stored X i = false) ->
  extract X x C = Ok [] /\
  run_io (resol_restit w model env x C path) =
    ([Optimize; FileWrite path ("0" +:+ newline); ModelDispose; EnvDispose], Ok tt).
Proof.
  intros Ho Hn Hns.
  assert (forall v c i, ((v, c), i) ∈ x -> stored X i -> 0 <= c < C) as Hall.
  { intros v c i Hin Hs. by rewrite (Hns _ _ Hin) in Hs. }
  assert (placement_solution X x C = []) as Hnil.
  { unfold placement_solution. rewrite filter_none; [done|].
    intros c _ Hne. apply Hne. unfold stored_videos. rewrite filter_none; [done|].
    intros [p i] Hin [_ Hs]. simpl in Hs. by rewrite (Hns _ _ Hin) in Hs. }
  split.
  - by rewrite extract_spec, Hnil.
  - rewrite (resol_restit_solution _ _ _ _ _ _ SolCount X) by done. by rewrite Hnil.
Qed.

Lemma nothing_stored_writes_zero_witness :
  run_io (resol_restit (mkWorld (fun _ => None) (fun _ => Optimized 1 (fun _ => 0%float)))
            example_model gp_Env example_x 1 "videos.out") =
    ([Optimize; FileWrite "videos.out" ("0" +:+ newline); ModelDispose; EnvDispose], Ok tt).
Proof.
  apply (proj2 (nothing_stored_writes_zero
                  (mkWorld (fun _ => None) (fun _ => Optimized 1 (fun _ => 0%float)))
                  example_model gp_Env example_x 1 "videos.out" 1 (fun _ => 0%float)
                  eq_refl ltac:(lia) (fun _ _ _ => eq_refl))).
Defined.

(** *** The lines of the output, end to end *)

Lemma NoDup_entries {V} (x : list (Z * Z * V)) e e' :
  NoDup (keys x) -> e ∈ x -> e' ∈ x -> e.1 = e'.1 -> e = e'.
Proof.
  intros Hnd He He' Heq. destruct e as [k v], e' as [k' v']. simpl in Heq. subst k'.
  apply (dict_get_elem _ _ _ Hnd) in He, He'. rewrite He in He'. by simplify_eq.
Qed.

Lemma stored_videos_NoDup X (x : list (Z * Z * nat)) c :
  NoDup (keys x) -> NoDup (stored_videos X x c).
Proof.
  intros Hnd. unfold stored_videos. apply NoDup_fmap_2_strong.
  - intros e e' [[Hc _] He]%list_elem_of_filter [[Hc' _] He']%list_elem_of_filter Heq.
    apply (NoDup_entries x); [done..|].
    destruct e as [[v c0] i], e' as [[v' c0'] i']. simpl in *. by subst.
  - apply NoDup_filter. by apply (NoDup_fmap_1 fst).
Qed.

Lemma Sorted_le_NoDup_lt (l : list Z) :
  Sorted Z.le l -> NoDup l -> StronglySorted Z.lt l.
Proof.
  intros Hs Hnd. apply Sorted_StronglySorted in Hs; [|apply _].
  induction Hs as [|a l Hl IH Ha]; [constructor|].
  apply NoDup_cons in Hnd as [Hna Hnd]. constructor; [by apply IH|].
  apply Forall_forall. intros b Hb.
  pose proof (proj1 (Forall_forall _ _) Ha b Hb) as Hle.
  assert (a <> b) by (by intros ->). lia.
Qed.

(** X16: whatever values the solver reports for the model built from an
    instance, the PlacementSolution written has at most [C] cache lines; on
    each line the video identifiers are strictly ascending, so that no video
    is listed twice, and each of them is the video of a request that has
    this cache among its caches strictly faster than the origin. *)
Theorem output_lines_are_strict inst m x X :
  build inst = Ok (m, x) ->
  (length (placement_solution X x (inst_C inst)) <= Z.to_nat (inst_C inst))%nat /\
  (forall c vs, (c, vs) ∈ placement_solution X x (inst_C inst) ->
     StronglySorted Z.lt vs /\
     forall v, v ∈ vs ->
       exists r, r ∈ requests inst /\ req_video r = v /\
                 c ∈ keys (eligible_of (endpoints inst) r)).
Proof.
  intros H.
  destruct (build_inv_spec _ _ _ H) as (st & Hst & Hinv & Hd & -> & Hv & Hs & Hk).
  split.
  - unfold placement_solution. rewrite length_fmap.
    etrans; [apply length_filter|]. unfold range. by rewrite length_fmap, length_seq.
  - intros c vs Hin. unfold placement_solution in Hin.
    apply list_elem_of_fmap in Hin as (c' & Heq & Hin). simplify_eq.
    assert (sorted (stored_videos X (bs_x st) c') ≡ₚ stored_videos X (bs_x st) c') as Hp
      by apply merge_sort_Permutation.
    split.
    + apply Sorted_le_NoDup_lt; [apply Sorted_merge_sort; apply _|].
      rewrite Hp. apply stored_videos_NoDup, (inv_nodup _ _ _ Hinv).
    + intros v Hvin. rewrite Hp in Hvin.
      apply elem_of_stored_videos in Hvin as (i & Hi & _).
      assert ((v, c') ∈ keys (bs_x st)) as Hkey
        by (apply list_elem_of_fmap; by exists ((v, c'), i)).
      destruct (d_keys _ _ _ _ _ Hd _ Hkey) as [Hk0|Hk0];
        [by apply elem_of_nil in Hk0|].
      apply list_elem_of_fmap in Hk0 as ([r [c0 lc]] & Heq & Hin0). simpl in Heq.
      simplify_eq. exists r. split; [|split; [done|]].
      * by apply elem_of_eligible_pairs in Hin0 as [? _].
      * unfold eligible_pairs in Hin0. apply list_elem_of_In, in_flat_map in Hin0
          as (r' & _ & Hin0). apply list_elem_of_In, list_elem_of_fmap in Hin0
          as (it & Heq & Hit). simplify_eq.
        apply list_elem_of_fmap. by exists (c0, lc).
Qed.

Lemma output_lines_are_strict_witness :
  build (example_instance 10) = Ok (example_model, example_x) /\
  (length (placement_solution (fun _ => 1%float) example_x 1) <= Z.to_nat 1)%nat.
Proof.
  assert (build (example_instance 10) = Ok (example_model, example_x)) as H
    by (vm_compute; reflexivity).
  split; [exact H|].
  exact (proj1 (output_lines_are_strict _ _ _ (fun _ => 1%float) H)).
Defined.

(** ** Further properties of the orchestration *)

(** Every way [main] can end, with what decides it. *)
Lemma main_outcomes w argv :
  (length argv <> 2%nat /\ run_io (main w argv) = ([], Ok 1)) \/
  (length argv = 2%nat /\
   ((file_lines w (nth 1 argv "") = None /\ run_io (main w argv) = ([], Raise OSError)) \/
    exists f, file_lines w (nth 1 argv "") = Some f /\
      ((exists msg, lire_instance f = Raise (ValueError msg) /\
                    run_io (main w argv) = ([], Raise (ValueError msg))) \/
       exists inst, lire_instance f = Ok inst /\
         ((exists e, build inst = Raise e /\ (e = KeyError \/ e = IndexError) /\
                     run_io (main w argv) = ([EnvCreate; ModelCreate], Raise e)) \/
          exists m x, build inst = Ok (m, x) /\
            ((optimize w m = OptimizeRaises /\
              run_io (main w argv) =
                ([EnvCreate; ModelCreate; ModelWrite "videos.mps"; Optimize],
                 Raise GurobiError)) \/
             (exists X, optimize w m = Optimized 0 X /\
              run_io (main w argv) =
                ([EnvCreate; ModelCreate; ModelWrite "videos.mps"; Optimize;
                  ModelDispose; EnvDispose], Ok 0)) \/
             (exists SolCount X, optimize w m = Optimized SolCount X /\ SolCount <> 0 /\
              run_io (main w argv) =
                ([EnvCreate; ModelCreate; ModelWrite "videos.mps"; Optimize;
                  FileWrite "videos.out"
                    (solution_text (placement_solution X x (inst_C inst)));
                  ModelDispose; EnvDispose], Ok 0))))))).
Proof.
  destruct (decide (length argv = 2%nat)) as [Ha|Ha]; [|left; split; [done|by apply main_usage]].
  right. split; [done|].
  destruct (file_lines w (nth 1 argv "")) as [f|] eqn:Hf.
  2:{ left. split; [done|]. apply main_parse_raises; [done|]. by rewrite Hf. }
  right. exists f. split; [done|].
  destruct (lire_instance f) as [inst|e] eqn:Hp.
  2:{ left. destruct (lire_instance_raise _ _ Hp) as [msg ->]. exists msg.
      split; [done|]. apply main_parse_raises; [done|]. by rewrite Hf. }
  right. exists inst. split; [done|].
  destruct (build inst) as [[m x]|e] eqn:Hb.
  2:{ left. exists e. split; [done|]. split; [by apply (build_raise inst)|].
      by apply (main_build_raises w argv f inst). }
  right. exists m, x. split; [done|].
  rewrite (main_built w argv f inst m x Ha Hf Hp Hb). unfold trace, result.
  destruct (optimize w m) as [|SolCount X] eqn:Ho.
  - left. split; [done|]. by rewrite resol_restit_raises.
  - right. destruct (decide (SolCount = 0)) as [->|Hn].
    + left. exists X. split; [done|]. by rewrite (resol_restit_no_solution _ _ _ _ _ _ X).
    + right. exists SolCount, X. split; [done|]. split; [done|].
      rewrite (resol_restit_solution _ _ _ _ _ _ SolCount X); [done..|].
      intros v c i Hin _. by eapply build_keys_in_range.
Qed.

(** X18: [main] returns 1 exactly when it is not given two arguments, and
    it has then done nothing, whatever the files and the solver; any other
    normal return is 0, and comes after [videos.mps] was written, the model
    was solved and the solver was released. *)
Theorem exit_status w argv :
  (result (main w argv) = Ok 1 <-> length argv <> 2%nat) /\
  (length argv <> 2%nat -> run_io (main w argv) = ([], Ok 1)) /\
  (forall n, result (main w argv) = Ok n -> n = 0 \/ n = 1) /\
  (result (main w argv) = Ok 0 ->
   exists written,
     (written = [] \/ exists text, written = [FileWrite "videos.out" text]) /\
     trace (main w argv) =
       [EnvCreate; ModelCreate; ModelWrite "videos.mps"; Optimize] ++ written ++
       [ModelDispose; EnvDispose]).
Proof.
  unfold trace, result.
  destruct (main_outcomes w argv)
    as [[Ha ->]|(Ha & [[_ ->]|(f & _ & [(msg & _ & ->)|(inst & _ &
         [(e' & _ & He' & ->)|(m & x & _ &
            [[_ ->]|[(X & _ & ->)|(n & X & _ & _ & ->)]])])])])];
    simpl; (split; [split; [intros ?; by simplify_eq|done]|]);
    (split; [done|]); (split; [intros ? ?; simplify_eq; by auto|]); try done.
  - intros _. exists []. split; [by left|done].
  - intros _. eexists [_]. split; [right; by eexists|done].
Qed.


(** *** A valid data set *)

(** X20: on an instance read from a file in which every request names a
    video of [[0, V)] and an endpoint of [[0, E)] and every connection names
    a cache of [[0, C)], and which is within the range of numbers that the
    solver library takes, the construction loops build the model; and
    whatever values the solver then reports for its variables, the
    extraction succeeds.  Neither of them can fail on an identifier. *)
Theorem valid_instance_builds f inst :
  lire_instance f = Ok inst ->
  solver_range inst = true ->
  (forall r, r ∈ requests inst ->
     0 <= req_video r < inst_V inst /\ 0 <= req_endpoint r < inst_E inst) ->
  (forall ep c lc, ep ∈ endpoints inst -> (c, lc) ∈ caches ep -> 0 <= c < inst_C inst) ->
  exists m x,
    build inst = Ok (m, x) /\
    forall X, extract X x (inst_C inst) = Ok (placement_solution X x (inst_C inst)).
Proof.
  intros Hp _ Hreq Hcache.
  destruct (lire_instance_counts _ _ Hp) as (HV & HE & _).
  assert (forall r, r ∈ requests inst -> usable inst r) as Hu.
  { intros r Hr. destruct (Hreq r Hr) as [Hv He]. split; [lia|].
    intros ep c lc Hep Hin _. split; [|lia].
    apply (Hcache ep c lc); [|done]. by eapply py_index_elem. }
  apply build_total in Hu.
  destruct (build inst) as [[m x]|] eqn:Hb; [|done].
  exists m, x. split; [done|]. intros X.
  destruct (extract_cases X x (inst_C inst)) as [[_ He]|[(v & c & i & Hin & _ & Hc) _]];
    [done|].
  destruct Hc. by eapply build_keys_in_range.
Qed.

Lemma valid_instance_builds_witness :
  exists m x,
    build (example_instance 10) = Ok (m, x) /\
    forall X, extract X x 1 = Ok (placement_solution X x 1).
Proof.
  apply (valid_instance_builds (example_file "10") (example_instance 10)).
  - vm_compute. reflexivity.
  - vm_compute. reflexivity.
  - intros r Hr. apply list_elem_of_singleton in Hr. subst r. simpl. lia.
  - intros ep c lc Hep Hin. apply list_elem_of_singleton in Hep. subst ep.
    apply list_elem_of_singleton in Hin. simplify_eq. simpl. lia.
Defined.

(** *** The order of the variables and of the constraints *)

Lemma var_names_ext E : forall s s' : list (Z * Z),
  (forall p, p ∈ s <-> p ∈ s') -> var_names s E = var_names s' E.
Proof.
  induction E as [|e E IH]; intros s s' Hs; [done|]. cbn [var_names].
  f_equal.
  - destruct (decide (_ ∈ s)) as [Hin|Hin], (decide (_ ∈ s')) as [Hin'|Hin'];
      try done; [by apply Hs in Hin|by apply Hs in Hin'].
  - f_equal. apply IH. intros p. rewrite !elem_of_cons. by rewrite Hs.
Qed.

Lemma var_names_app E1 E2 : forall s : list (Z * Z),
  var_names s (E1 ++ E2) =
  var_names s E1 ++
  var_names (((fun e : Request * (Z * Z) => (req_video e.1, e.2.1)) <$> E1) ++ s) E2.
Proof.
  induction E1 as [|e E1 IH]; intros s; [done|].
  rewrite <- app_comm_cons. cbn [var_names]. rewrite IH, <- !app_assoc. f_equal.
  rewrite <- app_comm_cons. f_equal. f_equal. apply var_names_ext.
  intros p. rewrite fmap_cons, !elem_of_app, !elem_of_cons. tauto.
Qed.

Lemma cache_iter_names sizes r ldv st ys cid lc st' ys' :
  lc < ldv ->
  cache_iter sizes r ldv (st, ys) (cid, lc) = Ok (st', ys') ->
  var_name <$> vars (bs_model st') =
    (var_name <$> vars (bs_model st)) ++ var_names (keys (bs_x st)) [(r, (cid, lc))] /\
  constr_name <$> constrs (bs_model st') =
    (constr_name <$> constrs (bs_model st)) ++ [link_ (req_id r) cid] /\
  (forall p, p ∈ keys (bs_x st') <-> p = (req_video r, cid) \/ p ∈ keys (bs_x st)) /\
  length ys' = S (length ys).
Proof.
  intros Hlt H. destruct st as [m x cap].
  apply cache_iter_inv in H as (m1 & x1 & cap1 & xv & Hcase & _ & -> & ->); [|done].
  cbn [bs_model bs_x addConstr addVar snd vars constrs var_names fst].
  rewrite !fmap_app, length_app. cbn [length].
  destruct Hcase as [(Hg & -> & -> & _)|(Hg & _ & -> & -> & _)].
  - apply dict_get_Some_key in Hg. rewrite decide_True by done.
    split; [done|]. split; [done|]. split; [|lia].
    intros p. split; [by right|]. by intros [->|?].
  - apply dict_get_None in Hg. rewrite decide_False by done.
    cbn [addVar snd vars constrs]. rewrite fmap_app, <- app_assoc.
    split; [done|]. split; [done|]. split; [|lia].
    intros p. rewrite keys_app, elem_of_app. simpl. rewrite list_elem_of_singleton.
    tauto.
Qed.

Lemma inner_loop_names sizes r ldv items : forall st ys st' ys',
  foldM (cache_iter sizes r ldv) (st, ys) items = Ok (st', ys') ->
  var_name <$> vars (bs_model st') =
    (var_name <$> vars (bs_model st)) ++
    var_names (keys (bs_x st))
              ((fun it => (r, it)) <$> filter (fun it : Z * Z => it.2 < ldv) items) /\
  constr_name <$> constrs (bs_model st') =
    (constr_name <$> constrs (bs_model st)) ++
    (link_ (req_id r) <$> keys (filter (fun it : Z * Z => it.2 < ldv) items)) /\
  (forall p, p ∈ keys (bs_x st') <->
     p ∈ ((fun it : Z * Z => (req_video r, it.1)) <$>
          filter (fun it : Z * Z => it.2 < ldv) items) \/
     p ∈ keys (bs_x st)) /\
  length ys' =
    (length ys + length (filter (fun it : Z * Z => (it.2 < ldv)%Z) items))%nat.
Proof.
  induction items as [|[cid lc] items IH]; intros st ys st' ys' H.
  - simpl in H. simplify_eq. rewrite filter_nil. simpl. rewrite !app_nil_r.
    split; [done|]. split; [done|]. split; [|lia].
    intros p. split; [by right|]. intros [Hp|?]; [|done]. by apply elem_of_nil in Hp.
  - rewrite foldM_cons in H. apply bind_Ok_inv in H as ([st1 ys1] & H1 & H).
    apply IH in H as (Hv & Hc & Hk & Hl). rewrite filter_cons. cbn [snd].
    destruct (decide (lc < ldv)) as [Hlt|Hge].
    + apply cache_iter_names in H1 as (Hv1 & Hc1 & Hk1 & Hl1); [|done].
      rewrite Hv, Hv1, Hc, Hc1, Hl, Hl1, <- !app_assoc.
      split; [|split; [reflexivity|split; [|simpl; lia]]].
      * f_equal. rewrite fmap_cons. cbn [var_names fst snd].
        rewrite <- app_assoc. f_equal. cbn [app]. f_equal.
        apply var_names_ext. intros p. rewrite Hk1, elem_of_cons. done.
      * intros p. rewrite Hk, Hk1, fmap_cons, elem_of_cons. cbn [fst]. tauto.
    + rewrite cache_iter_skip in H1 by lia. by simplify_eq.
Qed.

Lemma request_iter_names sizes eps st r st' :
  request_iter sizes eps st r = Ok st' ->
  var_name <$> vars (bs_model st') =
    (var_name <$> vars (bs_model st)) ++
    var_names (keys (bs_x st)) ((fun it => (r, it)) <$> eligible_of eps r) /\
  constr_name <$> constrs (bs_model st') =
    (constr_name <$> constrs (bs_model st)) ++
    (link_ (req_id r) <$> keys (eligible_of eps r)) ++
    (if decide (eligible_of eps r = []) then [] else [assign_ (req_id r)]) /\
  (forall p, p ∈ keys (bs_x st') <->
     p ∈ ((fun it : Z * Z => (req_video r, it.1)) <$> eligible_of eps r) \/
     p ∈ keys (bs_x st)).
Proof.
  unfold request_iter. intros H.
  apply bind_Ok_inv in H as (ep & Hep & H).
  apply bind_Ok_inv in H as ([st1 ys] & Hin & H).
  assert (eligible_of eps r = filter (fun it : Z * Z => it.2 < ld ep) (caches ep)) as ->.
  { unfold eligible_of, endpoint_of. by rewrite Hep. }
  apply inner_loop_names in Hin as (Hv & Hc & Hk & Hl). simpl in Hl.
  destruct ys as [|y ys]; simplify_eq.
  - symmetry in Hl. apply nil_length_inv in Hl.
    rewrite decide_True by done. rewrite app_nil_r. done.
  - cbn [bs_model bs_x addConstr vars constrs].
    rewrite decide_False by (intros Hnil; by rewrite Hnil in Hl).
    split; [done|]. split; [|done]. by rewrite fmap_app, Hc, <- app_assoc.
Qed.

Lemma process_names sizes eps rs : forall st st',
  foldM (request_iter sizes eps) st rs = Ok st' ->
  var_name <$> vars (bs_model st') =
    (var_name <$> vars (bs_model st)) ++
    var_names (keys (bs_x st)) (eligible_pairs eps rs) /\
  constr_name <$> constrs (bs_model st') =
    (constr_name <$> constrs (bs_model st)) ++ constr_names eps rs /\
  (forall p, p ∈ keys (bs_x st') <->
     p ∈ ((fun e : Request * (Z * Z) => (req_video e.1, e.2.1)) <$>
          eligible_pairs eps rs) \/
     p ∈ keys (bs_x st)).
Proof.
  induction rs as [|r rs IH]; intros st st' H.
  - simpl in H. simplify_eq. simpl. rewrite !app_nil_r.
    split; [done|]. split; [done|].
    intros p. split; [by right|]. intros [Hp|?]; [|done]. by apply elem_of_nil in Hp.
  - rewrite foldM_cons in H. apply bind_Ok_inv in H as (st1 & H1 & H).
    apply request_iter_names in H1 as (Hv1 & Hc1 & Hk1).
    apply IH in H as (Hv & Hc & Hk).
    change (eligible_pairs eps (r :: rs))
      with (((fun it => (r, it)) <$> eligible_of eps r) ++ eligible_pairs eps rs).
    unfold constr_names in *. cbn [flat_map].
    rewrite Hv, Hv1, Hc, Hc1, <- !app_assoc.
    split; [|split; [done|]].
    + f_equal. rewrite var_names_app. f_equal. apply var_names_ext.
      intros p. rewrite Hk1, elem_of_app, <- list_fmap_compose. done.
    + intros p. rewrite Hk, Hk1, fmap_app, elem_of_app, <- list_fmap_compose.
      simpl. tauto.
Qed.

(** X21: the names of the returned model, in creation order.  The
    variables follow the (request, eligible cache) pairs: for each pair the
    PlacementVariable if its (video, cache) pair occurs for the first time,
    then the ServingVariable.  The constraints are, request by request, the
    link constraints of the request followed by its assignment constraint if
    it has an eligible cache, and after all requests the capacity
    constraints of the caches of [range(C)] that hold a variable, in
    ascending order. *)
Theorem model_order inst m x :
  build inst = Ok (m, x) ->
  var_name <$> vars m = var_names [] (eligible_pairs (endpoints inst) (requests inst)) /\
  constr_name <$> constrs m =
    constr_names (endpoints inst) (requests inst) ++
    (cap_cache_ <$> filter (fun c => c ∈ (keys x).*2) (range (inst_C inst))).
Proof.
  intros H.
  destruct (build_inv_spec _ _ _ H) as (st & Hst & Hinv & Hd & -> & Hv & Hs & Hk).
  apply process_names in Hst as (Hvn & Hcn & _). simpl in Hvn, Hcn.
  split; [by rewrite Hv|].
  rewrite Hk, fmap_app, Hcn. f_equal. rewrite <- list_fmap_compose.
  rewrite (list_filter_iff _ (fun c => c ∈ (keys (bs_x st)).*2)); [done|].
  intros c. apply cap_terms_nonempty_snd.
Qed.

Lemma model_order_witness :
  build (example_instance 10) = Ok (example_model, example_x) /\
  var_name <$> vars example_model = [x_ 0 0; y_ 0 0] /\
  constr_name <$> constrs example_model = [link_ 0 0; assign_ 0; cap_cache_ 0].
Proof.
  assert (build (example_instance 10) = Ok (example_model, example_x)) as H
    by (vm_compute; reflexivity).
  split; [exact H|].
  destruct (model_order _ _ _ H) as [Hv Hc]. split.
  - rewrite Hv. reflexivity.
  - rewrite Hc. vm_compute. reflexivity.
Defined.

(** *** The text of the output *)

Lemma string_app_assoc (s1 s2 s3 : string) : (s1 +:+ s2) +:+ s3 = s1 +:+ s2 +:+ s3.
Proof. induction s1 as [|c s1 IH]; [done|]. exact (f_equal (String c) IH). Qed.

Lemma string_app_nil_r (s : string) : s +:+ "" = s.
Proof. induction s as [|c s IH]; [done|]. exact (f_equal (String c) IH). Qed.

Lemma concat_empty_cons (s : string) (l : list string) :
  String.concat "" (s :: l) = s +:+ String.concat "" l.
Proof. destruct l as [|t l]; [symmetry; apply string_app_nil_r|reflexivity]. Qed.

Lemma pretty_N_go_chars x : forall s c,
  c ∈ list_ascii_of_string (pretty_N_go x s) ->
  c ∈ list_ascii_of_string s \/ digit_of c <> None.
Proof.
  induction (N.lt_wf_0 x) as [x _ IH]; intros s c Hc.
  destruct (decide (x = 0)%N) as [->|Hx]; [left; by rewrite pretty_N_go_0 in Hc|].
  rewrite pretty_N_go_step in Hc by lia.
  apply IH in Hc as [Hc|Hc]; [|by right|apply N.div_lt; lia].
  simpl in Hc. apply elem_of_cons in Hc as [->|Hc]; [|by left]. right.
  destruct (digit_char (x `mod` 10)%N) as (_ & _ & _ & Hd); [by apply N.mod_lt|].
  by rewrite Hd.
Qed.

Lemma str_chars z c :
  c ∈ list_ascii_of_string (str z) -> c = "-"%char \/ digit_of c <> None.
Proof.
  unfold str. destruct z as [|p|p].
  - simpl. intros Hc. apply list_elem_of_singleton in Hc. subst c. by right.
  - change (pretty (Z.pos p)) with (pretty (N.pos p)). unfold pretty, pretty_N.
    rewrite decide_False by done. intros Hc.
    apply pretty_N_go_chars in Hc as [Hc|Hc]; [|by right].
    by apply elem_of_nil in Hc.
  - change (pretty (Z.neg p)) with (String "-" (pretty (N.pos p))).
    simpl. intros Hc. apply elem_of_cons in Hc as [->|Hc]; [by left|].
    revert Hc. unfold pretty, pretty_N. rewrite decide_False by done. intros Hc.
    apply pretty_N_go_chars in Hc as [Hc|Hc]; [|by right].
    by apply elem_of_nil in Hc.
Qed.

(** X22: the text written for a successful extraction is made of lines of
    integers separated by single spaces, each line ended by a newline: a
    first line holding the number of lines that follow, then one line per
    used cache holding its identifier and its videos, of which there is at
    least one.  An integer is written with decimal digits and a leading
    minus sign only, so that no token holds a space or a newline. *)
Theorem output_is_lines_of_integers X x C used :
  extract X x C = Ok used ->
  Forall (fun e : Z * list Z => e.2 <> []) used /\
  output_text used =
    Ok (String.concat ""
          ((fun zs : list Z => join " " (str <$> zs) +:+ newline) <$>
           ([Z.of_nat (length used)] :: ((fun e : Z * list Z => e.1 :: e.2) <$> used)))) /\
  (forall z c, c ∈ list_ascii_of_string (str z) -> c = "-"%char \/ digit_of c <> None).
Proof.
  intros He.
  destruct (extract_cases X x C) as [[Hall He']|[_ He']]; rewrite He' in He; simplify_eq.
  assert (Forall (fun e : Z * list Z => e.2 <> []) (placement_solution X x C)) as Hne.
  { apply Forall_forall. intros [c vs] Hin. unfold placement_solution in Hin.
    apply list_elem_of_fmap in Hin as (c' & Heq & Hin). simplify_eq.
    apply list_elem_of_filter in Hin as [Hne _]. cbn [snd]. intros Hnil.
    apply Hne. apply Permutation_nil_r. rewrite <- Hnil. symmetry.
    apply merge_sort_Permutation. }
  split; [done|]. split; [|apply str_chars].
  rewrite (output_text_spec _ (placement_solution_sorted X x C)). f_equal.
  unfold solution_text. rewrite fmap_cons, concat_empty_cons.
  cbn [fmap list_fmap join]. rewrite string_app_assoc. do 3 f_equal.
  rewrite <- list_fmap_compose. apply Forall_fmap_ext.
  eapply Forall_impl; [exact Hne|]. intros [c vs] Hvs. cbn [fst snd compose] in *.
  unfold solution_line. cbn [fst snd]. destruct vs as [|v vs]; [done|].
  rewrite !fmap_cons. cbn [join]. by rewrite !string_app_assoc.
Qed.

Lemma output_is_lines_of_integers_witness :
  extract (fun _ => 1%float) example_x 1 = Ok [(0, [0])] /\
  output_text [(0, [0])] = Ok "1
0 0
".
Proof.
  assert (extract (fun _ => 1%float) example_x 1 = Ok [(0, [0])]) as H
    by (vm_compute; reflexivity).
  split; [exact H|].
  destruct (output_is_lines_of_integers _ _ _ _ H) as (_ & Ht & _).
  rewrite Ht. vm_compute. reflexivity.
Defined.
